(** * Multiboot v1 image assembly (u-root [pkg/multiboot], [pkg/kexec])

    A shallow embedding of the Go sources and the properties of the
    design document that were checked against them.

    Conventions.
    - Go's [uint32], [uint64], [uintptr] and [uint] are modelled as [Z]
      with the wrap-around of every operation written out ([u32], [u64]).
      [uintptr] and [uint] are 64 bits wide (amd64, the platform of the
      trampoline, whose entry point is a quad word).
    - A [[]byte] is a [list byte]; a Go [string] is a [string] whose
      characters are its bytes.
    - [nativeEndian] is little-endian (x86).
    - A Go function returning [(T, error)] returns a [result T]; a run-time
      panic is a third outcome. *)

From Stdlib Require Import ZArith List Lia Bool Arith.
From Stdlib Require Import Strings.String Strings.Ascii Strings.Byte.
Import ListNotations.

Local Open Scope Z_scope.

(* ===================================================================== *)
(** * Machine integers and byte order *)
(* ===================================================================== *)

Definition u32 (z : Z) : Z := z mod 2 ^ 32.
Definition u64 (z : Z) : Z := z mod 2 ^ 64.

Definition byte_to_Z (b : byte) : Z := Z.of_N (Byte.to_N b).

(** [byte(v)]: the conversion of an unsigned integer to [byte] keeps the low
    eight bits. *)
Definition Z_to_byte (z : Z) : byte :=
  match Byte.of_N (Z.to_N (z mod 256)) with
  | Some b => b
  | None => x00
  end.

(** [b[i]] of a slice read as an integer, zero beyond the end (every read
    below is guarded by a length test or lands in zero padding). *)
Definition byteAt (b : list byte) (i : nat) : Z := byte_to_Z (nth i b x00).

(** [binary.LittleEndian.Uint32(b[off:])]. *)
Definition Uint32At (b : list byte) (off : nat) : Z :=
  byteAt b off
  + Z.shiftl (byteAt b (off + 1)) 8
  + Z.shiftl (byteAt b (off + 2)) 16
  + Z.shiftl (byteAt b (off + 3)) 24.

(** [binary.LittleEndian.PutUint16], as the bytes written. *)
Definition PutUint16 (v : Z) : list byte :=
  [Z_to_byte v; Z_to_byte (Z.shiftr v 8)].

(** [binary.LittleEndian.PutUint32], as the bytes written. *)
Definition PutUint32 (v : Z) : list byte :=
  [Z_to_byte v; Z_to_byte (Z.shiftr v 8);
   Z_to_byte (Z.shiftr v 16); Z_to_byte (Z.shiftr v 24)].

(** [binary.LittleEndian.PutUint64], as the bytes written. *)
Definition PutUint64 (v : Z) : list byte :=
  [Z_to_byte v; Z_to_byte (Z.shiftr v 8);
   Z_to_byte (Z.shiftr v 16); Z_to_byte (Z.shiftr v 24);
   Z_to_byte (Z.shiftr v 32); Z_to_byte (Z.shiftr v 40);
   Z_to_byte (Z.shiftr v 48); Z_to_byte (Z.shiftr v 56)].

(** [len(s)] of a slice or string, as an integer. *)
Definition len {A} (l : list A) : Z := Z.of_nat (List.length l).
Definition slen (s : string) : Z := Z.of_nat (String.length s).

(* ===================================================================== *)
(** * Errors and results *)
(* ===================================================================== *)

Inductive error : Type :=
| ErrHeaderNotFound            (* "multiboot header not found" *)
| ErrFlagsNotSupported         (* "multiboot header flags not supported yet" *)
| io_EOF
| io_ErrUnexpectedEOF
| errEmptyModule               (* "empty module" *)
| ErrLabelNotFound (label : string)   (* "%q label not found in file" *)
| ErrReadTrampoline (path : string)   (* "cannot read trampoline file: %v" *)
| ErrOpen (path : string)             (* os.Open failed *)
| ErrElf                              (* elf.NewFile failed *)
| ErrKexec (code : nat)               (* an error of package kexec *)
| ErrContext (msg : string) (cause : error).   (* fmt.Errorf("msg: %v", err) *)

Inductive result (A : Type) : Type :=
| Ok (a : A)
| Err (e : error)
| Panic.                       (* run-time panic: index out of range *)
Arguments Ok {A} a.
Arguments Err {A} e.
Arguments Panic {A}.

Definition bind {A B} (r : result A) (k : A -> result B) : result B :=
  match r with
  | Ok a => k a
  | Err e => Err e
  | Panic => Panic
  end.

Notation "x <- r ;; k" := (bind r (fun x => k))
  (at level 61, r at next level, right associativity).
Notation "' pat <- r ;; k" := (bind r (fun x => let 'pat := x in k))
  (at level 61, pat pattern, r at next level, right associativity).

(* ===================================================================== *)
(** * header.go *)
(* ===================================================================== *)

Definition headerMagic : Z := 0x1BADB002.

Definition flagHeaderPageAlign : Z := 0x00000001.
Definition flagHeaderMemoryInfo : Z := 0x00000002.
Definition flagHeaderMultibootVideoMode : Z := 0x00000004.
Definition flagHeaderAoutKludge : Z := 0x00010000.
Definition flagHeaderUnsupported : Z := 0x0000FFFC.

(** A Multiboot v1 header: the [mandatory] part followed by the [optional]
    part, flattened as Go's struct embedding does. *)
Record Header : Type := mkHeader {
  Magic : Z;
  Flags : Z;
  Checksum : Z;
  HeaderAddr : Z;
  LoadAddr : Z;
  LoadEndAddr : Z;
  BSSEndAddr : Z;
  EntryAddr : Z;
  ModeType : Z;
  Width : Z;
  Height : Z;
  Depth : Z
}.

(** [var hdr Header]. *)
Definition zeroHeader : Header := mkHeader 0 0 0 0 0 0 0 0 0 0 0 0.

Definition mandatorySize : nat := 12.   (* binary.Size(mandatory{}) *)
Definition optionalSize : nat := 36.    (* binary.Size(optional{}) *)
Definition sizeofHeader : nat := (mandatorySize + optionalSize)%nat.

(** [binary.Read(br, nativeEndian, &hdr)] on a reader reset to [buf]: twelve
    little-endian words from the front of [buf]. It cannot fail under the
    loop guard [len(buf) >= sizeofHeader]. *)
Definition readHeader (buf : list byte) : Header :=
  mkHeader (Uint32At buf 0) (Uint32At buf 4) (Uint32At buf 8)
           (Uint32At buf 12) (Uint32At buf 16) (Uint32At buf 20)
           (Uint32At buf 24) (Uint32At buf 28) (Uint32At buf 32)
           (Uint32At buf 36) (Uint32At buf 40) (Uint32At buf 44).

(** The acceptance test of the scan loop:
    [hdr.Magic == headerMagic && (hdr.Magic+hdr.Flags+hdr.Checksum) == 0],
    the sum taken in [uint32]. *)
Definition acceptable (hdr : Header) : bool :=
  (Magic hdr =? headerMagic) && (u32 (Magic hdr + Flags hdr + Checksum hdr) =? 0).

(** The [for len(buf) >= sizeofHeader] loop of [parseHeader]. [hdr] is the
    variable of that name: it keeps the last candidate decoded. The
    recursion follows [buf = buf[4:]]. *)
Fixpoint scanHeader (hdr : Header) (buf : list byte) : Header * option error :=
  if (sizeofHeader <=? List.length buf)%nat then
    let hdr := readHeader buf in
    if acceptable hdr then
      if negb (Z.land (Flags hdr) flagHeaderUnsupported =? 0)
      then (hdr, Some ErrFlagsNotSupported)
      else (hdr, None)
    else
      match buf with
      | _ :: _ :: _ :: _ :: rest => scanHeader hdr rest
      | _ => (hdr, Some ErrHeaderNotFound)
      end
  else (hdr, Some ErrHeaderNotFound).

(** [buf := make([]byte, 8192)]: the header lies in the first 8192 bytes. *)
Definition headerSearch : nat := Z.to_nat 8192.

(** [io.ReadAtLeast(r, buf, min)] on a reader that holds [input] and hands
    out whatever fits in one [Read] (a file or an in-memory reader): the
    number of bytes read and the error. *)
Definition ReadAtLeast (input : list byte) (size min : nat) : nat * option error :=
  let n := Nat.min size (List.length input) in
  if (min <=? n)%nat then (n, None)
  else if (n =? 0)%nat then (n, Some io_EOF)
  else (n, Some io_ErrUnexpectedEOF).

(** [parseHeader(r)] where [r] reads [input]. Go returns the header next to
    the error, so both are kept. *)
Definition parseHeader (input : list byte) : Header * option error :=
  let hdr := zeroHeader in
  let '(n, err) := ReadAtLeast input headerSearch mandatorySize in
  match err with
  | Some e => (hdr, Some e)
  | None =>
      let buf := firstn n input in
      let buf := buf ++ repeat x00 optionalSize in
      scanHeader hdr buf
  end.

(* ===================================================================== *)
(** * info.go *)
(* ===================================================================== *)

(** [[]byte(s)]. *)
Definition bytesOf (s : string) : list byte := list_byte_of_string s.

Definition flagInfoMemory : Z := Z.shiftl 1 0.
Definition flagInfoBootDev : Z := Z.shiftl 1 1.
Definition flagInfoCmdLine : Z := Z.shiftl 1 2.
Definition flagInfoMods : Z := Z.shiftl 1 3.
Definition flagInfoAoutSyms : Z := Z.shiftl 1 4.
Definition flagInfoElfSHDR : Z := Z.shiftl 1 5.
Definition flagInfoMemMap : Z := Z.shiftl 1 6.
Definition flagInfoDriveInfo : Z := Z.shiftl 1 7.
Definition flagInfoConfigTable : Z := Z.shiftl 1 8.
Definition flagInfoBootLoaderName : Z := Z.shiftl 1 9.
Definition flagInfoAPMTable : Z := Z.shiftl 1 10.
Definition flagInfoVideoInfo : Z := Z.shiftl 1 11.
Definition flagInfoFrameBuffer : Z := Z.shiftl 1 12.

(** [type Info struct], field by field, with the widths the source
    declares. *)
Module Info.
Record t : Type := mk {
  Flags : Z;                     (* uint32 *)
  MemLower : Z;                  (* uint32 *)
  MemUpper : Z;                  (* uint32 *)
  BootDevice : Z;                (* uint32 *)
  CmdLine : Z;                   (* uint32 *)
  ModsCount : Z;                 (* uint32 *)
  ModsAddr : Z;                  (* uint32 *)
  Syms : Z * Z * Z * Z;          (* [4]uint32 *)
  MmapLength : Z;                (* uint32 *)
  MmapAddr : Z;                  (* uint32 *)
  DriversLength : Z;             (* uint32 *)
  DrivesrAddr : Z;               (* uint32 *)
  ConfigTable : Z;               (* uint32 *)
  BootLoaderName : Z;            (* uint32 *)
  APMTable : Z;                  (* uint32 *)
  VBEControlInfo : Z;            (* uint32 *)
  VBEModeInfo : Z;               (* uint32 *)
  VBEMode : Z;                   (* uint16 *)
  VBEInterfaceSeg : Z;           (* uint16 *)
  VBEInterfaceOff : Z;           (* uint16 *)
  VBEInterfaceLen : Z;           (* uint16 *)
  FramebufferAddr : Z;           (* uint16 *)
  FramebufferPitch : Z;          (* uint16 *)
  FramebufferWidth : Z;          (* uint32 *)
  FramebufferHeight : Z;         (* uint32 *)
  FramebufferBPP : byte;
  FramebufferType : byte;
  ColorInfo : byte * byte * byte * byte * byte * byte   (* [6]byte *)
}.

(** [Info{}]. *)
Definition zero : t :=
  mk 0 0 0 0 0 0 0 (0, 0, 0, 0) 0 0 0 0 0 0 0 0 0 0 0 0 0 0 0 0 0
     x00 x00 (x00, x00, x00, x00, x00, x00).

Definition set_Flags (v : Z) (i : t) : t :=
  mk v (MemLower i) (MemUpper i) (BootDevice i) (CmdLine i) (ModsCount i)
     (ModsAddr i) (Syms i) (MmapLength i) (MmapAddr i) (DriversLength i)
     (DrivesrAddr i) (ConfigTable i) (BootLoaderName i) (APMTable i)
     (VBEControlInfo i) (VBEModeInfo i) (VBEMode i) (VBEInterfaceSeg i)
     (VBEInterfaceOff i) (VBEInterfaceLen i) (FramebufferAddr i)
     (FramebufferPitch i) (FramebufferWidth i) (FramebufferHeight i)
     (FramebufferBPP i) (FramebufferType i) (ColorInfo i).

Definition set_CmdLine (v : Z) (i : t) : t :=
  mk (Flags i) (MemLower i) (MemUpper i) (BootDevice i) v (ModsCount i)
     (ModsAddr i) (Syms i) (MmapLength i) (MmapAddr i) (DriversLength i)
     (DrivesrAddr i) (ConfigTable i) (BootLoaderName i) (APMTable i)
     (VBEControlInfo i) (VBEModeInfo i) (VBEMode i) (VBEInterfaceSeg i)
     (VBEInterfaceOff i) (VBEInterfaceLen i) (FramebufferAddr i)
     (FramebufferPitch i) (FramebufferWidth i) (FramebufferHeight i)
     (FramebufferBPP i) (FramebufferType i) (ColorInfo i).

Definition set_Mods (count addr : Z) (i : t) : t :=
  mk (Flags i) (MemLower i) (MemUpper i) (BootDevice i) (CmdLine i) count
     addr (Syms i) (MmapLength i) (MmapAddr i) (DriversLength i)
     (DrivesrAddr i) (ConfigTable i) (BootLoaderName i) (APMTable i)
     (VBEControlInfo i) (VBEModeInfo i) (VBEMode i) (VBEInterfaceSeg i)
     (VBEInterfaceOff i) (VBEInterfaceLen i) (FramebufferAddr i)
     (FramebufferPitch i) (FramebufferWidth i) (FramebufferHeight i)
     (FramebufferBPP i) (FramebufferType i) (ColorInfo i).

Definition set_BootLoaderName (v : Z) (i : t) : t :=
  mk (Flags i) (MemLower i) (MemUpper i) (BootDevice i) (CmdLine i)
     (ModsCount i) (ModsAddr i) (Syms i) (MmapLength i) (MmapAddr i)
     (DriversLength i) (DrivesrAddr i) (ConfigTable i) v (APMTable i)
     (VBEControlInfo i) (VBEModeInfo i) (VBEMode i) (VBEInterfaceSeg i)
     (VBEInterfaceOff i) (VBEInterfaceLen i) (FramebufferAddr i)
     (FramebufferPitch i) (FramebufferWidth i) (FramebufferHeight i)
     (FramebufferBPP i) (FramebufferType i) (ColorInfo i).

(** [binary.Write(&buf, nativeEndian, info)]: the fields in declaration
    order, each in its declared width, no padding. *)
Definition binaryWrite (i : t) : list byte :=
  let '(s0, s1, s2, s3) := Syms i in
  let '(c0, c1, c2, c3, c4, c5) := ColorInfo i in
  PutUint32 (Flags i) ++ PutUint32 (MemLower i) ++ PutUint32 (MemUpper i)
  ++ PutUint32 (BootDevice i)
  ++ PutUint32 (CmdLine i)
  ++ PutUint32 (ModsCount i) ++ PutUint32 (ModsAddr i)
  ++ PutUint32 s0 ++ PutUint32 s1 ++ PutUint32 s2 ++ PutUint32 s3
  ++ PutUint32 (MmapLength i) ++ PutUint32 (MmapAddr i)
  ++ PutUint32 (DriversLength i) ++ PutUint32 (DrivesrAddr i)
  ++ PutUint32 (ConfigTable i)
  ++ PutUint32 (BootLoaderName i)
  ++ PutUint32 (APMTable i)
  ++ PutUint32 (VBEControlInfo i) ++ PutUint32 (VBEModeInfo i)
  ++ PutUint16 (VBEMode i) ++ PutUint16 (VBEInterfaceSeg i)
  ++ PutUint16 (VBEInterfaceOff i) ++ PutUint16 (VBEInterfaceLen i)
  ++ PutUint16 (FramebufferAddr i) ++ PutUint16 (FramebufferPitch i)
  ++ PutUint32 (FramebufferWidth i) ++ PutUint32 (FramebufferHeight i)
  ++ [FramebufferBPP i; FramebufferType i]
  ++ [c0; c1; c2; c3; c4; c5].

(** [binary.Size(Info{})]: the number of bytes [binary.Write] produces for
    a value of the type. *)
Definition binarySize : Z := len (binaryWrite zero).
End Info.

(** [var sizeofInfo = uint32(binary.Size(Info{}))]. *)
Definition sizeofInfo : Z := u32 Info.binarySize.

(** [type infoWrapper struct]: the embedded [Info] and the two strings that
    share the names of its pointer fields. *)
Record infoWrapper : Type := mkInfoWrapper {
  Info_ : Info.t;
  CmdLine : string;
  BootLoaderName : string
}.

(** The builtin [copy(dst, src)], as the new content of [dst]: as many bytes
    as both slices hold. *)
Definition copy (dst src : list byte) : list byte :=
  firstn (List.length dst) src ++ skipn (List.length src) dst.

(** [copy(d[k:], src)], as the new content of [d] (for [k <= len(d)]). *)
Definition copyAt (d : list byte) (k : nat) (src : list byte) : list byte :=
  firstn k d ++ copy (skipn k d) src.

(** [(x + 3) &^ 3] on [int]. *)
Definition roundUp4 (x : Z) : Z := Z.land (x + 3) (Z.lnot 3).

(** [infoWrapper.marshal(base)].  Writing to a [bytes.Buffer] does not fail,
    so the result is always [Ok]. *)
Definition marshal (iw : infoWrapper) (base : Z) : result (list byte) :=
  let offset := u32 (sizeofInfo + u32 base) in
  let info := Info.set_CmdLine offset (Info_ iw) in
  let offset := u32 (offset + u32 (u32 (slen (CmdLine iw)) + 1)) in
  let info := Info.set_BootLoaderName offset info in
  let buf := Info.binaryWrite info in
  let buf := buf ++ bytesOf (CmdLine iw) ++ [x00] in
  let buf := buf ++ bytesOf (BootLoaderName iw) ++ [x00] in
  let size := roundUp4 (len buf) in
  let d := repeat x00 (Z.to_nat size) in
  let d := copy d buf in
  Ok d.

(** [infoWrapper.size()]. *)
Definition infoSize (iw : infoWrapper) : result Z :=
  b <- marshal iw 0 ;; Ok (len b).

(* ===================================================================== *)
(** * Package kexec: the types multiboot uses *)
(* ===================================================================== *)

Module kexec.

(** [type RangeType string] with its named constants; any other string is
    [RangeOther]. *)
Inductive RangeType : Type :=
| RangeRAM | RangeDefault | RangeNVACPI | RangeACPI | RangeNVS
| RangeOther (s : string).

Definition isRAM (t : RangeType) : bool :=
  match t with RangeRAM => true | _ => false end.

(** [type Range struct { Start uintptr; Size uint }]. *)
Record Range : Type := mkRange { Start : Z; Size : Z }.

(** [type PhysicalMemory struct { Range; Type RangeType }]. *)
Record PhysicalMemory : Type := mkPhys { Range_ : Range; Type_ : RangeType }.

(** [type Segment struct]: payload and physical range. *)
Record Segment : Type := mkSegment { Buf : list byte; SegPhys : Range }.

(** [type Memory struct { Phys []PhysicalMemory; Segments []Segment }]. *)
Record Memory : Type := mkMemory {
  Phys : list PhysicalMemory;
  Segments : list Segment
}.

(** An error of this package, opaque to its callers. *)
Definition error : Type := nat.

(** ** Range arithmetic *)

(** One past the last byte of a range. *)
Definition rangeEnd (r : Range) : Z := Start r + Size r.

(** Byte address [b] lies in the half-open interval [[start, start+size)]. *)
Definition contains (r : Range) (b : Z) : Prop := Start r <= b < rangeEnd r.

(** Modelled from the spec: the subtraction of one hole from one gap
    (pkg/kexec/memory.go is not among the sources).  What is left of [gap]
    once the bytes of [hole] are removed: the part below the hole and the
    part above it, each when it has a byte; a hole strictly inside splits
    the gap in two, a hole across a boundary trims it, a hole outside or
    without bytes removes nothing. *)
Definition cut (hole gap : Range) : list Range :=
  if Size hole <=? 0 then [gap]
  else
    let below := Z.min (rangeEnd gap) (Start hole) in
    let above := Z.max (Start gap) (rangeEnd hole) in
    (if Start gap <? below then [mkRange (Start gap) (below - Start gap)] else [])
    ++ (if above <? rangeEnd gap then [mkRange above (rangeEnd gap - above)] else []).

(** Modelled from the spec: the gaps of one range of the universe
    (pkg/kexec/memory.go is not among the sources).  The holes are removed
    one after the other from the list of gaps found so far, which starts
    with the range itself when it has a byte. *)
Definition gapsOf (u : Range) (holes : list Range) : list Range :=
  fold_left (fun gaps hole => flat_map (cut hole) gaps) holes
            (if 0 <? Size u then [u] else []).

(** Modelled from the spec: the range subtraction of pkg/kexec/memory.go,
    which is not among the sources (only its test is).  Design document,
    section 4.1: [subtract(universe, holes)] is the gaps left in
    [universe] after removing every byte covered by any interval in
    [holes]; the result keeps the universe's type tag per gap, keeps the
    order, and coalesces adjacent gaps within a single input range; a hole
    strictly inside a range splits it in two, a hole straddling a boundary
    trims the overlap, a hole outside any range is ignored, and an empty
    [holes] set returns [universe] unchanged. *)
Definition subtract (universe : list PhysicalMemory) (holes : list Range)
  : list PhysicalMemory :=
  match holes with
  | [] => universe
  | _ =>
      flat_map (fun u => map (fun g => mkPhys g (Type_ u)) (gapsOf (Range_ u) holes))
               universe
  end.

(** Modelled from the spec: [Memory.sub()], the subtraction of the claimed
    segments from the physical memory map (the method the test
    [TestMemorySub] calls; its body is not among the sources). *)
Definition sub (m : Memory) : list PhysicalMemory :=
  subtract (Phys m) (map SegPhys (Segments m)).

End kexec.

(** The collaborators of package multiboot whose code lies outside it: the
    file system, the gzip reader, and the allocator of [kexec.Memory].
    [FindSpace] and [AddKexecSegment] have pointer receivers, so each
    returns the memory it leaves behind.  Their errors are values of package
    kexec or os, never [errEmptyModule]. *)
Class Host : Type := {
  (** [ioutil.ReadFile] / [os.Open] followed by [ioutil.ReadAll]. *)
  ReadFile : string -> option (list byte);
  (** [readGzip] on the content of a file: the decompressed bytes, or
      [None] when the content is not a gzip stream. *)
  gunzip : list byte -> option (list byte);
  FindSpace : kexec.Memory -> Z -> kexec.error + (Z * kexec.Memory);
  AddKexecSegment : kexec.Memory -> list byte -> kexec.error + (Z * kexec.Memory);
  (** [Memory.LoadElfSegments(kernel)] and [Memory.ParseMemoryMap()]. *)
  LoadElfSegments : kexec.Memory -> list byte -> kexec.error + kexec.Memory;
  ParseMemoryMap : kexec.Memory -> kexec.error + kexec.Memory;
  (** [elf.NewFile(r)] followed by [f.Entry]: the entry point of an ELF
      image, or [None] when the image is malformed. *)
  elfEntry : list byte -> option Z
}.

Definition liftK {A} (r : kexec.error + A) : result A :=
  match r with
  | inl e => Err (ErrKexec e)
  | inr a => Ok a
  end.

(** [if err != nil { return fmt.Errorf(msg + ": %v", err) }]. *)
Definition context {A} (msg : string) (r : result A) : result A :=
  match r with
  | Err e => Err (ErrContext msg e)
  | r => r
  end.

(* ===================================================================== *)
(** * trampoline.go *)
(* ===================================================================== *)

Definition TrampolineEBX : string := "u-root-ebx-long".
Definition TrampolineEP : string := "u-root-ep-quad".

(** [bytes.HasPrefix(d, p)]. *)
Fixpoint HasPrefix (d p : list byte) : bool :=
  match p, d with
  | [], _ => true
  | _ :: _, [] => false
  | x :: p', y :: d' => Byte.eqb x y && HasPrefix d' p'
  end.

(** [bytes.Index(d, sep)]: the index of the first instance of [sep] in [d];
    [None] stands for [-1]. *)
Fixpoint Index (d sep : list byte) : option nat :=
  if HasPrefix d sep then Some 0%nat
  else match d with
       | [] => None
       | _ :: d' => option_map S (Index d' sep)
       end.

(** The closure [replace] of [setupTrampoline]; the patched slice is
    returned in place of the mutation of [d]. *)
Definition replace (d label buf : list byte) : result (list byte) :=
  match Index d label with
  | None => Err (ErrLabelNotFound (string_of_list_byte label))
  | Some ind =>
      if (List.length d <? ind + List.length label + List.length buf)%nat
      then Err io_ErrUnexpectedEOF
      else Ok (copyAt d (ind + List.length label) buf)
  end.

Section WithHost.
Context {host : Host}.

(** [setupTrampoline(path, infoAddr, entryPoint)]. *)
Definition setupTrampoline (path : string) (infoAddr entryPoint : Z)
  : result (list byte) :=
  match ReadFile path with
  | None => Err (ErrReadTrampoline path)
  | Some trampoline =>
      let buf := PutUint32 (u32 infoAddr) ++ PutUint64 (u64 entryPoint) in
      trampoline <- replace trampoline (bytesOf TrampolineEBX) (firstn 4 buf) ;;
      trampoline <- replace trampoline (bytesOf TrampolineEP) (skipn 4 buf) ;;
      Ok trampoline
  end.

End WithHost.

(* ===================================================================== *)
(** * module.go *)
(* ===================================================================== *)

(** [type Module struct]: the descriptor the kernel reads. *)
Module ModuleDescriptor.
Record t : Type := mk {
  Start : Z;        (* uint32 *)
  End_ : Z;         (* uint32 *)
  CmdLine : Z;      (* uint32 *)
  Reserved : Z      (* uint32 *)
}.

Definition binaryWrite (d : t) : list byte :=
  PutUint32 (Start d) ++ PutUint32 (End_ d) ++ PutUint32 (CmdLine d)
  ++ PutUint32 (Reserved d).
End ModuleDescriptor.

(** [type module struct]. *)
Module module.
Record t : Type := mk {
  start : Z;        (* uint32 *)
  end_ : Z;         (* uint32 *)
  cmdLine : string
}.
End module.

(** [var sizeofModule = binary.Size(Module{})]. *)
Definition sizeofModule : Z :=
  len (ModuleDescriptor.binaryWrite (ModuleDescriptor.mk 0 0 0 0)).

(** The body of the loop of [modules.marshal] on the pair
    [(cmdBuf, dataBuf)]. *)
Definition marshalStep (base : Z) (bufs : list byte * list byte) (mod_ : module.t)
  : list byte * list byte :=
  let '(cmdBuf, dataBuf) := bufs in
  let offset := u32 (u32 base + u32 (len cmdBuf)) in
  let dataBuf :=
    dataBuf ++ ModuleDescriptor.binaryWrite
                 (ModuleDescriptor.mk (module.start mod_) (module.end_ mod_) offset 0) in
  let cmdBuf := cmdBuf ++ bytesOf (module.cmdLine mod_) ++ [x00] in
  (cmdBuf, dataBuf).

(** [modules.marshal(base)]; it does not fail. *)
Definition marshalModules (m : list module.t) (base : Z) : result (list byte) :=
  let '(cmdBuf, dataBuf) := fold_left (marshalStep base) m ([], []) in
  Ok (cmdBuf ++ dataBuf).

(** [modules.size()]. *)
Definition modulesSize (m : list module.t) : result Z :=
  b <- marshalModules m 0 ;; Ok (len b).

(** [unicode.IsSpace] on the ASCII range. *)
Definition isSpace (c : ascii) : bool :=
  match nat_of_ascii c with
  | 9%nat | 10%nat | 11%nat | 12%nat | 13%nat | 32%nat => true
  | _ => false
  end.

(** The field being collected, closed. *)
Definition flushField (cur : list ascii) : list string :=
  match cur with
  | [] => []
  | _ => [string_of_list_ascii (rev cur)]
  end.

Fixpoint fieldsFrom (cur : list ascii) (s : string) : list string :=
  match s with
  | EmptyString => flushField cur
  | String c s' =>
      if isSpace c then flushField cur ++ fieldsFrom [] s'
      else fieldsFrom (c :: cur) s'
  end.

(** [strings.Fields(s)] for ASCII [s]: the maximal runs of characters that
    are not white space. *)
Definition Fields (s : string) : list string := fieldsFrom [] s.

(** [strings.Join(a, sep)]. *)
Definition Join (a : list string) (sep : string) : string := String.concat sep a.

(* ===================================================================== *)
(** * multiboot.go *)
(* ===================================================================== *)

Definition bootloader : string := "u-root kexec".

(** [type Multiboot struct]. *)
Module Multiboot.
Record t : Type := mk {
  mem : kexec.Memory;
  file : string;
  modules : list string;
  cmdLine : string;
  bootloader : string;
  trampoline : string;
  header : Header;
  InfoAddr : Z;       (* uintptr *)
  EntryPoint : Z;     (* uintptr *)
  KernelEntry : Z     (* uintptr *)
}.

Definition set_mem (v : kexec.Memory) (m : t) : t :=
  mk v (file m) (modules m) (cmdLine m) (bootloader m) (trampoline m)
     (header m) (InfoAddr m) (EntryPoint m) (KernelEntry m).

Definition set_EntryPoint (v : Z) (m : t) : t :=
  mk (mem m) (file m) (modules m) (cmdLine m) (bootloader m) (trampoline m)
     (header m) (InfoAddr m) v (KernelEntry m).

Definition set_KernelEntry (v : Z) (m : t) : t :=
  mk (mem m) (file m) (modules m) (cmdLine m) (bootloader m) (trampoline m)
     (header m) (InfoAddr m) (EntryPoint m) v.

Definition set_header (v : Header) (m : t) : t :=
  mk (mem m) (file m) (modules m) (cmdLine m) (bootloader m) (trampoline m)
     v (InfoAddr m) (EntryPoint m) (KernelEntry m).

Definition set_InfoAddr (v : Z) (m : t) : t :=
  mk (mem m) (file m) (modules m) (cmdLine m) (bootloader m) (trampoline m)
     (header m) v (EntryPoint m) (KernelEntry m).
End Multiboot.

(** [New(file, cmdLine, trampoline, modules)]. *)
Definition New (file cmdLine trampoline : string) (modules : list string)
  : Multiboot.t :=
  Multiboot.mk (kexec.mkMemory [] []) file modules cmdLine bootloader trampoline
               zeroHeader 0 0 0.

(** [var rangeTypes = map[kexec.RangeType]uint32{...}], as the lookup
    [typ, ok := rangeTypes[t]]. *)
Definition rangeTypes (t : kexec.RangeType) : option Z :=
  match t with
  | kexec.RangeRAM => Some 1
  | kexec.RangeDefault => Some 2
  | kexec.RangeNVACPI => Some 3
  | kexec.RangeACPI => Some 3
  | kexec.RangeNVS => Some 4
  | kexec.RangeOther _ => None
  end.

(** [type MemoryMap struct]. *)
Module MemoryMap.
Record t : Type := mk {
  Size : Z;        (* uint32 *)
  BaseAddr : Z;    (* uint64 *)
  Length : Z;      (* uint64 *)
  Type_ : Z        (* uint32 *)
}.

Definition binaryWrite (e : t) : list byte :=
  PutUint32 (Size e) ++ PutUint64 (BaseAddr e) ++ PutUint64 (Length e)
  ++ PutUint32 (Type_ e).
End MemoryMap.

(** [var sizeofMemoryMap = uint(binary.Size(MemoryMap{}))]. *)
Definition sizeofMemoryMap : Z :=
  len (MemoryMap.binaryWrite (MemoryMap.mk 0 0 0 0)).

(** [Multiboot.memoryMap()]. *)
Definition memoryMap (m : Multiboot.t) : list MemoryMap.t :=
  map (fun r =>
         let typ := match rangeTypes (kexec.Type_ r) with
                    | Some typ => typ
                    | None => 2          (* rangeTypes[kexec.RangeDefault] *)
                    end in
         MemoryMap.mk (u32 (u32 sizeofMemoryMap - 4))
                      (u64 (kexec.Start (kexec.Range_ r)))
                      (u64 (kexec.Size (kexec.Range_ r)))
                      typ)
      (kexec.Phys (Multiboot.mem m)).

(** [memoryMaps.marshal()]. *)
Definition marshalMemoryMaps (m : list MemoryMap.t) : list byte :=
  flat_map MemoryMap.binaryWrite m.

(** The body of the loop of [memoryBoundaries] on [(lower, upper)]. *)
Definition boundaryStep (acc : Z * Z) (r : kexec.PhysicalMemory) : Z * Z :=
  let '(lower, upper) := acc in
  let M1 := 1048576 in
  let K640 := 640 * 1024 in
  if negb (kexec.isRAM (kexec.Type_ r)) then (lower, upper)
  else
    let Start := kexec.Start (kexec.Range_ r) in
    let end_ := u32 (u32 Start + u32 (kexec.Size (kexec.Range_ r))) in
    let lower := if (Start <=? K640) && (lower <? end_) then end_ else lower in
    let upper := if (Start <=? M1) && (u32 (upper + M1) <? end_)
                 then u32 (end_ - M1) else upper in
    (lower, upper).

(** [Multiboot.memoryBoundaries()]. *)
Definition memoryBoundaries (m : Multiboot.t) : Z * Z :=
  fold_left boundaryStep (kexec.Phys (Multiboot.mem m)) (0, 0).

(** [func min(a, b uint32) uint32]. *)
Definition min (a b : Z) : Z := if a <? b then a else b.

Section WithHostMultiboot.
Context {host : Host}.

(** [readModule(name)]: the gunzipped content when the file is a gzip
    stream, its raw content otherwise. *)
Definition readModule (name : string) : result (list byte) :=
  match ReadFile name with
  | None => Err (ErrOpen name)
  | Some content =>
      match gunzip content with
      | Some b => Ok b
      | None => Ok content
      end
  end.

(** [Multiboot.addModule(name, args...)]; the receiver is returned with the
    memory the allocator left. *)
Definition addModule (m : Multiboot.t) (name : string) (args : list string)
  : result (module.t * Multiboot.t) :=
  data <- readModule name ;;
  if len data =? 0 then Err errEmptyModule
  else
    '(addr, mem) <- liftK (AddKexecSegment (Multiboot.mem m) data) ;;
    Ok (module.mk (u32 addr) (u32 (u32 (u32 addr + u32 (len data)) - 1))
                  (Join args " "),
        Multiboot.set_mem mem m).

(** The [for _, mod := range m.modules] loop of [addModules]: [modules] is
    the slice being appended to. *)
Fixpoint addModulesLoop (m : Multiboot.t) (modules : list module.t)
  (specs : list string) : result (list module.t * Multiboot.t) :=
  match specs with
  | [] => Ok (modules, m)
  | mod_ :: specs' =>
      let args := Fields mod_ in
      match args with
      | [] => Panic                       (* args[0]: index out of range *)
      | name :: rest =>
          match addModule m name rest with
          | Err errEmptyModule => addModulesLoop m modules specs'
          | Err e => Err e
          | Panic => Panic
          | Ok (md, m) => addModulesLoop m (modules ++ [md]) specs'
          end
      end
  end.

(** [Multiboot.addModules()]. *)
Definition addModules (m : Multiboot.t) : result (Z * Multiboot.t) :=
  '(modules, m) <- addModulesLoop m [] (Multiboot.modules m) ;;
  size <- modulesSize modules ;;
  '(addr, mem) <- liftK (FindSpace (Multiboot.mem m) size) ;;
  let m := Multiboot.set_mem mem m in
  d <- marshalModules modules addr ;;
  '(addr, mem) <- liftK (AddKexecSegment (Multiboot.mem m) d) ;;
  Ok (addr, Multiboot.set_mem mem m).

(** [Multiboot.addMmap()]. *)
Definition addMmap (m : Multiboot.t) : result (Z * Z * Multiboot.t) :=
  let mmap := memoryMap m in
  let d := marshalMemoryMaps mmap in
  '(addr, mem) <- liftK (AddKexecSegment (Multiboot.mem m) d) ;;
  Ok (addr, u64 (u64 (len mmap) * sizeofMemoryMap), Multiboot.set_mem mem m).

(** [Multiboot.newMultibootInfo()]. *)
Definition newMultibootInfo (m : Multiboot.t) : result (infoWrapper * Multiboot.t) :=
  '(mmapAddr, mmapSize, m) <- addMmap m ;;
  let info :=
    if negb (Z.land (Flags (Multiboot.header m)) flagHeaderMemoryInfo =? 0) then
      let '(lower, upper) := memoryBoundaries m in
      Info.mk (Z.lor flagInfoMemMap flagInfoMemory)
              (min (u32 (Z.shiftr lower 10)) 0xFFFFFFFF)
              (min (u32 (Z.shiftr upper 10)) 0xFFFFFFFF)
              0 0 0 0 (0, 0, 0, 0)
              (u32 mmapSize) (u32 mmapAddr)
              0 0 0 0 0 0 0 0 0 0 0 0 0 0 0 x00 x00 (x00, x00, x00, x00, x00, x00)
    else Info.zero in
  '(info, m) <-
    (if 0 <? len (Multiboot.modules m) then
       '(modAddr, m) <- addModules m ;;
       let info := Info.set_Flags (Z.lor (Info.Flags info) flagInfoMods) info in
       let info := Info.set_Mods (u32 (len (Multiboot.modules m))) (u32 modAddr) info in
       Ok (info, m)
     else Ok (info, m)) ;;
  let info := Info.set_CmdLine sizeofInfo info in
  let info := Info.set_BootLoaderName
                (u32 (u32 (sizeofInfo + u32 (slen (Multiboot.cmdLine m))) + 1)) info in
  let info := Info.set_Flags
                (Z.lor (Info.Flags info) (Z.lor flagInfoCmdLine flagInfoBootLoaderName))
                info in
  Ok (mkInfoWrapper info (Multiboot.cmdLine m) (Multiboot.bootloader m), m).

(** [Multiboot.addInfo()]. *)
Definition addInfo (m : Multiboot.t) : result (Z * Multiboot.t) :=
  '(iw, m) <- newMultibootInfo m ;;
  infoSize <- infoSize iw ;;
  '(addr, mem) <- liftK (FindSpace (Multiboot.mem m) infoSize) ;;
  let m := Multiboot.set_mem mem m in
  d <- marshal iw addr ;;
  '(addr, mem) <- liftK (AddKexecSegment (Multiboot.mem m) d) ;;
  Ok (addr, Multiboot.set_mem mem m).

(** [Multiboot.addTrampoline()]. *)
Definition addTrampoline (m : Multiboot.t) : result Multiboot.t :=
  d <- setupTrampoline (Multiboot.trampoline m) (Multiboot.InfoAddr m)
                       (Multiboot.KernelEntry m) ;;
  '(addr, mem) <- liftK (AddKexecSegment (Multiboot.mem m) d) ;;
  Ok (Multiboot.set_EntryPoint addr (Multiboot.set_mem mem m)).

(** [getEntryPoint(r)]. *)
Definition getEntryPoint (kernel : list byte) : result Z :=
  match elfEntry kernel with
  | None => Err ErrElf
  | Some entry => Ok (u64 entry)
  end.

(** [Multiboot.Load()]; the receiver as [Load] leaves it is returned.  The
    kernel file is read once and parsed from its start by each phase. *)
Definition Load (m : Multiboot.t) : result Multiboot.t :=
  match ReadFile (Multiboot.file m) with
  | None => Err (ErrOpen (Multiboot.file m))
  | Some kernel =>
      entry <- context "Error getting kernel entry point" (getEntryPoint kernel) ;;
      let m := Multiboot.set_KernelEntry entry m in
      hdr <- context "Error parsing headers"
               (match parseHeader kernel with
                | (hdr, None) => Ok hdr
                | (_, Some e) => Err e
                end) ;;
      let m := Multiboot.set_header hdr m in
      mem <- context "Error loading ELF segments"
               (liftK (LoadElfSegments (Multiboot.mem m) kernel)) ;;
      let m := Multiboot.set_mem mem m in
      mem <- context "Error parsing memory map"
               (liftK (ParseMemoryMap (Multiboot.mem m))) ;;
      let m := Multiboot.set_mem mem m in
      '(addr, m) <- context "Error preparing Multiboot Info" (addInfo m) ;;
      let m := Multiboot.set_InfoAddr addr m in
      m <- context "Error adding trampoline" (addTrampoline m) ;;
      Ok m
  end.

End WithHostMultiboot.


Section WithHostProbe.
Context {host : Host}.

(** [Probe(file)]: the error it returns, [None] for [nil]. *)
Definition Probe (file : string) : option error :=
  match ReadFile file with
  | None => Some (ErrOpen file)
  | Some content => snd (parseHeader content)
  end.

End WithHostProbe.

(** [Multiboot.Segments()]. *)
Definition Segments (m : Multiboot.t) : list kexec.Segment :=
  kexec.Segments (Multiboot.mem m).

(* ===================================================================== *)
(** * Vocabulary of the properties, and fixtures *)
(* ===================================================================== *)

Module HeaderSpec.

(** The bytes [parseHeader] looks at: what one read of at most 8192 bytes
    delivers. *)
Definition seen (input : list byte) : list byte := firstn headerSearch input.

(** The three mandatory words found at [off] validate. *)
Definition validAt (b : list byte) (off : nat) : bool :=
  (Uint32At b off =? headerMagic)
  && (u32 (Uint32At b off + Uint32At b (off + 4) + Uint32At b (off + 8)) =? 0).

(** The twelve header words found at [off], bytes beyond the end read as
    zero. *)
Definition headerAt (b : list byte) (off : nat) : Header :=
  readHeader (skipn off b).

(** The error [parseHeader] attaches to an accepted header. *)
Definition flagsVerdict (hdr : Header) : option error :=
  if Z.land (Flags hdr) flagHeaderUnsupported =? 0 then None
  else Some ErrFlagsNotSupported.

(** The mandatory words of a header with the given flags. *)
Definition validWords (flags : Z) : list byte :=
  PutUint32 headerMagic ++ PutUint32 flags ++ PutUint32 (u32 (- (headerMagic + flags))).

(** Sixteen arbitrary bytes, the mandatory words with [flags = 0], zeros. *)
Definition kernel16 : list byte :=
  repeat xa5 16 ++ validWords 0 ++ repeat x00 36.

(** The offset [8192 - 44]. *)
Definition edgeOffset : nat := (headerSearch - 44)%nat.

(** A header at that offset: its last word lies beyond the 8192 bytes
    read. *)
Definition kernelEdge : list byte :=
  repeat x00 edgeOffset ++ validWords 0 ++ repeat x00 32 ++ PutUint32 32.

End HeaderSpec.
Import HeaderSpec.

Module SubSpec.
Import kexec.

(** Byte address [b] lies in some range of [rs]. *)
Definition covered (rs : list Range) (b : Z) : Prop :=
  Exists (fun r => contains r b) rs.

(** The ranges of a typed list. *)
Definition ranges (ps : list PhysicalMemory) : list Range := map Range_ ps.

(** [gs] is a list of ranges of positive size inside [[lo, hi)], in
    ascending order, any two neighbours at least one byte apart. *)
Fixpoint chain (lo hi : Z) (gs : list Range) : Prop :=
  match gs with
  | [] => True
  | g :: gs' =>
      lo <= Start g /\ 0 < Size g /\ rangeEnd g <= hi
      /\ chain (rangeEnd g + 1) hi gs'
  end.

(** Every range of the list has a byte. *)
Definition positive (ps : list PhysicalMemory) : Prop :=
  Forall (fun p => 0 < Size (Range_ p)) ps.

(** The fixture of [TestMemorySub]. *)
Definition testMemory : Memory :=
  mkMemory
    [ mkPhys (mkRange 0 100) RangeRAM; mkPhys (mkRange 200 100) RangeRAM;
      mkPhys (mkRange 400 100) RangeRAM; mkPhys (mkRange 600 100) RangeRAM ]
    [ mkSegment [] (mkRange 0 50); mkSegment [] (mkRange 100 100);
      mkSegment [] (mkRange 250 50); mkSegment [] (mkRange 410 80);
      mkSegment [] (mkRange 599 102) ].

(** A universe whose only range has no byte. *)
Definition emptyUniverse : list PhysicalMemory := [mkPhys (mkRange 0 0) RangeRAM].

End SubSpec.
Import SubSpec.

Module InfoSpec.

(** Byte offsets of three fields in the marshalled [Info]. *)
Definition offsetFlags : nat := 0.
Definition offsetCmdLine : nat := 16.
Definition offsetBootLoaderName : nat := 64.

(** The bytes of [s] followed by a zero byte stand at offset [off] of [d]. *)
Definition stringAt (d : list byte) (off : Z) (s : string) : Prop :=
  0 <= off /\
  firstn (String.length s + 1) (skipn (Z.to_nat off) d) = bytesOf s ++ [x00].

(** Every bit of [flag] is set in [flags]. *)
Definition hasFlag (flags flag : Z) : Prop := Z.land flags flag = flag.

End InfoSpec.
Import InfoSpec.


Module TrampolineSpec.

(** [label] stands in [d] at index [i]. *)
Definition occursAt (d label : list byte) (i : nat) : Prop :=
  firstn (List.length label) (skipn i d) = label.

(** [i] is the first index at which [label] stands in [d]. *)
Definition firstAt (d label : list byte) (i : nat) : Prop :=
  occursAt d label i /\ forall j, (j < i)%nat -> ~ occursAt d label j.

(** [label] stands nowhere in [d]. *)
Definition absent (d label : list byte) : Prop := forall i, ~ occursAt d label i.

Definition ebxLabel : list byte := bytesOf TrampolineEBX.
Definition epLabel : list byte := bytesOf TrampolineEP.

(** The index range of the field that follows a label standing at [i]. *)
Definition inField (i labelLen width k : nat) : Prop :=
  (i + labelLen <= k < i + labelLen + width)%nat.

(** The two labels one after the other, then eight zero bytes: the four
    bytes after the first label are the start of the second. *)
Definition adjacentLabels : list byte :=
  ebxLabel ++ epLabel ++ repeat x00 8.

(** The first label, then the tail of the second where its field is. *)
Definition completedLabel : list byte :=
  ebxLabel ++ repeat x00 4 ++ bytesOf "ot-ep-quad" ++ repeat x00 8.

End TrampolineSpec.
Import TrampolineSpec.

Module ModuleSpec.

(** The command lines of the modules, each closed by a zero byte: the first
    part of the marshalled modules block. *)
Definition cmdBytes (ms : list module.t) : list byte :=
  flat_map (fun md => bytesOf (module.cmdLine md) ++ [x00]) ms.

(** The descriptors of the modules, 16 bytes each: the second part of the
    block.  [acc] is the length of the command lines that precede. *)
Fixpoint descBytes (base acc : Z) (ms : list module.t) : list byte :=
  match ms with
  | [] => []
  | md :: ms' =>
      ModuleDescriptor.binaryWrite
        (ModuleDescriptor.mk (module.start md) (module.end_ md)
                             (u32 (u32 base + u32 acc)) 0)
      ++ descBytes base (acc + (slen (module.cmdLine md) + 1)) ms'
  end.


(** The file named by the first token of [spec] reads as zero bytes. *)
Definition emptyFile {host : Host} (spec : string) : bool :=
  match Fields spec with
  | name :: _ =>
      match readModule name with
      | Ok [] => true
      | _ => false
      end
  | [] => false
  end.

(** [m'] is [m] with another memory. *)
Definition sameBoot (m m' : Multiboot.t) : Prop :=
  m' = Multiboot.set_mem (Multiboot.mem m') m.

End ModuleSpec.
Import ModuleSpec.

Module MemorySpec.

(** A RAM range whose start is at most [limit]. *)
Definition ramFrom (limit : Z) (r : kexec.PhysicalMemory) : bool :=
  kexec.isRAM (kexec.Type_ r) && (kexec.Start (kexec.Range_ r) <=? limit).

(** The maximum, over the RAM ranges whose start is at most 640 KiB, of the
    range end (0 when there is none). *)
Definition lowerBound (phys : list kexec.PhysicalMemory) : Z :=
  fold_right Z.max 0
    (map (fun r => kexec.rangeEnd (kexec.Range_ r)) (filter (ramFrom (640 * 1024)) phys)).

(** The maximum, over the RAM ranges whose start is at most 1 MiB, of the
    range end less 1 MiB (0 when there is none). *)
Definition upperBound (phys : list kexec.PhysicalMemory) : Z :=
  fold_right Z.max 0
    (map (fun r => kexec.rangeEnd (kexec.Range_ r) - 1048576) (filter (ramFrom 1048576) phys)).

(** A RAM range that ends below 4 GiB. *)
Definition below4G (r : kexec.PhysicalMemory) : Prop :=
  kexec.isRAM (kexec.Type_ r) = true ->
  0 <= kexec.Start (kexec.Range_ r)
  /\ 0 <= kexec.Size (kexec.Range_ r)
  /\ kexec.rangeEnd (kexec.Range_ r) < 2 ^ 32.

(** Bytes to KiB, saturating at [2^32 - 1]. *)
Definition toKiB (x : Z) : Z := Z.min (x / 1024) (2 ^ 32 - 1).

(** 639 KiB of low memory and one RAM range from 1 MiB to 5 GiB. *)
Definition bigPhys : list kexec.PhysicalMemory :=
  [ kexec.mkPhys (kexec.mkRange 0 0x9fc00) kexec.RangeRAM;
    kexec.mkPhys (kexec.mkRange 0x100000 0x13ff00000) kexec.RangeRAM ].

End MemorySpec.
Import MemorySpec.

(** A small host for examples: three files, no gzip streams, and an
    allocator that hands out one page after the other from 1 MiB. *)
Module Fixture.

Definition files (path : string) : option (list byte) :=
  if (path =? "initrd")%string then Some (bytesOf "initrd-data")
  else if (path =? "empty")%string then Some []
  else if (path =? "kernel")%string then Some (validWords flagHeaderMemoryInfo)
  else if (path =? "trampoline")%string then
    Some (bytesOf "code" ++ bytesOf TrampolineEBX ++ repeat x00 4
          ++ bytesOf "PAD" ++ bytesOf TrampolineEP ++ repeat x00 8 ++ bytesOf "tail")
  else None.

Definition nextPage (base : Z) (mem : kexec.Memory) : Z :=
  base + 0x1000 * len (kexec.Segments mem).

(** A machine with 639 KiB of low memory and 127 MiB from 1 MiB. *)
Definition demoPhys : list kexec.PhysicalMemory :=
  [ kexec.mkPhys (kexec.mkRange 0 0x9fc00) kexec.RangeRAM;
    kexec.mkPhys (kexec.mkRange 0x9fc00 0x400) kexec.RangeDefault;
    kexec.mkPhys (kexec.mkRange 0x100000 0x7f00000) kexec.RangeRAM ].

(** The host that serves [files] and allocates from [base] upwards. *)
Definition hostOf (files : string -> option (list byte)) (base : Z) : Host := {|
  ReadFile := files;
  gunzip := fun _ => None;
  FindSpace := fun mem _ => inr (nextPage base mem, mem);
  AddKexecSegment := fun mem d =>
    inr (nextPage base mem,
         kexec.mkMemory (kexec.Phys mem)
           (kexec.Segments mem
            ++ [kexec.mkSegment d (kexec.mkRange (nextPage base mem) (len d))]));
  LoadElfSegments := fun mem _ => inr mem;
  ParseMemoryMap := fun mem => inr (kexec.mkMemory demoPhys (kexec.Segments mem));
  elfEntry := fun _ => Some 0x100000
|}.

Definition demoHost : Host := hostOf files 0x100000.

(** [New("kernel", cmdLine, "trampoline", modules)] after the header and the
    memory map [phys] have been read. *)
Definition bootWith (phys : list kexec.PhysicalMemory) (cmdLine : string)
    (modules : list string) : Multiboot.t :=
  Multiboot.mk (kexec.mkMemory phys []) "kernel" modules cmdLine bootloader
               "trampoline" (readHeader (validWords flagHeaderMemoryInfo)) 0 0 0.

Definition demoBoot : string -> list string -> Multiboot.t := bootWith demoPhys.

End Fixture.

Module ExtraSpec.

(** [binary.LittleEndian.Uint64(b[off:])]. *)
Definition Uint64At (b : list byte) (off : nat) : Z :=
  Uint32At b off + Z.shiftl (Uint32At b (off + 4)) 32.

(** The code [memoryMap] gives a range type. *)
Definition typeCode (t : kexec.RangeType) : Z :=
  match rangeTypes t with
  | Some typ => typ
  | None => 2
  end.


(** The command line [addModule] records for a spec: its tokens after the
    first, joined by single spaces. *)
Definition specCmdLine (spec : string) : string := Join (tl (Fields spec)) " ".

(** The messages [Load] puts before the error of a phase. *)
Definition loadPhases : list string :=
  [ "Error getting kernel entry point"; "Error parsing headers";
    "Error loading ELF segments"; "Error parsing memory map";
    "Error preparing Multiboot Info"; "Error adding trampoline" ]%string.

(** The flags word [newMultibootInfo] builds. *)
Definition infoFlags (memoryInfo mods : bool) : Z :=
  Z.lor (Z.lor (if memoryInfo then Z.lor flagInfoMemMap flagInfoMemory else 0)
               (if mods then flagInfoMods else 0))
        (Z.lor flagInfoCmdLine flagInfoBootLoaderName).

(** The end of a range as [memoryBoundaries] computes it: in [uint32]. *)
Definition end32 (r : kexec.PhysicalMemory) : Z :=
  u32 (kexec.Start (kexec.Range_ r) + kexec.Size (kexec.Range_ r)).

(** The maximum, over the RAM ranges whose start is at most 640 KiB, of the
    32-bit range end (0 when there is none). *)
Definition lower32 (phys : list kexec.PhysicalMemory) : Z :=
  fold_right Z.max 0 (map end32 (filter (ramFrom (640 * 1024)) phys)).

(** The maximum, over the RAM ranges whose start is at most 1 MiB, of the
    32-bit range end less 1 MiB (0 when there is none). *)
Definition upper32 (phys : list kexec.PhysicalMemory) : Z :=
  fold_right Z.max 0
    (map (fun r => end32 r - 1048576) (filter (ramFrom 1048576) phys)).

End ExtraSpec.
Import ExtraSpec.

(* ===================================================================== *)
(** * Properties of the header parser *)
(* ===================================================================== *)

Section HeaderScan.

Lemma byteAt_skipn k b i : byteAt (skipn k b) i = byteAt b (k + i).
Proof. unfold byteAt. now rewrite nth_skipn. Qed.

Lemma Uint32At_skipn k b i : Uint32At (skipn k b) i = Uint32At b (k + i).
Proof.
  unfold Uint32At. rewrite !byteAt_skipn.
  now rewrite !Nat.add_assoc.
Qed.

Lemma byteAt_app_zeros b k i : byteAt (b ++ repeat x00 k) i = byteAt b i.
Proof.
  unfold byteAt. destruct (Nat.lt_ge_cases i (List.length b)) as [Hlt | Hge].
  - now rewrite app_nth1.
  - rewrite app_nth2 by exact Hge. rewrite nth_repeat.
    now rewrite (nth_overflow b x00 Hge).
Qed.

Lemma Uint32At_app_zeros b k i :
  Uint32At (b ++ repeat x00 k) i = Uint32At b i.
Proof. unfold Uint32At. now rewrite !byteAt_app_zeros. Qed.

Lemma byteAt_firstn n b i : (i < n)%nat -> byteAt (firstn n b) i = byteAt b i.
Proof. intros H. unfold byteAt. now rewrite nth_firstn, (proj2 (Nat.ltb_lt _ _) H). Qed.

Lemma Uint32At_firstn n b i :
  (i + 4 <= n)%nat -> Uint32At (firstn n b) i = Uint32At b i.
Proof. intros H. unfold Uint32At. rewrite !byteAt_firstn by lia. reflexivity. Qed.

Lemma headerAt_app_zeros b k off :
  headerAt (b ++ repeat x00 k) off = headerAt b off.
Proof.
  unfold headerAt, readHeader. rewrite !Uint32At_skipn.
  now rewrite !Uint32At_app_zeros.
Qed.

Lemma acceptable_headerAt b off : acceptable (headerAt b off) = validAt b off.
Proof.
  unfold acceptable, validAt, headerAt, readHeader; cbn [Magic Flags Checksum].
  rewrite !Uint32At_skipn. now rewrite Nat.add_0_r.
Qed.

(** One unfolding of the loop. *)
Lemma scanHeader_eq hdr buf :
  scanHeader hdr buf =
  if (sizeofHeader <=? List.length buf)%nat then
    if acceptable (readHeader buf) then (readHeader buf, flagsVerdict (readHeader buf))
    else scanHeader (readHeader buf) (skipn 4 buf)
  else (hdr, Some ErrHeaderNotFound).
Proof.
  destruct (sizeofHeader <=? List.length buf)%nat eqn:Hlen.
  - destruct buf as [|b0 [|b1 [|b2 [|b3 rest]]]];
      try (apply Nat.leb_le in Hlen; cbn in Hlen; lia).
    cbn [scanHeader skipn]. rewrite Hlen. unfold flagsVerdict.
    destruct (acceptable _); [|reflexivity].
    now destruct (Z.land _ _ =? 0).
  - destruct buf; cbn [scanHeader]; now rewrite Hlen.
Qed.

(** The loop stops at the first candidate that validates. *)
Lemma scanHeader_first k : forall hdr buf,
  (4 * k + sizeofHeader <= List.length buf)%nat ->
  validAt buf (4 * k) = true ->
  (forall j, (j < k)%nat -> validAt buf (4 * j) = false) ->
  scanHeader hdr buf = (headerAt buf (4 * k), flagsVerdict (headerAt buf (4 * k))).
Proof.
  induction k as [|k IH]; intros hdr buf Hlen Hok Hearlier.
  - rewrite Nat.mul_0_r in *. rewrite scanHeader_eq.
    rewrite (proj2 (Nat.leb_le _ _)) by lia.
    change (readHeader buf) with (headerAt buf 0).
    now rewrite acceptable_headerAt, Hok.
  - rewrite scanHeader_eq.
    rewrite (proj2 (Nat.leb_le _ _)) by lia.
    change (readHeader buf) with (headerAt buf 0).
    rewrite acceptable_headerAt.
    rewrite (Hearlier 0%nat (Nat.lt_0_succ k) : validAt buf 0 = false).
    rewrite (IH _ (skipn 4 buf)).
    + unfold headerAt. rewrite skipn_skipn.
      now replace (4 * k + 4)%nat with (4 * S k)%nat by lia.
    + rewrite length_skipn. lia.
    + rewrite <- acceptable_headerAt. unfold headerAt. rewrite skipn_skipn.
      replace (4 * k + 4)%nat with (4 * S k)%nat by lia.
      fold (headerAt buf (4 * S k)). now rewrite acceptable_headerAt.
    + intros j Hj. rewrite <- acceptable_headerAt. unfold headerAt.
      rewrite skipn_skipn. replace (4 * j + 4)%nat with (4 * S j)%nat by lia.
      fold (headerAt buf (4 * S j)). rewrite acceptable_headerAt.
      apply Hearlier. lia.
Qed.

(** The loop reports [ErrHeaderNotFound] exactly when no candidate it can
    reach validates. *)
Lemma scanHeader_none : forall n hdr buf,
  (List.length buf <= n)%nat ->
  (snd (scanHeader hdr buf) = Some ErrHeaderNotFound <->
   forall k, (4 * k + sizeofHeader <= List.length buf)%nat ->
             validAt buf (4 * k) = false).
Proof.
  induction n as [n IH] using (well_founded_induction lt_wf).
  intros hdr buf Hn. rewrite scanHeader_eq.
  destruct (sizeofHeader <=? List.length buf)%nat eqn:Hlen.
  - apply Nat.leb_le in Hlen.
    change (readHeader buf) with (headerAt buf 0).
    rewrite acceptable_headerAt.
    assert (Hshift : forall k, validAt (skipn 4 buf) (4 * k) = validAt buf (4 * S k)).
    { intros k. rewrite <- !acceptable_headerAt. unfold headerAt.
      rewrite skipn_skipn. now replace (4 * k + 4)%nat with (4 * S k)%nat by lia. }
    destruct (validAt buf 0) eqn:H0.
    + split.
      * unfold flagsVerdict. cbn [snd]. destruct (Z.land _ _ =? 0); discriminate.
      * intros H. specialize (H 0%nat). rewrite Nat.mul_0_r in H.
        rewrite H0 in H. discriminate H. exact Hlen.
    + unfold sizeofHeader, mandatorySize, optionalSize in Hlen.
      rewrite (IH (List.length (skipn 4 buf))).
      * split.
        -- intros H [|k] Hk; [exact H0|].
           rewrite <- Hshift. apply H. rewrite length_skipn. lia.
        -- intros H k Hk. rewrite Hshift. apply H.
           rewrite length_skipn in Hk. lia.
      * rewrite length_skipn. lia.
      * lia.
  - apply Nat.leb_gt in Hlen. split; [|reflexivity].
    intros _ k Hk. lia.
Qed.

End HeaderScan.

Lemma headerSearch_ge : (sizeofHeader <= headerSearch)%nat.
Proof. unfold headerSearch, sizeofHeader, mandatorySize, optionalSize. lia. Qed.

(** What [parseHeader] hands to the loop once the read has succeeded. *)
Lemma parseHeader_read input :
  (mandatorySize <= List.length input)%nat ->
  parseHeader input =
  scanHeader zeroHeader (seen input ++ repeat x00 optionalSize).
Proof.
  intros Hlen. unfold parseHeader, ReadAtLeast.
  pose proof headerSearch_ge as Hw.
  unfold sizeofHeader, mandatorySize, optionalSize in *.
  rewrite (proj2 (Nat.leb_le _ _)) by lia.
  unfold seen. f_equal. f_equal.
  destruct (Nat.le_ge_cases headerSearch (List.length input)) as [H | H].
  - now rewrite Nat.min_l.
  - rewrite Nat.min_r by exact H. now rewrite !firstn_all2.
Qed.

Lemma validAt_buffer input off :
  (off + mandatorySize <= Nat.min headerSearch (List.length input))%nat ->
  validAt (seen input ++ repeat x00 optionalSize) off = validAt input off.
Proof.
  unfold mandatorySize. intros H. unfold validAt, seen.
  rewrite !Uint32At_app_zeros, !Uint32At_firstn by lia. reflexivity.
Qed.

Lemma headerAt_seen input off :
  (off + sizeofHeader <= Nat.min headerSearch (List.length input))%nat ->
  headerAt (seen input) off = headerAt input off.
Proof.
  unfold sizeofHeader, mandatorySize, optionalSize. intros H.
  unfold headerAt, readHeader, seen. rewrite !Uint32At_skipn.
  rewrite !Uint32At_firstn by lia. reflexivity.
Qed.

Lemma aligned_quot off : (off mod 4 = 0)%nat -> (off = 4 * (off / 4))%nat.
Proof. intros H. pose proof (Nat.div_mod_eq off 4). lia. Qed.

(** ** Scenarios of the design document *)





Example parseHeader_kernel16 :
  snd (parseHeader kernel16) = None /\ Flags (fst (parseHeader kernel16)) = 0.
Proof. vm_compute. split; reflexivity. Qed.

Example parseHeader_video_flag :
  snd (parseHeader (repeat xa5 16 ++ validWords 4 ++ repeat x00 36))
  = Some ErrFlagsNotSupported.
Proof. vm_compute. reflexivity. Qed.

Example parseHeader_shifted :
  forall shift, In shift [1; 2; 3]%nat ->
  snd (parseHeader (repeat xa5 (16 + shift) ++ validWords 0 ++ repeat x00 36))
  = Some ErrHeaderNotFound.
Proof.
  intros shift [<- | [<- | [<- | []]]]; vm_compute; reflexivity.
Qed.



Lemma validAt_zero_prefix k tail off :
  (off + 4 <= k)%nat -> validAt (repeat x00 k ++ tail) off = false.
Proof.
  intros H. unfold validAt.
  assert (Hz : Uint32At (repeat x00 k ++ tail) off = 0).
  { unfold Uint32At, byteAt. rewrite !app_nth1 by (rewrite repeat_length; lia).
    rewrite !nth_repeat. reflexivity. }
  rewrite Hz. reflexivity.
Qed.

(** C1, as stated, fails twice.  On an empty image no candidate validates,
    yet the error is [io.EOF], not [ErrHeaderNotFound].  And a valid header
    at the aligned offset [8192 - 44], with no earlier candidate, is not
    returned as it stands in the image: its last word is read as zero. *)
Lemma parseHeader_not_as_stated :
  ((forall off, validAt [] off = false)
   /\ parseHeader [] = (zeroHeader, Some io_EOF))
  /\ ((edgeOffset mod 4 = 0)%nat
      /\ validAt kernelEdge edgeOffset = true
      /\ (forall o, (o mod 4 = 0)%nat -> (o < edgeOffset)%nat -> validAt kernelEdge o = false)
      /\ Depth (headerAt kernelEdge edgeOffset) = 32
      /\ snd (parseHeader kernelEdge) = None
      /\ Depth (fst (parseHeader kernelEdge)) = 0).
Proof.
  split; [split|].
  - intros off. unfold validAt, Uint32At, byteAt.
    rewrite !(nth_overflow []) by (cbn; lia). reflexivity.
  - reflexivity.
  - split; [reflexivity|]. split; [vm_compute; reflexivity|].
    split.
    { intros o Hmod Hlt. apply validAt_zero_prefix.
      pose proof (aligned_quot o Hmod).
      unfold edgeOffset, headerSearch in *. lia. }
    split; [vm_compute; reflexivity|].
    split; vm_compute; reflexivity.
Qed.

(** C1 (amended).  [parseHeader] reads at most 8192 bytes and fails with the
    read error when fewer than 12 arrive.  Otherwise it tries the offsets
    that are multiples of 4 and leave room for the three mandatory words
    within the bytes read; a candidate is accepted iff its first word is
    [0x1BADB002] and its three mandatory words sum to 0 modulo 2^32.  The
    first accepted candidate is returned, decoded from the bytes read with
    zeros beyond them (so it is the header as it stands in the image when
    its 48 bytes lie within the bytes read), with [ErrFlagsNotSupported]
    when its flags meet [0x0000FFFC] and no error otherwise.  With at least
    12 bytes the error is [ErrHeaderNotFound] iff no such candidate
    validates. *)
Theorem parseHeader_scan (input : list byte) :
  let n := Nat.min headerSearch (List.length input) in
  ((List.length input < mandatorySize)%nat ->
     parseHeader input =
     (zeroHeader,
      Some (if (List.length input =? 0)%nat then io_EOF else io_ErrUnexpectedEOF)))
  /\ (forall off,
        (off mod 4 = 0)%nat ->
        (off + mandatorySize <= n)%nat ->
        validAt input off = true ->
        (forall o, (o mod 4 = 0)%nat -> (o < off)%nat -> validAt input o = false) ->
        parseHeader input
        = (headerAt (seen input) off, flagsVerdict (headerAt (seen input) off))
        /\ ((off + sizeofHeader <= n)%nat ->
            headerAt (seen input) off = headerAt input off))
  /\ ((mandatorySize <= List.length input)%nat ->
      (snd (parseHeader input) = Some ErrHeaderNotFound <->
       forall off, (off mod 4 = 0)%nat -> (off + mandatorySize <= n)%nat ->
                   validAt input off = false)).
Proof.
  intros n. pose proof headerSearch_ge as Hw.
  assert (Hbuf : List.length (seen input ++ repeat x00 optionalSize)
                 = (n + optionalSize)%nat).
  { unfold seen. now rewrite length_app, length_firstn, repeat_length. }
  split; [|split].
  - intros Hshort. unfold parseHeader, ReadAtLeast.
    unfold sizeofHeader, mandatorySize, optionalSize in *.
    rewrite (proj2 (Nat.leb_gt _ _)) by lia.
    rewrite Nat.min_r by lia.
    now destruct (List.length input =? 0)%nat.
  - intros off Hal Hin Hok Hearlier.
    split; [|apply headerAt_seen].
    assert (Hlen : (mandatorySize <= List.length input)%nat) by lia.
    rewrite parseHeader_read by exact Hlen.
    rewrite (aligned_quot off Hal) in *.
    rewrite (scanHeader_first (off / 4)).
    + now rewrite headerAt_app_zeros.
    + rewrite Hbuf. unfold sizeofHeader. lia.
    + now rewrite validAt_buffer.
    + intros j Hj. rewrite validAt_buffer by lia.
      apply Hearlier; [|lia].
      rewrite Nat.mul_comm. apply Nat.Div0.mod_mul.
  - intros Hlen. rewrite parseHeader_read by exact Hlen.
    rewrite (scanHeader_none _ _ _ (Nat.le_refl _)). rewrite Hbuf.
    unfold sizeofHeader. split.
    + intros H off Hal Hin. rewrite (aligned_quot off Hal) in *.
      rewrite <- validAt_buffer by exact Hin. apply H. lia.
    + intros H k Hk. rewrite validAt_buffer by lia.
      apply H; [|lia]. rewrite Nat.mul_comm. apply Nat.Div0.mod_mul.
Qed.

Lemma parseHeader_scan_witness :
  parseHeader kernel16 = (headerAt (seen kernel16) 16, None).
Proof.
  destruct (parseHeader_scan kernel16) as (_ & Hfound & _).
  destruct (Hfound 16%nat) as [Hparse _].
  - reflexivity.
  - vm_compute. lia.
  - vm_compute. reflexivity.
  - intros o Hmod Hlt.
    assert (Ho : (o = 0 \/ o = 4 \/ o = 8 \/ o = 12)%nat).
    { pose proof (aligned_quot o Hmod). lia. }
    destruct Ho as [-> | [-> | [-> | ->]]]; vm_compute; reflexivity.
  - rewrite Hparse. f_equal.
Defined.

(* ===================================================================== *)
(** * Little-endian encoding *)
(* ===================================================================== *)

Section ByteOrder.

Lemma byte_to_Z_range b : 0 <= byte_to_Z b < 256.
Proof.
  unfold byte_to_Z. pose proof (Byte.to_N_bounded b). lia.
Qed.

Lemma byte_to_Z_to_byte z : byte_to_Z (Z_to_byte z) = z mod 256.
Proof.
  unfold Z_to_byte, byte_to_Z.
  pose proof (Z.mod_pos_bound z 256 eq_refl) as Hr.
  pose proof (Byte.to_of_N_option_map (Z.to_N (z mod 256))) as Hopt.
  destruct (Byte.of_N (Z.to_N (z mod 256))) as [b|] eqn:Hb; cbn in Hopt.
  - apply Byte.to_of_N in Hb. rewrite Hb. lia.
  - destruct (N.leb_spec (Z.to_N (z mod 256)) 255); [discriminate | lia].
Qed.

Lemma Z_to_byte_to_Z b : Z_to_byte (byte_to_Z b) = b.
Proof.
  unfold Z_to_byte. rewrite Z.mod_small by apply byte_to_Z_range.
  unfold byte_to_Z. now rewrite N2Z.id, Byte.of_to_N.
Qed.

Lemma byteAt_app_r pre b i : byteAt (pre ++ b) (List.length pre + i) = byteAt b i.
Proof.
  unfold byteAt. rewrite app_nth2 by lia. f_equal. f_equal. lia.
Qed.

Lemma byteAt_app_l b rest i : (i < List.length b)%nat -> byteAt (b ++ rest) i = byteAt b i.
Proof. intros H. unfold byteAt. now rewrite app_nth1. Qed.

Lemma Uint32At_app_r pre b i :
  Uint32At (pre ++ b) (List.length pre + i) = Uint32At b i.
Proof.
  unfold Uint32At. rewrite <- !Nat.add_assoc, !byteAt_app_r. reflexivity.
Qed.

Lemma Uint32At_app_l b rest i :
  (i + 4 <= List.length b)%nat -> Uint32At (b ++ rest) i = Uint32At b i.
Proof. intros H. unfold Uint32At. rewrite !byteAt_app_l by lia. reflexivity. Qed.

Lemma base256_digits v :
  v mod 256 + (v / 2 ^ 8) mod 256 * 2 ^ 8 + (v / 2 ^ 16) mod 256 * 2 ^ 16
  + (v / 2 ^ 24) mod 256 * 2 ^ 24 = v mod 2 ^ 32.
Proof.
  replace (v / 2 ^ 16) with (v / 2 ^ 8 / 2 ^ 8)
    by (rewrite Z.div_div by lia; reflexivity).
  replace (v / 2 ^ 24) with (v / 2 ^ 8 / 2 ^ 8 / 2 ^ 8)
    by (rewrite !Z.div_div by lia; reflexivity).
  change (2 ^ 8) with 256.
  pose proof (Z.div_mod v 256 ltac:(lia)).
  pose proof (Z.div_mod (v / 256) 256 ltac:(lia)).
  pose proof (Z.div_mod (v / 256 / 256) 256 ltac:(lia)).
  pose proof (Z.div_mod (v / 256 / 256 / 256) 256 ltac:(lia)).
  pose proof (Z.mod_pos_bound v 256 ltac:(lia)).
  pose proof (Z.mod_pos_bound (v / 256) 256 ltac:(lia)).
  pose proof (Z.mod_pos_bound (v / 256 / 256) 256 ltac:(lia)).
  pose proof (Z.mod_pos_bound (v / 256 / 256 / 256) 256 ltac:(lia)).
  apply (Z.mod_unique v (2 ^ 32) (v / 256 / 256 / 256 / 256)); lia.
Qed.

(** Reading back what [PutUint32] wrote gives the value as a [uint32]. *)
Lemma Uint32At_PutUint32 v : Uint32At (PutUint32 v) 0 = u32 v.
Proof.
  unfold Uint32At, PutUint32, byteAt, u32. cbn [nth Nat.add].
  rewrite !byte_to_Z_to_byte, !Z.shiftr_div_pow2, !Z.shiftl_mul_pow2 by lia.
  apply base256_digits.
Qed.

Lemma Uint32At_PutUint32_in pre v rest :
  Uint32At (pre ++ PutUint32 v ++ rest) (List.length pre) = u32 v.
Proof.
  rewrite <- (Nat.add_0_r (List.length pre)), Uint32At_app_r.
  rewrite Uint32At_app_l by (cbn; lia). apply Uint32At_PutUint32.
Qed.

Lemma PutUint32_length v : List.length (PutUint32 v) = 4%nat.
Proof. reflexivity. Qed.

Lemma PutUint64_length v : List.length (PutUint64 v) = 8%nat.
Proof. reflexivity. Qed.

Lemma u32_range z : 0 <= u32 z < 2 ^ 32.
Proof. unfold u32. apply Z.mod_pos_bound. reflexivity. Qed.

Lemma u32_small z : 0 <= z < 2 ^ 32 -> u32 z = z.
Proof. intros H. unfold u32. now apply Z.mod_small. Qed.

Lemma u32_idem z : u32 (u32 z) = u32 z.
Proof. unfold u32. apply Z.mod_mod. lia. Qed.

Lemma u32_add_l a b : u32 (u32 a + b) = u32 (a + b).
Proof. unfold u32. now rewrite Zplus_mod_idemp_l. Qed.

Lemma u32_add_r a b : u32 (a + u32 b) = u32 (a + b).
Proof. unfold u32. now rewrite Zplus_mod_idemp_r. Qed.

Lemma bytesOf_length s : List.length (bytesOf s) = String.length s.
Proof.
  unfold bytesOf, list_byte_of_string. rewrite length_map.
  induction s as [|c s IH]; cbn; [reflexivity | now rewrite IH].
Qed.

End ByteOrder.

(* ===================================================================== *)
(** * Properties of the info block *)
(* ===================================================================== *)

Section InfoBlock.

Lemma binaryWrite_length i : List.length (Info.binaryWrite i) = 108%nat.
Proof.
  destruct i as [? ? ? ? ? ? ? [[[? ?] ?] ?] ? ? ? ? ? ? ? ? ? ? ? ? ? ? ? ? ? ? ?
                 [[[[[? ?] ?] ?] ?] ?]].
  reflexivity.
Qed.

Lemma sizeofInfo_eq : sizeofInfo = 108.
Proof. reflexivity. Qed.

(** The three fields of interest, read back from the encoding. *)
Lemma binaryWrite_fields i rest :
  Uint32At (Info.binaryWrite i ++ rest) offsetFlags = u32 (Info.Flags i)
  /\ Uint32At (Info.binaryWrite i ++ rest) offsetCmdLine = u32 (Info.CmdLine i)
  /\ Uint32At (Info.binaryWrite i ++ rest) offsetBootLoaderName
     = u32 (Info.BootLoaderName i).
Proof.
  destruct i as [? ? ? ? ? ? ? [[[? ?] ?] ?] ? ? ? ? ? ? ? ? ? ? ? ? ? ? ? ? ? ? ?
                 [[[[[? ?] ?] ?] ?] ?]].
  unfold Info.binaryWrite; cbn [Info.Flags Info.CmdLine Info.BootLoaderName
    Info.MemLower Info.MemUpper Info.BootDevice Info.ModsCount Info.ModsAddr
    Info.Syms Info.MmapLength Info.MmapAddr Info.DriversLength Info.DrivesrAddr
    Info.ConfigTable Info.APMTable Info.VBEControlInfo Info.VBEModeInfo
    Info.VBEMode Info.VBEInterfaceSeg Info.VBEInterfaceOff Info.VBEInterfaceLen
    Info.FramebufferAddr Info.FramebufferPitch Info.FramebufferWidth
    Info.FramebufferHeight Info.FramebufferBPP Info.FramebufferType Info.ColorInfo].
  rewrite <- !app_assoc.
  split; [|split].
  - apply (Uint32At_PutUint32_in []).
  - match goal with
    | |- Uint32At (?a ++ ?b ++ ?c ++ ?d ++ ?rest) _ = u32 ?CmdLine =>
        change (Uint32At ((a ++ b ++ c ++ d) ++ rest)
                  (List.length (a ++ b ++ c ++ d)) = u32 CmdLine)
    end.
    apply Uint32At_PutUint32_in.
  - match goal with
    | |- Uint32At (?a0 ++ ?a1 ++ ?a2 ++ ?a3 ++ ?a4 ++ ?a5 ++ ?a6 ++ ?a7 ++ ?a8
                   ++ ?a9 ++ ?a10 ++ ?a11 ++ ?a12 ++ ?a13 ++ ?a14 ++ ?a15 ++ ?rest) _
           = u32 ?BootLoaderName =>
        change (Uint32At ((a0 ++ a1 ++ a2 ++ a3 ++ a4 ++ a5 ++ a6 ++ a7 ++ a8
                   ++ a9 ++ a10 ++ a11 ++ a12 ++ a13 ++ a14 ++ a15) ++ rest)
                  (List.length (a0 ++ a1 ++ a2 ++ a3 ++ a4 ++ a5 ++ a6 ++ a7 ++ a8
                   ++ a9 ++ a10 ++ a11 ++ a12 ++ a13 ++ a14 ++ a15))
                = u32 BootLoaderName)
    end.
    apply Uint32At_PutUint32_in.
Qed.


Lemma roundUp4_spec x : x <= roundUp4 x < x + 4 /\ roundUp4 x mod 4 = 0.
Proof.
  unfold roundUp4. rewrite <- Z.ldiff_land.
  replace (Z.ldiff (x + 3) 3) with (Z.ldiff (x + 3) (Z.ones 2)) by reflexivity.
  rewrite Z.ldiff_ones_r, Z.shiftr_div_pow2, Z.shiftl_mul_pow2 by lia.
  change (2 ^ 2) with 4.
  pose proof (Z.div_mod (x + 3) 4 ltac:(lia)).
  pose proof (Z.mod_pos_bound (x + 3) 4 ltac:(lia)).
  split; [lia|]. apply Z.mod_mul. lia.
Qed.

Lemma skipn_repeat {A} (x : A) n k : skipn k (repeat x n) = repeat x (n - k).
Proof.
  revert k. induction n as [|n IH]; intros [|k]; cbn; try reflexivity.
  apply IH.
Qed.

Lemma skipn_app_exact {A} (l1 l2 : list A) n :
  List.length l1 = n -> skipn n (l1 ++ l2) = l2.
Proof.
  intros <-. rewrite skipn_app, skipn_all, Nat.sub_diag. reflexivity.
Qed.

Lemma firstn_app_exact {A} (l1 l2 : list A) n :
  List.length l1 = n -> firstn n (l1 ++ l2) = l1.
Proof.
  intros <-. rewrite firstn_app, firstn_all, Nat.sub_diag, app_nil_r. reflexivity.
Qed.

(** [copy] into a fresh slice that is long enough keeps the source and pads
    it with zeros. *)
Lemma copy_into_zeros n buf :
  (List.length buf <= n)%nat ->
  copy (repeat x00 n) buf = buf ++ repeat x00 (n - List.length buf).
Proof.
  intros H. unfold copy. rewrite repeat_length, firstn_all2 by exact H.
  now rewrite skipn_repeat.
Qed.

(** The bytes [marshal] produces: the encoded [Info] with its two pointers
    set, the two strings, each closed by a zero byte, and padding. *)
Lemma marshal_layout iw base :
  exists pad,
    (pad < 4)%nat /\
    marshal iw base =
    Ok (Info.binaryWrite
          (Info.set_BootLoaderName
             (u32 (u32 (sizeofInfo + u32 base) + u32 (u32 (slen (CmdLine iw)) + 1)))
             (Info.set_CmdLine (u32 (sizeofInfo + u32 base)) (Info_ iw)))
        ++ (bytesOf (CmdLine iw) ++ [x00])
        ++ (bytesOf (BootLoaderName iw) ++ [x00])
        ++ repeat x00 pad).
Proof.
  unfold marshal.
  set (info := Info.set_BootLoaderName _ _).
  set (buf := (Info.binaryWrite info ++ _) ++ _).
  pose proof (roundUp4_spec (len buf)) as [Hr _]. unfold len in Hr.
  exists (Z.to_nat (roundUp4 (len buf)) - List.length buf)%nat.
  split; [unfold len; lia|].
  rewrite copy_into_zeros by (unfold len; lia).
  subst buf. now rewrite <- !app_assoc.
Qed.

Lemma hasFlag_u32 flags flag :
  0 <= flag < 2 ^ 32 -> hasFlag flags flag -> hasFlag (u32 flags) flag.
Proof.
  unfold hasFlag, u32. intros Hr H.
  rewrite <- Z.land_ones by lia.
  rewrite <- Z.land_assoc, (Z.land_comm (Z.ones 32)), Z.land_ones by lia.
  now rewrite Z.mod_small.
Qed.

Lemma hasFlag_lor_l a b flag : hasFlag a flag -> hasFlag (Z.lor a b) flag.
Proof.
  unfold hasFlag. intros H. rewrite Z.land_lor_distr_l, H.
  apply Z.bits_inj'. intros n _. rewrite Z.lor_spec, Z.land_spec.
  now destruct (Z.testbit flag n), (Z.testbit b n).
Qed.

Lemma hasFlag_lor_r a b flag : hasFlag b flag -> hasFlag (Z.lor a b) flag.
Proof. rewrite Z.lor_comm. apply hasFlag_lor_l. Qed.

Lemma hasFlag_refl flag : hasFlag flag flag.
Proof. apply Z.land_diag. Qed.

End InfoBlock.

(** C3 (evaluated on the code).  [binary.Size(Info{})] is 108, not 116:
    every [Info] is encoded in 108 bytes, [FramebufferAddr] and
    [FramebufferPitch] being declared [uint16]; so for base 0 the [CmdLine]
    field holds 108 and the command line starts at byte 108. *)
Theorem sizeofInfo_is_108 :
  sizeofInfo = 108
  /\ (forall i, len (Info.binaryWrite i) = 108)
  /\ (forall iw, exists d,
        marshal iw 0 = Ok d
        /\ Uint32At d offsetCmdLine = 108
        /\ stringAt d 108 (CmdLine iw)).
Proof.
  split; [reflexivity|]. split.
  - intros i. unfold len. now rewrite binaryWrite_length.
  - intros iw. destruct (marshal_layout iw 0) as (pad & _ & ->).
    eexists. split; [reflexivity|]. split.
    + destruct (binaryWrite_fields
                  (Info.set_BootLoaderName
                     (u32 (u32 (sizeofInfo + u32 0) + u32 (u32 (slen (CmdLine iw)) + 1)))
                     (Info.set_CmdLine (u32 (sizeofInfo + u32 0)) (Info_ iw)))
                  ((bytesOf (CmdLine iw) ++ [x00])
                   ++ (bytesOf (BootLoaderName iw) ++ [x00]) ++ repeat x00 pad))
        as (_ & Hc & _).
      rewrite Hc. reflexivity.
    + split; [lia|].
      rewrite skipn_app_exact by (rewrite binaryWrite_length; reflexivity).
      apply firstn_app_exact.
      rewrite length_app, bytesOf_length. reflexivity.
Qed.

(* ===================================================================== *)
(** * Properties of the trampoline patcher *)
(* ===================================================================== *)

Section Trampoline.

Lemma HasPrefix_spec p : forall d,
  HasPrefix d p = true <-> firstn (List.length p) d = p.
Proof.
  induction p as [|x p IH]; intros d; cbn.
  - split; [reflexivity | intros _; destruct d; reflexivity].
  - destruct d as [|y d]; cbn.
    + split; discriminate.
    + rewrite andb_true_iff, IH. split.
      * intros [Hxy Hp]. apply Byte.byte_dec_bl in Hxy. now subst; rewrite Hp.
      * intros H. injection H as -> Hp. split; [apply Byte.byte_dec_lb; reflexivity | exact Hp].
Qed.

Lemma occursAt_0 d label : occursAt d label 0 <-> HasPrefix d label = true.
Proof. unfold occursAt. cbn [skipn]. symmetry. apply HasPrefix_spec. Qed.

Lemma occursAt_S x d label i : occursAt (x :: d) label (S i) <-> occursAt d label i.
Proof. reflexivity. Qed.

(** [bytes.Index] returns the first occurrence, or reports that there is
    none. *)
Lemma Index_spec label : (0 < List.length label)%nat -> forall d,
  match Index d label with
  | Some i => firstAt d label i
  | None => absent d label
  end.
Proof.
  intros Hlen. induction d as [|x d IH].
  - cbn [Index]. destruct (HasPrefix [] label) eqn:Hp.
    + destruct label; [cbn in Hlen; lia | discriminate].
    + intros i. unfold occursAt. rewrite skipn_nil, firstn_nil.
      intros H. rewrite <- H in Hlen. cbn in Hlen. lia.
  - cbn [Index]. destruct (HasPrefix (x :: d) label) eqn:Hp.
    + split; [now apply occursAt_0 | intros j Hj; lia].
    + destruct (Index d label) as [i|]; cbn [option_map].
      * destruct IH as [Hocc Hfirst]. split; [exact Hocc|].
        intros [|j] Hj.
        -- rewrite occursAt_0, Hp. discriminate.
        -- rewrite occursAt_S. apply Hfirst. lia.
      * intros [|i].
        -- rewrite occursAt_0, Hp. discriminate.
        -- rewrite occursAt_S. apply IH.
Qed.

Lemma firstAt_unique d label i j : firstAt d label i -> firstAt d label j -> i = j.
Proof.
  intros [Hi Hfi] [Hj Hfj].
  destruct (Nat.lt_trichotomy i j) as [H | [H | H]]; [|exact H|].
  - now apply Hfj in H.
  - now apply Hfi in H.
Qed.

Lemma Index_firstAt label d i :
  (0 < List.length label)%nat -> firstAt d label i -> Index d label = Some i.
Proof.
  intros Hlen Hi. pose proof (Index_spec label Hlen d) as H.
  destruct (Index d label) as [j|].
  - f_equal. eapply firstAt_unique; eassumption.
  - destruct Hi as [Hi _]. now apply H in Hi.
Qed.

Lemma Index_absent label d :
  (0 < List.length label)%nat -> absent d label -> Index d label = None.
Proof.
  intros Hlen Ha. pose proof (Index_spec label Hlen d) as H.
  destruct (Index d label) as [j|]; [|reflexivity].
  destruct H as [H _]. now apply Ha in H.
Qed.

(** An occurrence, byte by byte. *)
Lemma occursAt_nth d label i :
  (0 < List.length label)%nat ->
  (occursAt d label i <->
   (i + List.length label <= List.length d)%nat
   /\ forall t, (t < List.length label)%nat -> nth (i + t) d x00 = nth t label x00).
Proof.
  intros Hlen. unfold occursAt. split.
  - intros H.
    assert (Hl : (i + List.length label <= List.length d)%nat).
    { apply (f_equal (@List.length byte)) in H.
      rewrite length_firstn, length_skipn in H. lia. }
    split; [exact Hl|]. intros t Ht.
    rewrite <- nth_skipn.
    transitivity (nth t (firstn (List.length label) (skipn i d)) x00).
    + rewrite nth_firstn. now rewrite (proj2 (Nat.ltb_lt _ _) Ht).
    + now rewrite H.
  - intros [Hl Hn]. apply (nth_ext _ _ x00 x00).
    + rewrite length_firstn, length_skipn. lia.
    + intros t Ht. rewrite length_firstn, length_skipn in Ht.
      rewrite nth_firstn, nth_skipn.
      rewrite (proj2 (Nat.ltb_lt t (List.length label))) by lia.
      apply Hn. lia.
Qed.

(** [copy(d[k:], src)] when [src] fits. *)
Lemma copyAt_fits d k src :
  (k + List.length src <= List.length d)%nat ->
  copyAt d k src = firstn k d ++ src ++ skipn (k + List.length src) d.
Proof.
  intros H. unfold copyAt, copy. f_equal.
  rewrite firstn_all2 by (rewrite length_skipn; lia).
  now rewrite skipn_skipn, Nat.add_comm.
Qed.

Lemma copyAt_length d k src :
  (k + List.length src <= List.length d)%nat ->
  List.length (copyAt d k src) = List.length d.
Proof.
  intros H. rewrite copyAt_fits by exact H.
  rewrite !length_app, length_firstn, length_skipn. lia.
Qed.

Lemma copyAt_nth d k src t :
  (k + List.length src <= List.length d)%nat ->
  nth t (copyAt d k src) x00 =
  if (k <=? t)%nat && (t <? k + List.length src)%nat
  then nth (t - k) src x00 else nth t d x00.
Proof.
  intros H. rewrite copyAt_fits by exact H.
  assert (Hk : List.length (firstn k d) = k) by (rewrite length_firstn; lia).
  destruct (Nat.leb_spec k t) as [Hkt | Hkt]; cbn [andb].
  - rewrite app_nth2 by lia. rewrite Hk.
    destruct (Nat.ltb_spec t (k + List.length src)) as [Hts | Hts].
    + rewrite app_nth1 by lia. reflexivity.
    + rewrite app_nth2 by lia. rewrite nth_skipn. f_equal. lia.
  - rewrite app_nth1 by lia. rewrite nth_firstn.
    now rewrite (proj2 (Nat.ltb_lt _ _) Hkt).
Qed.

Lemma copyAt_field d k src :
  (k + List.length src <= List.length d)%nat ->
  firstn (List.length src) (skipn k (copyAt d k src)) = src.
Proof.
  intros H. rewrite copyAt_fits by exact H.
  rewrite skipn_app_exact by (rewrite length_firstn; lia).
  now apply firstn_app_exact.
Qed.

(** What the closure [replace] does. *)
Lemma replace_found d label buf i :
  (0 < List.length label)%nat ->
  firstAt d label i ->
  (i + List.length label + List.length buf <= List.length d)%nat ->
  replace d label buf = Ok (copyAt d (i + List.length label) buf).
Proof.
  intros Hlen Hi Hfit. unfold replace.
  rewrite (Index_firstAt label d i Hlen Hi).
  now rewrite (proj2 (Nat.ltb_ge _ _)) by lia.
Qed.

Lemma replace_truncated d label buf i :
  (0 < List.length label)%nat ->
  firstAt d label i ->
  (List.length d < i + List.length label + List.length buf)%nat ->
  replace d label buf = Err io_ErrUnexpectedEOF.
Proof.
  intros Hlen Hi Hfit. unfold replace.
  rewrite (Index_firstAt label d i Hlen Hi).
  now rewrite (proj2 (Nat.ltb_lt _ _)) by lia.
Qed.

Lemma replace_absent d label buf :
  (0 < List.length label)%nat ->
  absent d label ->
  replace d label buf = Err (ErrLabelNotFound (string_of_list_byte label)).
Proof.
  intros Hlen Ha. unfold replace. now rewrite (Index_absent label d Hlen Ha).
Qed.

End Trampoline.

Section TrampolineLabels.

Lemma ebxLabel_length : List.length ebxLabel = 15%nat.
Proof. reflexivity. Qed.

Lemma epLabel_length : List.length epLabel = 14%nat.
Proof. reflexivity. Qed.

(** From the byte-wise facts [Hebx] (the first label stands at [i]) and
    [Hep] (the second stands at [j]), both labels claim the same index with
    different bytes: offset [a] of the first, offset [b] of the second. *)
Ltac clash Hebx Hep i a b :=
  let X := fresh "X" in
  let Y := fresh "Y" in
  pose proof (Hebx a ltac:(rewrite ebxLabel_length; lia)) as X;
  pose proof (Hep b ltac:(rewrite epLabel_length; lia)) as Y;
  match type of Y with
  | nth ?k _ _ = _ => replace k with (i + a)%nat in Y by lia
  end;
  rewrite X in Y; vm_compute in Y; discriminate Y.

(** Where both labels stand, the four bytes after the first and the eight
    bytes after the second do not overlap. *)
Lemma fields_apart d i j :
  occursAt d ebxLabel i -> occursAt d epLabel j ->
  (j + 14 + 8 <= i + 15 \/ i + 15 + 4 <= j + 14)%nat.
Proof.
  intros Hi Hj.
  apply occursAt_nth in Hi; [|rewrite ebxLabel_length; lia].
  apply occursAt_nth in Hj; [|rewrite epLabel_length; lia].
  destruct Hi as [_ Hebx]. destruct Hj as [_ Hep].
  destruct (Nat.le_gt_cases (j + 14 + 8) (i + 15)) as [H1 | H1]; [now left|].
  destruct (Nat.le_gt_cases (i + 15 + 4) (j + 14)) as [H2 | H2]; [now right|].
  exfalso.
  assert (Hcases : (j = i \/ j = i + 1 \/ j = i + 2 \/ j = i + 3 \/ j = i + 4
                    \/ i = j + 1 \/ i = j + 2 \/ i = j + 3 \/ i = j + 4
                    \/ i = j + 5 \/ i = j + 6)%nat) by lia.
  destruct Hcases as [-> | [-> | [-> | [-> | [-> | [-> | [-> | [-> | [-> | [-> | ->]]]]]]]]]].
  - clash Hebx Hep i 8%nat 8%nat.
  - clash Hebx Hep i 1%nat 0%nat.
  - clash Hebx Hep i 2%nat 0%nat.
  - clash Hebx Hep i 3%nat 0%nat.
  - clash Hebx Hep i 4%nat 0%nat.
  - clash Hebx Hep (j + 1)%nat 0%nat 1%nat.
  - clash Hebx Hep (j + 2)%nat 0%nat 2%nat.
  - clash Hebx Hep (j + 3)%nat 0%nat 3%nat.
  - clash Hebx Hep (j + 4)%nat 0%nat 4%nat.
  - clash Hebx Hep (j + 5)%nat 0%nat 5%nat.
  - clash Hebx Hep (j + 6)%nat 0%nat 6%nat.
Qed.

(** Inside the first label only its first byte is the letter u. *)
Lemma ebxLabel_no_u t : (1 <= t < 15)%nat -> nth t ebxLabel x00 <> "u"%byte.
Proof.
  intros [H1 H2].
  do 15 (destruct t as [|t]; [try lia; vm_compute; discriminate|]). lia.
Qed.

(** Patching the field of the first label neither removes nor adds a first
    occurrence of the second label, when that occurrence does not share a
    byte with the field and no byte written is the letter u. *)
Lemma patch_keeps_first d i w j :
  firstAt d ebxLabel i ->
  (i + 15 + 4 <= List.length d)%nat ->
  List.length w = 4%nat ->
  firstAt d epLabel j ->
  (j + 14 <= i + 15 \/ i + 15 + 4 <= j)%nat ->
  (forall t, (t < 4)%nat -> nth t w x00 <> "u"%byte) ->
  firstAt (copyAt d (i + 15) w) epLabel j.
Proof.
  intros [Hebx _] Hfit Hw [Hep Hfirst] Hdisj Hnou.
  assert (Hl14 : (0 < List.length epLabel)%nat) by (rewrite epLabel_length; lia).
  assert (Hl15 : (0 < List.length ebxLabel)%nat) by (rewrite ebxLabel_length; lia).
  assert (Hfit' : (i + 15 + List.length w <= List.length d)%nat) by lia.
  apply (occursAt_nth _ _ _ Hl15) in Hebx. destruct Hebx as [_ Hebx].
  rewrite ebxLabel_length in Hebx.
  split.
  - apply (occursAt_nth _ _ _ Hl14) in Hep. destruct Hep as [Hlen Hep].
    apply (occursAt_nth _ _ _ Hl14). rewrite copyAt_length by exact Hfit'.
    split; [exact Hlen|]. intros t Ht. rewrite epLabel_length in Ht, Hep.
    rewrite copyAt_nth by exact Hfit'.
    destruct (Nat.leb_spec (i + 15) (j + t)), (Nat.ltb_spec (j + t) (i + 15 + List.length w));
      cbn [andb]; try (apply Hep; lia). lia.
  - intros k Hk Hocc. apply (Hfirst k Hk).
    apply (occursAt_nth _ _ _ Hl14) in Hocc. destruct Hocc as [Hlen Hocc].
    rewrite copyAt_length in Hlen by exact Hfit'.
    rewrite epLabel_length in Hlen, Hocc.
    apply (occursAt_nth _ _ _ Hl14). rewrite epLabel_length.
    split; [exact Hlen|]. intros t Ht.
    destruct (Nat.le_gt_cases (k + 14) (i + 15)) as [Hbefore | Hover].
    { rewrite <- (Hocc t Ht). rewrite copyAt_nth by exact Hfit'.
      now rewrite (proj2 (Nat.leb_gt (i + 15) (k + t))) by lia. }
    destruct (Nat.le_gt_cases (i + 15 + 4) k) as [Hafter | Hreach].
    { rewrite <- (Hocc t Ht). rewrite copyAt_nth by exact Hfit'.
      rewrite (proj2 (Nat.ltb_ge (k + t) (i + 15 + List.length w))) by lia.
      now rewrite andb_false_r. }
    exfalso.
    (* the occurrence at [k] shares a byte with the field *)
    pose proof (Hocc 0%nat ltac:(lia)) as Hu.
    rewrite copyAt_nth in Hu by exact Hfit'. rewrite Nat.add_0_r in Hu.
    change (nth 0 epLabel x00) with "u"%byte in Hu.
    destruct (Nat.leb_spec (i + 15) k) as [Hin | Hout]; cbn [andb] in Hu.
    + rewrite (proj2 (Nat.ltb_lt k (i + 15 + List.length w))) in Hu by lia.
      apply (Hnou (k - (i + 15))%nat); [lia | exact Hu].
    + apply (ebxLabel_no_u (k - i)%nat); [lia|].
      rewrite <- (Hebx (k - i)%nat) by lia.
      replace (i + (k - i))%nat with k by lia. exact Hu.
Qed.

End TrampolineLabels.

Section TrampolinePatch.

(** C4, as stated, fails.  In [adjacentLabels] both labels stand, with 4
    bytes after the first and 8 after the second, yet [setupTrampoline]
    fails: writing the info address over the bytes after the first label
    destroys the second label, which is looked up afterwards.  And in
    [completedLabel] the second label is absent, yet [setupTrampoline]
    succeeds: the info address written completes it. *)
Lemma setupTrampoline_not_as_stated :
  (firstAt adjacentLabels ebxLabel 0
   /\ firstAt adjacentLabels epLabel 15
   /\ (0 + 15 + 4 <= List.length adjacentLabels)%nat
   /\ (15 + 14 + 8 <= List.length adjacentLabels)%nat
   /\ @setupTrampoline (Fixture.hostOf (fun _ => Some adjacentLabels) 0) "t" 0 0
      = Err (ErrLabelNotFound TrampolineEP))
  /\ (absent completedLabel epLabel
      /\ exists d, @setupTrampoline (Fixture.hostOf (fun _ => Some completedLabel) 0)
                     "t" 0x6f722d75 0 = Ok d).
Proof.
  assert (Hebx : (0 < List.length ebxLabel)%nat) by (rewrite ebxLabel_length; lia).
  assert (Hep : (0 < List.length epLabel)%nat) by (rewrite epLabel_length; lia).
  split.
  - split; [exact (Index_spec ebxLabel Hebx adjacentLabels)|].
    split; [exact (Index_spec epLabel Hep adjacentLabels)|].
    split; [vm_compute; lia|]. split; [vm_compute; lia|].
    vm_compute. reflexivity.
  - split; [exact (Index_spec epLabel Hep completedLabel)|].
    eexists. vm_compute. reflexivity.
Qed.

(** C4 (amended).  [setupTrampoline] looks up "u-root-ebx-long" in the blob
    and "u-root-ep-quad" in the blob as already patched with the info
    address.  It fails when the first label is absent from the blob or the
    second from the patched blob.  When the first stands at [i] with 4 bytes
    after it and the second, in the patched blob, first stands at [j] with 8
    bytes after it (it fails with [io.ErrUnexpectedEOF] when a label is
    followed by fewer bytes), the result has the length of the blob, holds the info
    address as a 32-bit little-endian value in the 4 bytes after index
    [i + 15] and the entry point as a 64-bit little-endian value in the 8
    bytes after index [j + 14], and agrees with the blob at every other
    index.  [j] is the first occurrence of the second label in the blob
    itself whenever that occurrence shares no byte with the 4 patched bytes
    and no byte of the encoded info address is the letter u. *)
Theorem setupTrampoline_patch {host : Host}
    (path : string) (infoAddr entryPoint : Z) (blob : list byte) :
  ReadFile path = Some blob ->
  let ebxValue := PutUint32 (u32 infoAddr) in
  let epValue := PutUint64 (u64 entryPoint) in
  (absent blob ebxLabel ->
     setupTrampoline path infoAddr entryPoint = Err (ErrLabelNotFound TrampolineEBX))
  /\ (forall i,
        firstAt blob ebxLabel i ->
        (List.length blob < i + 15 + 4)%nat ->
        setupTrampoline path infoAddr entryPoint = Err io_ErrUnexpectedEOF)
  /\ forall i,
       firstAt blob ebxLabel i ->
       (i + 15 + 4 <= List.length blob)%nat ->
       let once := copyAt blob (i + 15) ebxValue in
       (absent once epLabel ->
          setupTrampoline path infoAddr entryPoint = Err (ErrLabelNotFound TrampolineEP))
       /\ (forall j,
             firstAt once epLabel j ->
             (List.length blob < j + 14 + 8)%nat ->
             setupTrampoline path infoAddr entryPoint = Err io_ErrUnexpectedEOF)
       /\ (forall j,
             firstAt once epLabel j ->
             (j + 14 + 8 <= List.length blob)%nat ->
             exists d,
               setupTrampoline path infoAddr entryPoint = Ok d
               /\ List.length d = List.length blob
               /\ firstn 4 (skipn (i + 15) d) = ebxValue
               /\ firstn 8 (skipn (j + 14) d) = epValue
               /\ (forall k, ~ inField i 15 4 k -> ~ inField j 14 8 k ->
                             nth k d x00 = nth k blob x00))
       /\ (forall j,
             firstAt blob epLabel j ->
             (j + 14 <= i + 15 \/ i + 15 + 4 <= j)%nat ->
             (forall t, (t < 4)%nat -> nth t ebxValue x00 <> "u"%byte) ->
             firstAt once epLabel j).
Proof.
  intros Hfile ebxValue epValue.
  assert (Hebx : (0 < List.length ebxLabel)%nat) by (rewrite ebxLabel_length; lia).
  assert (Hep : (0 < List.length epLabel)%nat) by (rewrite epLabel_length; lia).
  assert (Hsplit4 : firstn 4 (ebxValue ++ epValue) = ebxValue) by reflexivity.
  assert (Hsplit8 : skipn 4 (ebxValue ++ epValue) = epValue) by reflexivity.
  split; [|split].
  - intros Habs. unfold setupTrampoline. rewrite Hfile.
    fold ebxLabel. rewrite (replace_absent _ _ _ Hebx Habs). reflexivity.
  - intros i Hi Hshort. unfold setupTrampoline. rewrite Hfile.
    fold ebxLabel. fold ebxValue epValue. rewrite Hsplit4.
    rewrite (replace_truncated blob ebxLabel ebxValue i Hebx Hi)
      by (rewrite ebxLabel_length; exact Hshort).
    reflexivity.
  - intros i Hi Hfit once.
    assert (Hstep : setupTrampoline path infoAddr entryPoint
                    = (trampoline <- replace once epLabel epValue ;; Ok trampoline)).
    { unfold setupTrampoline. rewrite Hfile. fold ebxLabel epLabel.
      fold ebxValue epValue. rewrite Hsplit4, Hsplit8.
      rewrite (replace_found blob ebxLabel ebxValue i Hebx Hi)
        by (rewrite ebxLabel_length; exact Hfit).
      rewrite ebxLabel_length. reflexivity. }
    assert (Honce : List.length once = List.length blob).
    { apply copyAt_length. exact Hfit. }
    split; [|split; [|split]].
    + intros Habs. rewrite Hstep, (replace_absent _ _ _ Hep Habs). reflexivity.
    + intros j Hj Hshort. rewrite Hstep.
      rewrite (replace_truncated once epLabel epValue j Hep Hj)
        by (rewrite epLabel_length, Honce; exact Hshort).
      reflexivity.
    + intros j Hj Hfit2. rewrite Hstep.
      rewrite (replace_found once epLabel epValue j Hep Hj)
        by (rewrite epLabel_length, Honce; exact Hfit2).
      rewrite epLabel_length. cbn [bind].
      assert (Hfit2' : (j + 14 + List.length epValue <= List.length once)%nat)
        by (rewrite Honce; exact Hfit2).
      eexists. split; [reflexivity|].
      split; [rewrite copyAt_length by exact Hfit2'; exact Honce|].
      assert (Happart : (j + 14 + 8 <= i + 15 \/ i + 15 + 4 <= j + 14)%nat).
      { apply (fields_apart once); [|apply Hj].
        destruct Hi as [Hi _].
        apply (occursAt_nth _ _ _ Hebx) in Hi. destruct Hi as [Hl Hn].
        apply (occursAt_nth _ _ _ Hebx). rewrite Honce. split; [exact Hl|].
        intros t Ht. rewrite <- (Hn t Ht). unfold once.
        rewrite copyAt_nth by exact Hfit.
        rewrite ebxLabel_length in Ht.
        now rewrite (proj2 (Nat.leb_gt (i + 15) (i + t))) by lia. }
      split; [|split].
      * apply (nth_ext _ _ x00 x00).
        -- rewrite length_firstn, length_skipn, copyAt_length by exact Hfit2'.
           rewrite Honce. change (List.length ebxValue) with 4%nat. lia.
        -- intros t Ht.
           rewrite length_firstn, length_skipn, copyAt_length in Ht by exact Hfit2'.
           rewrite nth_firstn, (proj2 (Nat.ltb_lt t 4)) by lia.
           rewrite nth_skipn, copyAt_nth by exact Hfit2'.
           assert (Hout : ((j + 14 <=? i + 15 + t) && (i + 15 + t <? j + 14 + List.length epValue))%nat = false).
           { change (List.length epValue) with 8%nat.
             destruct (Nat.leb_spec (j + 14) (i + 15 + t)),
                      (Nat.ltb_spec (i + 15 + t) (j + 14 + 8)); cbn; try reflexivity; lia. }
           rewrite Hout. unfold once. rewrite copyAt_nth by exact Hfit.
           change (List.length ebxValue) with 4%nat.
           rewrite (proj2 (Nat.leb_le (i + 15) (i + 15 + t))) by lia.
           rewrite (proj2 (Nat.ltb_lt (i + 15 + t) (i + 15 + 4))) by lia.
           cbn [andb]. f_equal. lia.
      * apply (copyAt_field once (j + 14) epValue). exact Hfit2'.
      * intros k Hk1 Hk2. unfold inField in Hk1, Hk2.
        rewrite copyAt_nth by exact Hfit2'.
        change (List.length epValue) with 8%nat.
        destruct (Nat.leb_spec (j + 14) k), (Nat.ltb_spec k (j + 14 + 8));
          cbn [andb]; try lia.
        all: unfold once; rewrite copyAt_nth by exact Hfit;
          change (List.length ebxValue) with 4%nat;
          destruct (Nat.leb_spec (i + 15) k), (Nat.ltb_spec k (i + 15 + 4));
          cbn [andb]; try lia; reflexivity.
    + intros j Hj Hdisj Hnou. apply patch_keeps_first; try assumption. reflexivity.
Qed.

(** The trampoline of the fixture, patched as in the fifth scenario of the
    design document: the bytes after the labels become [EF BE AD DE] and
    [88 77 66 55 44 33 22 11]. *)
Lemma setupTrampoline_patch_witness :
  exists d,
    @setupTrampoline Fixture.demoHost "trampoline" 0xDEADBEEF 0x1122334455667788 = Ok d
    /\ firstn 4 (skipn (4 + 15) d) = [xef; xbe; xad; xde]
    /\ firstn 8 (skipn (26 + 14) d) = [x88; x77; x66; x55; x44; x33; x22; x11].
Proof.
  assert (Hebx : (0 < List.length ebxLabel)%nat) by (rewrite ebxLabel_length; lia).
  assert (Hep : (0 < List.length epLabel)%nat) by (rewrite epLabel_length; lia).
  pose (blob := bytesOf "code" ++ bytesOf TrampolineEBX ++ repeat x00 4
                ++ bytesOf "PAD" ++ bytesOf TrampolineEP ++ repeat x00 8
                ++ bytesOf "tail").
  destruct (@setupTrampoline_patch Fixture.demoHost "trampoline" 0xDEADBEEF
              0x1122334455667788 blob eq_refl) as (_ & _ & Hpatch).
  destruct (Hpatch 4%nat) as (_ & _ & Hfound & _).
  - exact (Index_spec ebxLabel Hebx blob).
  - vm_compute. lia.
  - destruct (Hfound 26%nat) as (d & Hd & _ & H4 & H8 & _).
    + exact (Index_spec epLabel Hep
               (copyAt blob (4 + 15) (PutUint32 (u32 0xDEADBEEF)))).
    + vm_compute. lia.
    + exists d. split; [exact Hd|]. split; [exact H4 | exact H8].
Defined.

End TrampolinePatch.

(* ===================================================================== *)
(** * Properties of the module loader *)
(* ===================================================================== *)

Section Results.

Lemma bind_Ok {A B} (r : result A) (k : A -> result B) b :
  bind r k = Ok b -> exists a, r = Ok a /\ k a = Ok b.
Proof. destruct r as [a | e |]; cbn; intros H; [eauto | discriminate | discriminate]. Qed.

Lemma liftK_Ok {A} (r : kexec.error + A) a : liftK r = Ok a -> r = inr a.
Proof. destruct r; cbn; intros H; [discriminate | now injection H as ->]. Qed.

Lemma context_Ok {A} msg (r : result A) a : context msg r = Ok a -> r = Ok a.
Proof. destruct r; cbn; intros H; [exact H | discriminate | discriminate]. Qed.

Lemma sameBoot_refl m : sameBoot m m.
Proof. now destruct m. Qed.

Lemma sameBoot_trans m1 m2 m3 : sameBoot m1 m2 -> sameBoot m2 m3 -> sameBoot m1 m3.
Proof. unfold sameBoot. intros -> ->. reflexivity. Qed.

Lemma sameBoot_set_mem mem m : sameBoot m (Multiboot.set_mem mem m).
Proof. reflexivity. Qed.

Lemma sameBoot_modules m m' : sameBoot m m' -> Multiboot.modules m' = Multiboot.modules m.
Proof. now intros ->. Qed.

Lemma sameBoot_cmdLine m m' : sameBoot m m' -> Multiboot.cmdLine m' = Multiboot.cmdLine m.
Proof. now intros ->. Qed.

Lemma sameBoot_bootloader m m' :
  sameBoot m m' -> Multiboot.bootloader m' = Multiboot.bootloader m.
Proof. now intros ->. Qed.

Lemma sameBoot_header m m' : sameBoot m m' -> Multiboot.header m' = Multiboot.header m.
Proof. now intros ->. Qed.

End Results.

Section Marshal.

Lemma descriptor_length d : List.length (ModuleDescriptor.binaryWrite d) = 16%nat.
Proof. reflexivity. Qed.

Lemma sizeofModule_eq : sizeofModule = 16.
Proof. reflexivity. Qed.

Lemma descBytes_length base ms : forall acc,
  List.length (descBytes base acc ms) = (16 * List.length ms)%nat.
Proof.
  induction ms as [|md ms IH]; intros acc; cbn [descBytes List.length]; [reflexivity|].
  rewrite length_app, descriptor_length, IH. lia.
Qed.

Lemma cmdBytes_app ms1 ms2 : cmdBytes (ms1 ++ ms2) = cmdBytes ms1 ++ cmdBytes ms2.
Proof. unfold cmdBytes. apply flat_map_app. Qed.

(** The loop of [modules.marshal], from any pair of buffers. *)
Lemma marshal_loop base ms : forall cmdBuf dataBuf,
  fold_left (marshalStep base) ms (cmdBuf, dataBuf)
  = (cmdBuf ++ cmdBytes ms, dataBuf ++ descBytes base (len cmdBuf) ms).
Proof.
  induction ms as [|md ms IH]; intros cmdBuf dataBuf; cbn [fold_left].
  - cbn. now rewrite !app_nil_r.
  - cbn [marshalStep]. rewrite IH. cbn [cmdBytes flat_map descBytes].
    rewrite <- !app_assoc. f_equal. f_equal. f_equal.
    unfold len, slen. rewrite !length_app, bytesOf_length. cbn [List.length].
    f_equal. lia.
Qed.

(** The marshalled modules block: command lines, then descriptors. *)
Lemma marshalModules_layout ms base :
  marshalModules ms base = Ok (cmdBytes ms ++ descBytes base 0 ms).
Proof. unfold marshalModules. rewrite marshal_loop. reflexivity. Qed.

(** The [k]-th descriptor holds the bounds of the [k]-th module. *)
Lemma descBytes_bounds base ms : forall acc k md,
  nth_error ms k = Some md ->
  Uint32At (descBytes base acc ms) (16 * k) = u32 (module.start md)
  /\ Uint32At (descBytes base acc ms) (16 * k + 4) = u32 (module.end_ md).
Proof.
  induction ms as [|md0 ms IH]; intros acc k md Hk.
  - destruct k; discriminate.
  - destruct k as [|k]; cbn [nth_error] in Hk.
    + injection Hk as ->. cbn [descBytes]. unfold ModuleDescriptor.binaryWrite.
      cbn [ModuleDescriptor.Start ModuleDescriptor.End_].
      rewrite <- !app_assoc. split.
      * apply (Uint32At_PutUint32_in []).
      * apply (Uint32At_PutUint32_in (PutUint32 (module.start md))).
    + cbn [descBytes].
      replace (16 * S k)%nat with (16 + 16 * k)%nat by lia.
      rewrite <- Nat.add_assoc.
      rewrite <- (descriptor_length
                    (ModuleDescriptor.mk (module.start md0) (module.end_ md0)
                                         (u32 (u32 base + u32 acc)) 0)).
      rewrite !Uint32At_app_r. now apply IH.
Qed.

End Marshal.

Section ModuleLoader.
Context {host : Host}.

Lemma u32_end s n : u32 (u32 (u32 s + u32 n) - 1) = u32 (s + n - 1).
Proof.
  unfold u32. rewrite <- Zplus_mod. now rewrite Zminus_mod_idemp_l.
Qed.

(** [addModule] leaves everything but the memory as it was. *)
Lemma addModule_sameBoot m name args md m' :
  addModule m name args = Ok (md, m') -> sameBoot m m'.
Proof.
  unfold addModule. intros H.
  apply bind_Ok in H as (data & _ & H).
  destruct (len data =? 0); [discriminate|].
  apply bind_Ok in H as ([addr mem] & _ & H).
  injection H as _ <-. apply sameBoot_set_mem.
Qed.

(** [addModule] reports [errEmptyModule] only for a file of zero bytes. *)
Lemma addModule_empty m name args :
  addModule m name args = Err errEmptyModule <-> readModule name = Ok [].
Proof.
  unfold addModule. split.
  - destruct (readModule name) as [data | e |] eqn:Hread; cbn [bind]; try discriminate.
    + destruct data as [|b data]; [reflexivity|].
      unfold len. cbn [List.length]. destruct (Z.eqb_spec (Z.of_nat (S (List.length data))) 0); [lia|].
      destruct (AddKexecSegment _ _) as [e | [addr mem]]; cbn; discriminate.
    + unfold readModule in Hread.
      destruct (ReadFile name); [destruct (gunzip _)|]; try discriminate.
      injection Hread as <-. discriminate.
  - intros ->. reflexivity.
Qed.

End ModuleLoader.

(** C5, as stated, fails above 4 GiB.  A module of 11 bytes whose segment
    is allocated at address [2^32] gets the descriptor [(0, 10)], not
    [(2^32, 2^32 + 10)]. *)
Lemma addModule_bounds_not_as_stated :
  let high := Fixture.hostOf Fixture.files 0x100000000 in
  let m := Fixture.demoBoot "" [] in
  exists mem' md,
    @readModule high "initrd" = Ok (bytesOf "initrd-data")
    /\ @AddKexecSegment high (Multiboot.mem m) (bytesOf "initrd-data")
       = inr (0x100000000, mem')
    /\ @addModule high m "initrd" [] = Ok (md, Multiboot.set_mem mem' m)
    /\ module.start md = 0
    /\ module.end_ md = 10.
Proof.
  cbv zeta. eexists. eexists.
  split; [reflexivity|]. split; [reflexivity|].
  split; [vm_compute; reflexivity|]. split; reflexivity.
Qed.


(** C5 (amended).  For a module whose payload has [n > 0] bytes and whose
    segment is allocated at address [s], the module descriptor records
    [start = s mod 2^32] and [end = (s + n - 1) mod 2^32], and these are the
    words of its marshalled descriptor.  When the segment lies below 4 GiB
    ([s + n <= 2^32]) they are [s] and [s + n - 1], the address of the last
    byte, so the segment covers exactly [[start, end + 1)]. *)
Theorem addModule_bounds {host : Host}
    (m : Multiboot.t) (name : string) (args : list string)
    (data : list byte) (s : Z) (mem' : kexec.Memory) :
  readModule name = Ok data ->
  data <> [] ->
  AddKexecSegment (Multiboot.mem m) data = inr (s, mem') ->
  exists md,
    addModule m name args = Ok (md, Multiboot.set_mem mem' m)
    /\ module.start md = u32 s
    /\ module.end_ md = u32 (s + len data - 1)
    /\ (forall before after base,
          exists d,
            marshalModules (before ++ md :: after) base = Ok d
            /\ let pos := (List.length (cmdBytes (before ++ md :: after))
                           + 16 * List.length before)%nat in
               Uint32At d pos = module.start md
               /\ Uint32At d (pos + 4) = module.end_ md)
    /\ (0 <= s -> s + len data <= 2 ^ 32 ->
        module.start md = s
        /\ module.end_ md = s + len data - 1
        /\ forall b, s <= b < s + len data <-> module.start md <= b < module.end_ md + 1).
Proof.
  intros Hread Hne Halloc.
  assert (Hlen : 0 < len data).
  { unfold len. destruct data; [contradiction | cbn [List.length]; lia]. }
  exists (module.mk (u32 s) (u32 (s + len data - 1)) (Join args " ")).
  split.
  { unfold addModule. rewrite Hread. cbn [bind].
    rewrite (proj2 (Z.eqb_neq (len data) 0)) by lia.
    rewrite Halloc. cbn [liftK bind]. now rewrite u32_end. }
  cbn [module.start module.end_].
  split; [reflexivity|]. split; [reflexivity|]. split.
  - intros before after base. rewrite marshalModules_layout.
    eexists. split; [reflexivity|]. cbv zeta.
    rewrite <- Nat.add_assoc, !Uint32At_app_r.
    pose proof (descBytes_bounds base
           (before ++ module.mk (u32 s) (u32 (s + len data - 1)) (Join args " ") :: after)
           0 (List.length before)
           (module.mk (u32 s) (u32 (s + len data - 1)) (Join args " "))) as Hb.
    rewrite nth_error_app2, Nat.sub_diag in Hb by lia.
    destruct (Hb eq_refl) as [H1 H2]; cbn [module.start module.end_] in H1, H2.
    rewrite H1, H2, !u32_idem; split; reflexivity.
  - intros Hs Hfit.
    rewrite !u32_small by lia. split; [reflexivity|]. split; [reflexivity|].
    intros b. lia.
Qed.

Lemma addModule_bounds_witness :
  exists md m',
    @addModule Fixture.demoHost (Fixture.demoBoot "" []) "initrd" ["quiet"%string]
    = Ok (md, m')
    /\ module.start md = 0x100000
    /\ module.end_ md = 0x10000a.
Proof.
  destruct (@addModule_bounds Fixture.demoHost (Fixture.demoBoot "" []) "initrd"
              ["quiet"%string] (bytesOf "initrd-data") 0x100000
              (kexec.mkMemory Fixture.demoPhys
                 [kexec.mkSegment (bytesOf "initrd-data") (kexec.mkRange 0x100000 11)]))
    as (md & Hadd & _ & _ & _ & Hlow).
  - reflexivity.
  - discriminate.
  - reflexivity.
  - destruct Hlow as (Hs & He & _); [lia | vm_compute; discriminate |].
    exists md. eexists. split; [exact Hadd|]. split; [exact Hs | exact He].
Defined.

Section ModuleLoop.
Context {host : Host}.

(** One turn of the loop of [addModules], for a spec with a first token. *)
Lemma addModulesLoop_step m acc spec rest name args :
  Fields spec = name :: args ->
  addModulesLoop m acc (spec :: rest) =
  match addModule m name args with
  | Err errEmptyModule => addModulesLoop m acc rest
  | Err e => Err e
  | Panic => Panic
  | Ok (md, m) => addModulesLoop m (acc ++ [md]) rest
  end.
Proof. intros H. cbn [addModulesLoop]. now rewrite H. Qed.

Lemma emptyFile_true spec :
  emptyFile spec = true <->
  exists name args, Fields spec = name :: args /\ readModule name = Ok [].
Proof.
  unfold emptyFile. split.
  - destruct (Fields spec) as [|name args]; [discriminate|].
    destruct (readModule name) as [[|b data] | e |] eqn:Hread; try discriminate.
    intros _. now exists name, args.
  - intros (name & args & -> & ->). reflexivity.
Qed.

(** The loop skips a spec whose file is empty: the outcome is that of the
    list without it. *)
Lemma addModulesLoop_skip spec :
  emptyFile spec = true ->
  forall before after m acc,
    addModulesLoop m acc (before ++ spec :: after)
    = addModulesLoop m acc (before ++ after).
Proof.
  intros Hspec. apply emptyFile_true in Hspec as (name & args & Hf & Hread).
  induction before as [|s0 before IH]; intros after m acc.
  - cbn [app]. rewrite (addModulesLoop_step _ _ _ _ _ _ Hf).
    now rewrite (proj2 (addModule_empty m name args) Hread).
  - cbn [app addModulesLoop]. destruct (Fields s0) as [|n0 a0]; [reflexivity|].
    destruct (addModule m n0 a0) as [[md m1] | e |]; [apply IH | | reflexivity].
    destruct e; try reflexivity. apply IH.
Qed.

(** The loop does not get past a spec whose file cannot be read. *)
Lemma addModulesLoop_unreadable spec name args :
  Fields spec = name :: args ->
  ReadFile name = None ->
  forall before after m acc r,
    addModulesLoop m acc (before ++ spec :: after) <> Ok r.
Proof.
  intros Hf Hread.
  assert (Hadd : forall m, addModule m name args = Err (ErrOpen name)).
  { intros m. unfold addModule, readModule. now rewrite Hread. }
  induction before as [|s0 before IH]; intros after m acc r.
  - cbn [app]. rewrite (addModulesLoop_step _ _ _ _ _ _ Hf), Hadd. discriminate.
  - cbn [app addModulesLoop]. destruct (Fields s0) as [|n0 a0]; [discriminate|].
    destruct (addModule m n0 a0) as [[md m1] | e |]; [apply IH | | discriminate].
    destruct e; try discriminate. apply IH.
Qed.

(** What the loop returns: the modules that were there, then one module
    per spec whose file is not empty; only the memory of the receiver
    changes. *)
Lemma addModulesLoop_count specs : forall m acc mods m',
  addModulesLoop m acc specs = Ok (mods, m') ->
  sameBoot m m'
  /\ List.length mods
     = (List.length acc + List.length (filter (fun s => negb (emptyFile s)) specs))%nat.
Proof.
  induction specs as [|spec specs IH]; intros m acc mods m' H.
  - cbn in H. injection H as <- <-. split; [apply sameBoot_refl | cbn; lia].
  - cbn [addModulesLoop] in H. cbn [filter]. unfold emptyFile at 1.
    destruct (Fields spec) as [|name args]; [discriminate|].
    destruct (addModule m name args) as [[md m1] | e |] eqn:Hadd; [| |discriminate].
    + apply IH in H as [Hsame Hlen].
      split; [eapply sameBoot_trans; [eapply addModule_sameBoot; eassumption | exact Hsame]|].
      assert (Hne : readModule name <> Ok []).
      { intros Hempty. apply (addModule_empty m name args) in Hempty. congruence. }
      rewrite Hlen, length_app. cbn [List.length].
      destruct (readModule name) as [[|b data] | e |]; cbn [negb List.length];
        try lia. contradiction.
    + destruct e; try discriminate.
      apply (addModule_empty m name args) in Hadd. rewrite Hadd. cbn [negb].
      now apply IH.
Qed.

End ModuleLoop.

(** C8.  A module spec whose file (after optional gzip decompression) has
    zero bytes is skipped silently: the loop of [addModules] over a list
    that holds it has the outcome it has over the list without it (the same
    error or none, the same memory, the same modules), so [addModules]
    returns the same address, adds no segment and emits no descriptor for
    it.  A spec whose file cannot be read makes [addModules] fail, with the
    error of [os.Open] when it is the first spec. *)
Theorem empty_module_skipped {host : Host} (spec name : string) (args : list string) :
  Fields spec = name :: args ->
  (readModule name = Ok [] ->
     (forall before after m acc,
        addModulesLoop m acc (before ++ spec :: after)
        = addModulesLoop m acc (before ++ after))
     /\ (forall m, addModule m name args = Err errEmptyModule))
  /\ (ReadFile name = None ->
        (forall m before after r,
           Multiboot.modules m = before ++ spec :: after -> addModules m <> Ok r)
        /\ (forall m after,
              Multiboot.modules m = spec :: after -> addModules m = Err (ErrOpen name))).
Proof.
  intros Hf. split.
  - intros Hread. split.
    + apply addModulesLoop_skip. apply emptyFile_true. now exists name, args.
    + intros m. now apply addModule_empty.
  - intros Hread. split.
    + intros m before after r Hmods Hok. unfold addModules in Hok.
      apply bind_Ok in Hok as ([mods m1] & Hloop & _). rewrite Hmods in Hloop.
      now apply (addModulesLoop_unreadable spec name args Hf Hread) in Hloop.
    + intros m after Hmods. unfold addModules. rewrite Hmods.
      rewrite (addModulesLoop_step _ _ _ _ _ _ Hf).
      unfold addModule, readModule. now rewrite Hread.
Qed.

Lemma empty_module_skipped_witness :
  @addModulesLoop Fixture.demoHost (Fixture.demoBoot "" []) []
    ["initrd quiet"; "empty arg"; "initrd"]%string
  = @addModulesLoop Fixture.demoHost (Fixture.demoBoot "" []) []
      ["initrd quiet"; "initrd"]%string
  /\ @addModules Fixture.demoHost (Fixture.demoBoot "" ["missing"%string])
     = Err (ErrOpen "missing").
Proof.
  split.
  - destruct (@empty_module_skipped Fixture.demoHost "empty arg" "empty"
                ["arg"%string] eq_refl) as [Hskip _].
    destruct (Hskip eq_refl) as [Hloop _].
    exact (Hloop ["initrd quiet"%string] ["initrd"%string] (Fixture.demoBoot "" []) []).
  - destruct (@empty_module_skipped Fixture.demoHost "missing" "missing" [] eq_refl)
      as [_ Hfail].
    destruct (Hfail eq_refl) as [_ Hfirst].
    exact (Hfirst (Fixture.demoBoot "" ["missing"%string]) [] eq_refl).
Defined.

Section Tokens.




End Tokens.



(* ===================================================================== *)
(** * Properties of the info block as [Load] builds it *)
(* ===================================================================== *)

Section InfoAssembly.
Context {host : Host}.

Lemma addMmap_sameBoot m addr size m' :
  addMmap m = Ok (addr, size, m') -> sameBoot m m'.
Proof.
  unfold addMmap. intros H.
  apply bind_Ok in H as ([a mem] & _ & H).
  injection H as _ _ <-. apply sameBoot_set_mem.
Qed.

(** What [addModules] does after its loop. *)
Lemma addModules_inv m addr m' :
  addModules m = Ok (addr, m') ->
  exists mods m1 base mem1 mem2,
    addModulesLoop m [] (Multiboot.modules m) = Ok (mods, m1)
    /\ FindSpace (Multiboot.mem m1) (len (cmdBytes mods ++ descBytes 0 0 mods))
       = inr (base, mem1)
    /\ AddKexecSegment mem1 (cmdBytes mods ++ descBytes base 0 mods) = inr (addr, mem2)
    /\ m' = Multiboot.set_mem mem2 m1.
Proof.
  unfold addModules. intros H.
  apply bind_Ok in H as ([mods m1] & Hloop & H).
  unfold modulesSize in H. rewrite marshalModules_layout in H. cbn [bind] in H.
  apply bind_Ok in H as ([base mem1] & Hfind & H). apply liftK_Ok in Hfind.
  rewrite marshalModules_layout in H. cbn [bind] in H.
  apply bind_Ok in H as ([addr' mem2] & Hadd & H). apply liftK_Ok in Hadd.
  injection H as <- <-.
  exists mods, m1, base, mem1, mem2. repeat split; assumption.
Qed.

Lemma addModules_sameBoot m addr m' : addModules m = Ok (addr, m') -> sameBoot m m'.
Proof.
  intros H. apply addModules_inv in H as (mods & m1 & base & mem1 & mem2 & Hloop & _ & _ & ->).
  apply addModulesLoop_count in Hloop as [Hsame _].
  eapply sameBoot_trans; [exact Hsame | apply sameBoot_set_mem].
Qed.

(** What [newMultibootInfo] returns. *)
Lemma newMultibootInfo_inv m iw m' :
  newMultibootInfo m = Ok (iw, m') ->
  sameBoot m m'
  /\ CmdLine iw = Multiboot.cmdLine m
  /\ BootLoaderName iw = Multiboot.bootloader m
  /\ hasFlag (Info.Flags (Info_ iw)) flagInfoCmdLine
  /\ hasFlag (Info.Flags (Info_ iw)) flagInfoBootLoaderName
  /\ (Multiboot.modules m <> [] ->
      exists m0 m1 addr,
        sameBoot m m0
        /\ addModules m0 = Ok (addr, m1)
        /\ Info.ModsCount (Info_ iw) = u32 (len (Multiboot.modules m))
        /\ Info.ModsAddr (Info_ iw) = u32 addr
        /\ hasFlag (Info.Flags (Info_ iw)) flagInfoMods).
Proof.
  unfold newMultibootInfo. intros H.
  apply bind_Ok in H as ([[mmapAddr mmapSize] m0] & Hmmap & H).
  apply addMmap_sameBoot in Hmmap.
  cbn beta iota zeta in H.
  set (info0 := if negb _ then _ else Info.zero) in H.
  apply bind_Ok in H as ([info m2] & Hmods & H).
  cbn beta iota zeta in H. injection H as <- <-.
  cbn [CmdLine BootLoaderName Info_ Info.Flags Info.set_Flags Info.set_BootLoaderName
       Info.set_CmdLine Info.ModsCount Info.ModsAddr].
  assert (Hflags : forall F,
             hasFlag (Z.lor F (Z.lor flagInfoCmdLine flagInfoBootLoaderName)) flagInfoCmdLine
             /\ hasFlag (Z.lor F (Z.lor flagInfoCmdLine flagInfoBootLoaderName))
                        flagInfoBootLoaderName).
  { intros F. split; apply hasFlag_lor_r.
    - apply hasFlag_lor_l, hasFlag_refl.
    - apply hasFlag_lor_r, hasFlag_refl. }
  destruct (0 <? len (Multiboot.modules m0)) eqn:Hnonempty.
  - apply bind_Ok in Hmods as ([modAddr m3] & Hadd & Hmods).
    cbn beta iota zeta in Hmods. injection Hmods as <- <-.
    pose proof (addModules_sameBoot _ _ _ Hadd) as Hsame3.
    pose proof (sameBoot_trans _ _ _ Hmmap Hsame3) as Hsame.
    split; [exact Hsame|].
    split; [now apply sameBoot_cmdLine|].
    split; [now apply sameBoot_bootloader|].
    split; [apply Hflags|]. split; [apply Hflags|].
    intros _. exists m0, m3, modAddr.
    split; [exact Hmmap|]. split; [exact Hadd|].
    cbn [Info.ModsCount Info.ModsAddr Info.set_Mods Info.set_Flags Info.Flags].
    rewrite (sameBoot_modules _ _ Hsame).
    split; [reflexivity|]. split; [reflexivity|].
    apply hasFlag_lor_l, hasFlag_lor_r, hasFlag_refl.
  - injection Hmods as <- <-.
    split; [exact Hmmap|].
    split; [now apply sameBoot_cmdLine|].
    split; [now apply sameBoot_bootloader|].
    split; [apply Hflags|]. split; [apply Hflags|].
    intros Hne. exfalso. rewrite (sameBoot_modules _ _ Hmmap) in Hnonempty.
    apply Z.ltb_ge in Hnonempty. unfold len in Hnonempty.
    destruct (Multiboot.modules m); [contradiction | cbn in Hnonempty; lia].
Qed.

End InfoAssembly.

(** C2, as stated, fails above 4 GiB.  Marshalled at base [2^32], the
    [CmdLine] field holds 108, not [2^32 + sizeofInfo], so [CmdLine - base]
    is negative and is not the offset of the command line. *)
Lemma marshal_pointers_not_as_stated :
  let iw := mkInfoWrapper Info.zero "root=/" bootloader in
  let A := 0x100000000 in
  exists d,
    marshal iw A = Ok d
    /\ Uint32At d offsetCmdLine = 108
    /\ Uint32At d offsetCmdLine <> A + sizeofInfo
    /\ Uint32At d offsetCmdLine - A < 0
    /\ Uint32At d offsetBootLoaderName <> A + sizeofInfo + slen (CmdLine iw) + 1.
Proof.
  cbv zeta. eexists. split; [vm_compute; reflexivity|].
  split; [vm_compute; reflexivity|].
  split; [vm_compute; discriminate|].
  split; [vm_compute; reflexivity|]. vm_compute; discriminate.
Qed.

(** C2 (amended).  Marshalled with base [A], the info block of command line
    [c] and bootloader name [b] has [CmdLine = (A + sizeofInfo) mod 2^32]
    and [BootLoaderName = (A + sizeofInfo + len(c) + 1) mod 2^32]; its bytes
    hold [c] and a zero byte at offset [sizeofInfo], and [b] and a zero byte
    at offset [sizeofInfo + len(c) + 1].  When the pointers fit in 32 bits
    ([A + sizeofInfo + len(c) + 1 < 2^32]) they are [A + sizeofInfo] and
    [A + sizeofInfo + len(c) + 1], so [CmdLine - A] and [BootLoaderName - A]
    are the offsets of the two strings.  The info block [newMultibootInfo]
    builds has [flagInfoCmdLine] and [flagInfoBootLoaderName] set, and the
    marshalled flags word keeps them. *)
Theorem marshal_pointers (iw : infoWrapper) (A : Z) :
  let c := CmdLine iw in
  let b := BootLoaderName iw in
  exists d,
    marshal iw A = Ok d
    /\ Uint32At d offsetCmdLine = u32 (A + sizeofInfo)
    /\ Uint32At d offsetBootLoaderName = u32 (A + sizeofInfo + slen c + 1)
    /\ stringAt d sizeofInfo c
    /\ stringAt d (sizeofInfo + slen c + 1) b
    /\ (0 <= A -> A + sizeofInfo + slen c + 1 < 2 ^ 32 ->
        Uint32At d offsetCmdLine = A + sizeofInfo
        /\ Uint32At d offsetBootLoaderName = A + sizeofInfo + slen c + 1
        /\ stringAt d (Uint32At d offsetCmdLine - A) c
        /\ stringAt d (Uint32At d offsetBootLoaderName - A) b)
    /\ (forall (host : Host) m m',
          newMultibootInfo m = Ok (iw, m') ->
          c = Multiboot.cmdLine m
          /\ b = Multiboot.bootloader m
          /\ hasFlag (Uint32At d offsetFlags) flagInfoCmdLine
          /\ hasFlag (Uint32At d offsetFlags) flagInfoBootLoaderName).
Proof.
  intros c b. destruct (marshal_layout iw A) as (pad & _ & Hd).
  fold c b in Hd. eexists. split; [exact Hd|].
  match type of Hd with
  | _ = Ok (Info.binaryWrite ?i ++ ?rest) =>
      destruct (binaryWrite_fields i rest) as (Hflags & Hcmd & Hboot);
      set (info := i) in *; set (tail := rest) in *
  end.
  assert (Hc : Uint32At (Info.binaryWrite info ++ tail) offsetCmdLine = u32 (A + sizeofInfo)).
  { rewrite Hcmd. unfold info. cbn [Info.CmdLine Info.set_BootLoaderName Info.set_CmdLine].
    rewrite u32_idem, u32_add_r. f_equal. lia. }
  assert (Hb : Uint32At (Info.binaryWrite info ++ tail) offsetBootLoaderName
               = u32 (A + sizeofInfo + slen c + 1)).
  { rewrite Hboot. unfold info.
    cbn [Info.BootLoaderName Info.set_BootLoaderName Info.set_CmdLine].
    rewrite u32_idem, u32_add_l, u32_add_r.
    replace (sizeofInfo + u32 A + (u32 (slen c) + 1))
      with (u32 A + (sizeofInfo + u32 (slen c) + 1)) by lia.
    rewrite u32_add_l.
    replace (A + (sizeofInfo + u32 (slen c) + 1))
      with (u32 (slen c) + (A + sizeofInfo + 1)) by lia.
    rewrite u32_add_l. f_equal. lia. }
  assert (Hsc : stringAt (Info.binaryWrite info ++ tail) sizeofInfo c).
  { split; [rewrite sizeofInfo_eq; lia|].
    rewrite skipn_app_exact by (rewrite binaryWrite_length; reflexivity).
    unfold tail. apply firstn_app_exact.
    rewrite length_app, bytesOf_length. reflexivity. }
  assert (Hsb : stringAt (Info.binaryWrite info ++ tail) (sizeofInfo + slen c + 1) b).
  { unfold slen. split; [rewrite sizeofInfo_eq; lia|].
    unfold tail. rewrite (app_assoc (Info.binaryWrite info) (bytesOf c ++ [x00])).
    rewrite skipn_app_exact.
    - apply firstn_app_exact. rewrite length_app, bytesOf_length. reflexivity.
    - rewrite !length_app, binaryWrite_length, bytesOf_length, sizeofInfo_eq.
      cbn [List.length]. lia. }
  split; [exact Hc|]. split; [exact Hb|]. split; [exact Hsc|]. split; [exact Hsb|].
  split.
  - intros HA Hfit. rewrite Hc, Hb.
    pose proof sizeofInfo_eq. unfold slen in *.
    rewrite !u32_small by lia.
    split; [reflexivity|]. split; [reflexivity|]. split.
    + replace (A + sizeofInfo - A) with sizeofInfo by lia. exact Hsc.
    + replace (A + sizeofInfo + Z.of_nat (String.length c) + 1 - A)
        with (sizeofInfo + Z.of_nat (String.length c) + 1) by lia.
      exact Hsb.
  - intros host m m' Hnew.
    apply newMultibootInfo_inv in Hnew as (_ & Hcm & Hbm & Hf1 & Hf2 & _).
    split; [exact Hcm|]. split; [exact Hbm|].
    rewrite Hflags. unfold info.
    cbn [Info.Flags Info.set_BootLoaderName Info.set_CmdLine].
    split; apply hasFlag_u32; try assumption; vm_compute; split; congruence.
Qed.

Lemma marshal_pointers_witness :
  exists iw m' d,
    @newMultibootInfo Fixture.demoHost (Fixture.demoBoot "root=/" []) = Ok (iw, m')
    /\ marshal iw 0x200000 = Ok d
    /\ Uint32At d offsetCmdLine = 0x200000 + sizeofInfo
    /\ stringAt d (Uint32At d offsetCmdLine - 0x200000) "root=/"
    /\ stringAt d (Uint32At d offsetBootLoaderName - 0x200000) bootloader
    /\ hasFlag (Uint32At d offsetFlags) flagInfoCmdLine
    /\ hasFlag (Uint32At d offsetFlags) flagInfoBootLoaderName.
Proof.
  destruct (@newMultibootInfo Fixture.demoHost (Fixture.demoBoot "root=/" []))
    as [[iw m'] | e |] eqn:Hnew; [| vm_compute in Hnew; discriminate Hnew ..].
  destruct (marshal_pointers iw 0x200000)
    as (d & Hd & _ & _ & _ & _ & Hexact & Hflags).
  destruct (Hflags Fixture.demoHost _ _ Hnew) as (Hc & Hb & Hf1 & Hf2).
  change (CmdLine iw = "root=/"%string) in Hc.
  change (BootLoaderName iw = bootloader) in Hb.
  rewrite Hc, Hb in Hexact.
  destruct Hexact as (Hp1 & _ & Hs1 & Hs2); [lia | vm_compute; reflexivity |].
  exists iw, m', d.
  split; [reflexivity|]. split; [exact Hd|]. split; [exact Hp1|].
  split; [exact Hs1|]. split; [exact Hs2|]. split; [exact Hf1 | exact Hf2].
Defined.

Section LoadedInfo.
Context {host : Host}.

Lemma addInfo_inv m addr m' :
  addInfo m = Ok (addr, m') ->
  exists iw m1 base mem1 mem2 d,
    newMultibootInfo m = Ok (iw, m1)
    /\ marshal iw base = Ok d
    /\ AddKexecSegment mem1 d = inr (addr, mem2)
    /\ m' = Multiboot.set_mem mem2 m1.
Proof.
  unfold addInfo. intros H.
  apply bind_Ok in H as ([iw m1] & Hnew & H). cbn beta iota zeta in H.
  apply bind_Ok in H as (size & _ & H).
  apply bind_Ok in H as ([base mem1] & _ & H). cbn beta iota zeta in H.
  apply bind_Ok in H as (d & Hd & H).
  apply bind_Ok in H as ([addr' mem2] & Hadd & H). apply liftK_Ok in Hadd.
  cbn beta iota zeta in H. injection H as <- <-.
  exists iw, m1, base, mem1, mem2, d. repeat split; assumption.
Qed.




End LoadedInfo.



Section MemoryBounds.

Lemma lowerBound_nonneg phys : 0 <= lowerBound phys.
Proof.
  unfold lowerBound. induction (filter _ phys) as [|r l IH]; cbn; lia.
Qed.

Lemma upperBound_nonneg phys : 0 <= upperBound phys.
Proof.
  unfold upperBound. induction (filter _ phys) as [|r l IH]; cbn; lia.
Qed.

Lemma lowerBound_cons r phys :
  lowerBound (r :: phys)
  = if ramFrom (640 * 1024) r
    then Z.max (kexec.rangeEnd (kexec.Range_ r)) (lowerBound phys)
    else lowerBound phys.
Proof. unfold lowerBound. cbn [filter]. now destruct (ramFrom _ r). Qed.

Lemma upperBound_cons r phys :
  upperBound (r :: phys)
  = if ramFrom 1048576 r
    then Z.max (kexec.rangeEnd (kexec.Range_ r) - 1048576) (upperBound phys)
    else upperBound phys.
Proof. unfold upperBound. cbn [filter]. now destruct (ramFrom _ r). Qed.

(** The loop of [memoryBoundaries] computes the two maxima as long as no
    RAM range reaches 4 GiB. *)
Lemma boundary_loop phys : forall lower upper,
  Forall below4G phys ->
  0 <= lower < 2 ^ 32 ->
  0 <= upper -> upper + 1048576 < 2 ^ 32 ->
  fold_left boundaryStep phys (lower, upper)
  = (Z.max lower (lowerBound phys), Z.max upper (upperBound phys)).
Proof.
  induction phys as [|r phys IH]; intros lower upper Hall Hlo Hup Hup'.
  - cbn. f_equal; lia.
  - inversion Hall as [|? ? Hr Hrest]; subst. cbn [fold_left].
    pose proof (lowerBound_nonneg phys). pose proof (upperBound_nonneg phys).
    rewrite lowerBound_cons, upperBound_cons.
    unfold ramFrom, boundaryStep, below4G, kexec.rangeEnd in *.
    destruct (kexec.isRAM (kexec.Type_ r)); cbn [negb andb].
    + destruct (Hr eq_refl) as (Hs & Hz & He).
      set (s := kexec.Start (kexec.Range_ r)) in *.
      set (z := kexec.Size (kexec.Range_ r)) in *.
      assert (Hend : u32 (u32 s + u32 z) = s + z).
      { rewrite u32_add_l, u32_add_r. apply u32_small. lia. }
      rewrite Hend. rewrite (u32_small (upper + 1048576)) by lia.
      destruct (Z.leb_spec s (640 * 1024)), (Z.leb_spec s 1048576),
               (Z.ltb_spec lower (s + z)), (Z.ltb_spec (upper + 1048576) (s + z));
        cbn [andb]; try rewrite (u32_small (s + z - 1048576)) by lia.
      all: rewrite IH; [f_equal; lia | assumption | lia | lia | lia].
    + rewrite IH by assumption. reflexivity.
Qed.

Lemma memoryBoundaries_below4G m :
  Forall below4G (kexec.Phys (Multiboot.mem m)) ->
  memoryBoundaries m
  = (lowerBound (kexec.Phys (Multiboot.mem m)), upperBound (kexec.Phys (Multiboot.mem m))).
Proof.
  intros H. unfold memoryBoundaries. rewrite boundary_loop by (assumption || lia).
  pose proof (lowerBound_nonneg (kexec.Phys (Multiboot.mem m))).
  pose proof (upperBound_nonneg (kexec.Phys (Multiboot.mem m))).
  f_equal; lia.
Qed.

Lemma min_saturates x : 0 <= x < 2 ^ 32 -> min (u32 (Z.shiftr x 10)) 0xFFFFFFFF = toKiB x.
Proof.
  intros Hx. unfold min, toKiB. rewrite Z.shiftr_div_pow2 by lia.
  change (2 ^ 10) with 1024.
  pose proof (Z.div_mod x 1024 ltac:(lia)).
  pose proof (Z.mod_pos_bound x 1024 ltac:(lia)).
  rewrite u32_small by lia.
  destruct (Z.ltb_spec (x / 1024) 0xFFFFFFFF); lia.
Qed.

(** Below 4 GiB the info block reports the two maxima of the design
    document, in KiB. *)
Lemma newMultibootInfo_memory {host : Host} m iw m' :
  newMultibootInfo m = Ok (iw, m') ->
  Z.land (Flags (Multiboot.header m)) flagHeaderMemoryInfo <> 0 ->
  exists addr size m0,
    addMmap m = Ok (addr, size, m0)
    /\ (Forall below4G (kexec.Phys (Multiboot.mem m0)) ->
        Info.MemLower (Info_ iw) = toKiB (lowerBound (kexec.Phys (Multiboot.mem m0)))
        /\ Info.MemUpper (Info_ iw) = toKiB (upperBound (kexec.Phys (Multiboot.mem m0)))).
Proof.
  unfold newMultibootInfo. intros H Hflag.
  apply bind_Ok in H as ([[mmapAddr mmapSize] m0] & Hmmap & H).
  exists mmapAddr, mmapSize, m0. split; [exact Hmmap|]. intros Hbelow.
  cbn beta iota zeta in H.
  pose proof (addMmap_sameBoot _ _ _ _ Hmmap) as Hsame.
  pose proof (sameBoot_header _ _ Hsame) as Hhdr.
  rewrite Hhdr in H. rewrite (proj2 (Z.eqb_neq _ _) Hflag) in H. cbn [negb] in H.
  rewrite (memoryBoundaries_below4G m0 Hbelow) in H.
  pose proof (lowerBound_nonneg (kexec.Phys (Multiboot.mem m0))) as Hl0.
  pose proof (upperBound_nonneg (kexec.Phys (Multiboot.mem m0))) as Hu0.
  assert (Hbound : lowerBound (kexec.Phys (Multiboot.mem m0)) < 2 ^ 32
                   /\ upperBound (kexec.Phys (Multiboot.mem m0)) < 2 ^ 32).
  { clear H. induction Hbelow as [|r phys Hr _ IH].
    - split; reflexivity.
    - rewrite lowerBound_cons, upperBound_cons. unfold ramFrom, below4G in *.
      pose proof (lowerBound_nonneg phys). pose proof (upperBound_nonneg phys).
      destruct (kexec.isRAM (kexec.Type_ r)); cbn [andb]; [|apply IH; assumption].
      destruct (Hr eq_refl) as (? & ? & ?). destruct IH as [? ?]; try assumption.
      destruct (_ <=? _), (_ <=? _); split; lia. }
  apply bind_Ok in H as ([info m2] & Hmods & H).
  cbn beta iota zeta in H. injection H as <- _.
  cbn [Info_ Info.MemLower Info.MemUpper Info.set_Flags Info.set_BootLoaderName
       Info.set_CmdLine].
  destruct (0 <? len (Multiboot.modules m0)).
  - apply bind_Ok in Hmods as ([modAddr m3] & _ & Hmods).
    cbn beta iota zeta in Hmods. injection Hmods as <- _.
    cbn [Info.MemLower Info.MemUpper Info.set_Flags Info.set_Mods].
    split; apply min_saturates; lia.
  - injection Hmods as <- _. cbn [Info.MemLower Info.MemUpper].
    split; apply min_saturates; lia.
Qed.

End MemoryBounds.

(** C6 (evaluated on the code).  With a RAM range from 1 MiB to 5 GiB,
    [memoryBoundaries] takes the end of the range modulo 2^32: the info
    block reports [MemUpper = 1047552] KiB (1 GiB less 1 MiB) where the
    maximum of the claim, in KiB, is 5241856.  [min(..., 0xFFFFFFFF)] is
    applied to a value that is already a [uint32]. *)
Theorem memoryBoundaries_wraps :
  let m := Fixture.bootWith bigPhys "" [] in
  Z.land (Flags (Multiboot.header m)) flagHeaderMemoryInfo <> 0
  /\ memoryBoundaries m = (0x9fc00, 0x3ff00000)
  /\ (exists iw m',
        @newMultibootInfo Fixture.demoHost m = Ok (iw, m')
        /\ Info.MemLower (Info_ iw) = 639
        /\ Info.MemUpper (Info_ iw) = 1047552)
  /\ toKiB (lowerBound bigPhys) = 639
  /\ toKiB (upperBound bigPhys) = 5241856.
Proof.
  cbv zeta. split; [vm_compute; discriminate|]. split; [vm_compute; reflexivity|].
  split.
  - eexists. eexists. split; [vm_compute; reflexivity|]. split; reflexivity.
  - split; vm_compute; reflexivity.
Qed.

(* ===================================================================== *)
(** * Range subtraction *)
(* ===================================================================== *)

Section RangeSubtraction.
Import kexec.

Example TestMemorySub :
  sub testMemory =
  [ mkPhys (mkRange 50 50) RangeRAM; mkPhys (mkRange 200 50) RangeRAM;
    mkPhys (mkRange 400 10) RangeRAM; mkPhys (mkRange 490 10) RangeRAM ].
Proof. reflexivity. Qed.

Lemma covered_nil b : covered [] b <-> False.
Proof. unfold covered. apply Exists_nil. Qed.

Lemma covered_cons r rs b : covered (r :: rs) b <-> contains r b \/ covered rs b.
Proof. unfold covered. apply Exists_cons. Qed.

Lemma covered_app rs1 rs2 b : covered (rs1 ++ rs2) b <-> covered rs1 b \/ covered rs2 b.
Proof. unfold covered. apply Exists_app. Qed.

(** Removing one hole from one gap. *)
Lemma cut_covered hole gap b :
  covered (cut hole gap) b <-> contains gap b /\ ~ contains hole b.
Proof.
  unfold cut. destruct (Z.leb_spec (Size hole) 0) as [Hempty | Hpos].
  - rewrite covered_cons, covered_nil. unfold contains, rangeEnd. lia.
  - rewrite covered_app.
    destruct (Z.ltb_spec (Start gap) (Z.min (rangeEnd gap) (Start hole)));
      destruct (Z.ltb_spec (Z.max (Start gap) (rangeEnd hole)) (rangeEnd gap));
      rewrite ?covered_cons, ?covered_nil;
      unfold contains, rangeEnd in *; cbn [Start Size]; lia.
Qed.

Lemma cut_all_covered hole gaps b :
  covered (flat_map (cut hole) gaps) b <-> covered gaps b /\ ~ contains hole b.
Proof.
  induction gaps as [|g gaps IH]; cbn [flat_map].
  - rewrite covered_nil. tauto.
  - rewrite covered_app, covered_cons, cut_covered, IH. tauto.
Qed.

Lemma holes_covered holes : forall gaps b,
  covered (fold_left (fun gaps hole => flat_map (cut hole) gaps) holes gaps) b
  <-> covered gaps b /\ ~ covered holes b.
Proof.
  induction holes as [|h holes IH]; intros gaps b; cbn [fold_left].
  - rewrite covered_nil. tauto.
  - rewrite IH, cut_all_covered, covered_cons. tauto.
Qed.

(** The gaps of one range: its bytes that no hole covers. *)
Lemma gapsOf_covered u holes b :
  covered (gapsOf u holes) b <-> contains u b /\ ~ covered holes b.
Proof.
  unfold gapsOf. rewrite holes_covered.
  destruct (Z.ltb_spec 0 (Size u)).
  - rewrite covered_cons, covered_nil. tauto.
  - rewrite covered_nil. unfold contains, rangeEnd. lia.
Qed.

Lemma ranges_tagged t gs : ranges (map (fun g => mkPhys g t) gs) = gs.
Proof.
  unfold ranges. rewrite map_map. cbn [Range_]. apply map_id.
Qed.

Lemma chain_weaken lo lo' hi gs : lo' <= lo -> chain lo hi gs -> chain lo' hi gs.
Proof.
  destruct gs; cbn [chain]; [tauto|].
  intros Hle (H1 & H2 & H3 & H4). repeat split; try assumption. lia.
Qed.

Lemma chain_positive lo hi gs : chain lo hi gs -> Forall (fun g => 0 < Size g) gs.
Proof.
  revert lo. induction gs as [|g gs IH]; intros lo H; constructor.
  - apply H.
  - apply (IH (rangeEnd g + 1)), H.
Qed.

(** The head of a chain: three bounds, then the chain that follows. *)
Ltac chain_step :=
  cbn [chain]; unfold rangeEnd; cbn [Start Size];
  (split; [lia|]); (split; [lia|]); (split; [lia|]).

(** Removing a hole keeps the gaps in order, apart and within bounds. *)
Lemma cut_chain hole hi gaps : forall lo,
  chain lo hi gaps -> chain lo hi (flat_map (cut hole) gaps).
Proof.
  induction gaps as [|g gaps IH]; intros lo H; [exact I|].
  cbn [flat_map]. cbn [chain] in H. destruct H as (Hlo & Hsize & Hhi & Hrest).
  apply IH in Hrest. set (rest := flat_map (cut hole) gaps) in *.
  unfold cut. destruct (Z.leb_spec (Size hole) 0) as [Hempty | Hpos].
  - cbn [app chain]. tauto.
  - unfold rangeEnd in *.
    destruct (Z.ltb_spec (Start g) (Z.min (Start g + Size g) (Start hole)));
      destruct (Z.ltb_spec (Z.max (Start g) (Start hole + Size hole)) (Start g + Size g));
      cbn [app].
    + chain_step. chain_step. eapply chain_weaken; [|exact Hrest]. lia.
    + chain_step. eapply chain_weaken; [|exact Hrest]. lia.
    + chain_step. eapply chain_weaken; [|exact Hrest]. lia.
    + eapply chain_weaken; [|exact Hrest]. lia.
Qed.

Lemma gapsOf_chain u holes : chain (Start u) (rangeEnd u) (gapsOf u holes).
Proof.
  unfold gapsOf.
  assert (H0 : chain (Start u) (rangeEnd u) (if 0 <? Size u then [u] else [])).
  { destruct (Z.ltb_spec 0 (Size u)); cbn [chain]; [lia | exact I]. }
  revert H0. generalize (if 0 <? Size u then [u] else []).
  induction holes as [|h holes IH]; intros gaps H; cbn [fold_left]; [exact H|].
  apply IH, cut_chain, H.
Qed.


Lemma subtract_nonempty U h holes :
  subtract U (h :: holes)
  = flat_map (fun u => map (fun g => mkPhys g (Type_ u)) (gapsOf (Range_ u) (h :: holes))) U.
Proof. reflexivity. Qed.

Lemma tagged_gaps_covered U holes b :
  covered (ranges (flat_map (fun u => map (fun g => mkPhys g (Type_ u))
                                          (gapsOf (Range_ u) holes)) U)) b
  <-> covered (ranges U) b /\ ~ covered holes b.
Proof.
  induction U as [|u U IH]; cbn [flat_map].
  - unfold ranges. cbn [map]. rewrite covered_nil. tauto.
  - unfold ranges in *. rewrite map_app. cbn [map].
    rewrite covered_app, covered_cons, IH.
    fold (ranges (map (fun g => mkPhys g (Type_ u)) (gapsOf (Range_ u) holes))).
    rewrite ranges_tagged, gapsOf_covered. tauto.
Qed.

Lemma tagged_gaps_positive U holes :
  positive (flat_map (fun u => map (fun g => mkPhys g (Type_ u))
                                   (gapsOf (Range_ u) holes)) U).
Proof.
  unfold positive. induction U as [|u U IH]; cbn [flat_map]; [constructor|].
  apply Forall_app. split; [|exact IH].
  apply Forall_map. cbn [Range_].
  exact (chain_positive _ _ _ (gapsOf_chain (Range_ u) holes)).
Qed.

Lemma flat_map_singleton {A} (l : list A) : flat_map (fun x => [x]) l = l.
Proof. induction l as [|x l IH]; cbn; [reflexivity | now rewrite IH]. Qed.

End RangeSubtraction.

(** C7, as stated, fails on a universe range without bytes: with no holes
    the output cannot both equal the universe and have only ranges of
    positive size. *)
Lemma sub_not_as_stated :
  let m := kexec.mkMemory emptyUniverse [] in
  kexec.sub m = kexec.Phys m /\ ~ positive (kexec.sub m).
Proof.
  cbv zeta. split; [reflexivity|].
  intros H. inversion H as [|p ps Hp _]; subst. cbn in Hp. lia.
Qed.

(** C7 (amended).  [Memory.sub] subtracts the ranges of [Segments] from
    [Phys]: a byte address lies in some output range iff it lies in some
    range of the universe and in no hole; the output is, in the order of the
    universe, the gaps of each universe range, each with the type tag of
    its range, the gaps of one range being inside it, in ascending order,
    apart from one another and of positive size; with no holes the output
    is the universe itself.  Every output range has positive size when there
    is a hole or every universe range has positive size. *)
Theorem sub_gaps (m : kexec.Memory) :
  let U := kexec.Phys m in
  let H := map kexec.SegPhys (kexec.Segments m) in
  (forall b, covered (ranges (kexec.sub m)) b <-> covered (ranges U) b /\ ~ covered H b)
  /\ (exists gaps : kexec.PhysicalMemory -> list kexec.Range,
        kexec.sub m
        = flat_map (fun u => map (fun g => kexec.mkPhys g (kexec.Type_ u)) (gaps u)) U
        /\ forall u, In u U ->
             chain (kexec.Start (kexec.Range_ u)) (kexec.rangeEnd (kexec.Range_ u)) (gaps u)
             \/ (H = [] /\ gaps u = [kexec.Range_ u]))
  /\ (H <> [] \/ positive U -> positive (kexec.sub m))
  /\ (H = [] -> kexec.sub m = U).
Proof.
  intros U H. unfold kexec.sub. fold U H. clearbody U H. clear m.
  destruct H as [|h holes].
  - cbn [kexec.subtract]. split; [|split; [|split]].
    + intros b. rewrite covered_nil. tauto.
    + exists (fun u => [kexec.Range_ u]). split.
      * rewrite <- (flat_map_singleton U) at 1. apply flat_map_ext.
        intros [r t]. reflexivity.
      * intros u _. right. split; reflexivity.
    + intros [Hne | Hpos]; [contradiction | exact Hpos].
    + reflexivity.
  - rewrite subtract_nonempty. split; [|split; [|split]].
    + intros b. apply tagged_gaps_covered.
    + exists (fun u => kexec.gapsOf (kexec.Range_ u) (h :: holes)).
      split; [reflexivity|]. intros u _. left. apply gapsOf_chain.
    + intros _. apply tagged_gaps_positive.
    + discriminate.
Qed.

Lemma sub_gaps_witness :
  positive (kexec.sub testMemory)
  /\ kexec.sub (kexec.mkMemory (kexec.Phys testMemory) []) = kexec.Phys testMemory.
Proof.
  destruct (sub_gaps testMemory) as (_ & _ & Hpos & _).
  destruct (sub_gaps (kexec.mkMemory (kexec.Phys testMemory) [])) as (_ & _ & _ & Hsame).
  split.
  - apply Hpos. left. discriminate.
  - apply Hsame. reflexivity.
Defined.

(* ===================================================================== *)
(** * Further properties of the header parser and of [Probe] *)
(* ===================================================================== *)

Section HeaderSoundness.

(** Whatever the loop returns without [ErrHeaderNotFound] is the first
    candidate that validates. *)
Lemma scanHeader_accepts : forall n hdr buf h e,
  (List.length buf <= n)%nat ->
  scanHeader hdr buf = (h, e) ->
  e <> Some ErrHeaderNotFound ->
  exists k,
    (4 * k + sizeofHeader <= List.length buf)%nat
    /\ validAt buf (4 * k) = true
    /\ (forall j, (j < k)%nat -> validAt buf (4 * j) = false)
    /\ h = headerAt buf (4 * k)
    /\ e = flagsVerdict h.
Proof.
  induction n as [n IH] using (well_founded_induction lt_wf).
  intros hdr buf h e Hn Hscan Herr. rewrite scanHeader_eq in Hscan.
  destruct (sizeofHeader <=? List.length buf)%nat eqn:Hlen.
  - apply Nat.leb_le in Hlen.
    change (readHeader buf) with (headerAt buf 0) in Hscan.
    rewrite acceptable_headerAt in Hscan.
    destruct (validAt buf 0) eqn:H0.
    + injection Hscan as <- <-. exists 0%nat. rewrite Nat.mul_0_r.
      repeat split; try assumption. intros j Hj. lia.
    + unfold sizeofHeader, mandatorySize, optionalSize in Hlen.
      apply (IH (List.length (skipn 4 buf))) in Hscan;
        [| rewrite length_skipn; lia | lia | exact Herr].
      destruct Hscan as (k & Hk & Hvalid & Hfirst & -> & ->).
      assert (Hshift : forall j, validAt (skipn 4 buf) (4 * j) = validAt buf (4 * S j)).
      { intros j. rewrite <- !acceptable_headerAt. unfold headerAt.
        rewrite skipn_skipn. now replace (4 * j + 4)%nat with (4 * S j)%nat by lia. }
      assert (Hhdr : headerAt (skipn 4 buf) (4 * k) = headerAt buf (4 * S k)).
      { unfold headerAt. rewrite skipn_skipn.
        now replace (4 * k + 4)%nat with (4 * S k)%nat by lia. }
      exists (S k). rewrite length_skipn in Hk. rewrite Hhdr.
      split; [lia|]. split; [now rewrite <- Hshift|].
      split; [|split; reflexivity].
      intros [|j] Hj; [exact H0|]. rewrite <- Hshift. apply Hfirst. lia.
  - injection Hscan as _ <-. contradiction.
Qed.

Lemma flagsVerdict_cases hdr :
  (flagsVerdict hdr = None /\ Z.land (Flags hdr) flagHeaderUnsupported = 0)
  \/ (flagsVerdict hdr = Some ErrFlagsNotSupported
      /\ Z.land (Flags hdr) flagHeaderUnsupported <> 0).
Proof.
  unfold flagsVerdict.
  destruct (Z.eqb_spec (Z.land (Flags hdr) flagHeaderUnsupported) 0); [left | right];
    split; trivial.
Qed.


End HeaderSoundness.

Section HeaderAccepted.

Lemma parseHeader_short input :
  (List.length input < mandatorySize)%nat ->
  snd (parseHeader input) = Some io_EOF
  \/ snd (parseHeader input) = Some io_ErrUnexpectedEOF.
Proof.
  intros H. unfold parseHeader, ReadAtLeast.
  pose proof headerSearch_ge as Hw.
  unfold sizeofHeader, mandatorySize, optionalSize in *.
  rewrite (proj2 (Nat.leb_gt _ _)) by lia.
  destruct (_ =? 0)%nat; cbn [snd]; tauto.
Qed.

Lemma parseHeader_accepts input hdr err :
  (mandatorySize <= List.length input)%nat ->
  parseHeader input = (hdr, err) ->
  err <> Some ErrHeaderNotFound ->
  exists k,
    (4 * k + mandatorySize <= Nat.min headerSearch (List.length input))%nat
    /\ validAt input (4 * k) = true
    /\ (forall j, (j < k)%nat -> validAt input (4 * j) = false)
    /\ hdr = headerAt (seen input) (4 * k)
    /\ err = flagsVerdict hdr.
Proof.
  intros Hlen Hparse Herr.
  rewrite parseHeader_read in Hparse by exact Hlen.
  assert (Hbuf : List.length (seen input ++ repeat x00 optionalSize)
                 = (Nat.min headerSearch (List.length input) + optionalSize)%nat).
  { unfold seen. now rewrite length_app, length_firstn, repeat_length. }
  apply (scanHeader_accepts _ _ _ _ _ (Nat.le_refl _)) in Hparse; [|exact Herr].
  destruct Hparse as (k & Hk & Hvalid & Hfirst & Hh & He).
  rewrite Hbuf in Hk. unfold sizeofHeader in Hk.
  rewrite headerAt_app_zeros in Hh.
  exists k. split; [lia|].
  split; [rewrite <- validAt_buffer by lia; exact Hvalid|].
  split; [|split; assumption].
  intros j Hj. rewrite <- validAt_buffer by lia. apply Hfirst, Hj.
Qed.


End HeaderAccepted.




(** X2.  [parseHeader] looks at no byte beyond the first 8192: an image and
    its first 8192 bytes give the same result. *)
Theorem parseHeader_first_8192 (input : list byte) :
  parseHeader input = parseHeader (firstn headerSearch input).
Proof.
  unfold parseHeader, ReadAtLeast. generalize headerSearch. intros W.
  rewrite length_firstn.
  replace (Nat.min W (Nat.min W (List.length input)))
    with (Nat.min W (List.length input)) by lia.
  destruct (mandatorySize <=? Nat.min W (List.length input))%nat;
    [|destruct (_ =? 0)%nat; reflexivity].
  rewrite firstn_firstn.
  replace (Nat.min (Nat.min W (List.length input)) W)
    with (Nat.min W (List.length input)) by lia.
  reflexivity.
Qed.

Section ProbeFile.
Context {host : Host}.

(** The first candidate that validates is the one [parseHeader] returns. *)
Lemma parseHeader_found input off :
  (off mod 4 = 0)%nat ->
  (off + mandatorySize <= Nat.min headerSearch (List.length input))%nat ->
  validAt input off = true ->
  (forall o, (o mod 4 = 0)%nat -> (o < off)%nat -> validAt input o = false) ->
  parseHeader input
  = (headerAt (seen input) off, flagsVerdict (headerAt (seen input) off)).
Proof.
  intros Hal Hin Hok Hearlier.
  assert (Hlen : (mandatorySize <= List.length input)%nat) by lia.
  assert (Hbuf : List.length (seen input ++ repeat x00 optionalSize)
                 = (Nat.min headerSearch (List.length input) + optionalSize)%nat).
  { unfold seen. now rewrite length_app, length_firstn, repeat_length. }
  rewrite parseHeader_read by exact Hlen.
  pose proof (aligned_quot off Hal) as Hq. rewrite Hq in Hin, Hok |- *.
  rewrite (scanHeader_first (off / 4)).
  - now rewrite headerAt_app_zeros.
  - rewrite Hbuf. unfold sizeofHeader. lia.
  - now rewrite validAt_buffer.
  - intros j Hj. rewrite validAt_buffer by lia.
    apply Hearlier; [|lia]. rewrite Nat.mul_comm. apply Nat.Div0.mod_mul.
Qed.

Lemma headerAt_seen_Flags input off :
  (off + mandatorySize <= Nat.min headerSearch (List.length input))%nat ->
  Flags (headerAt (seen input) off) = Uint32At input (off + 4).
Proof.
  unfold mandatorySize. intros H. unfold headerAt, readHeader, seen. cbn [Flags].
  rewrite Uint32At_skipn, Uint32At_firstn by lia. reflexivity.
Qed.

End ProbeFile.

(** X3.  [Probe] returns nil exactly for a file that can be read and whose
    first validating candidate, among the offsets that are multiples of 4
    with the mandatory words in the first 8192 bytes, has no unsupported
    flag.  A file that cannot be opened gives the error of [os.Open]. *)
Theorem Probe_nil {host : Host} (file : string) :
  (Probe file = None <->
   exists content off,
     ReadFile file = Some content
     /\ (off mod 4 = 0)%nat
     /\ (off + mandatorySize <= Nat.min headerSearch (List.length content))%nat
     /\ validAt content off = true
     /\ (forall o, (o mod 4 = 0)%nat -> (o < off)%nat -> validAt content o = false)
     /\ Z.land (Uint32At content (off + 4)) flagHeaderUnsupported = 0)
  /\ (ReadFile file = None -> Probe file = Some (ErrOpen file)).
Proof.
  split.
  - unfold Probe. split.
    + destruct (ReadFile file) as [content|]; [|discriminate].
      intros Hnil. destruct (parseHeader content) as [hdr err] eqn:Hparse.
      cbn [snd] in Hnil. subst err.
      assert (Hlen : (mandatorySize <= List.length content)%nat).
      { destruct (Nat.le_gt_cases mandatorySize (List.length content)) as [H | H];
          [exact H|].
        apply parseHeader_short in H. rewrite Hparse in H. cbn [snd] in H.
        destruct H; discriminate. }
      destruct (parseHeader_accepts content hdr None Hlen Hparse)
        as (k & Hin & Hvalid & Hfirst & Hh & Hverdict); [discriminate|].
      exists content, (4 * k)%nat.
      split; [reflexivity|].
      split; [rewrite Nat.mul_comm; apply Nat.Div0.mod_mul|].
      split; [exact Hin|]. split; [exact Hvalid|]. split.
      * intros o Hal Ho. pose proof (aligned_quot o Hal) as Hq. rewrite Hq.
        apply Hfirst. lia.
      * rewrite <- (headerAt_seen_Flags content (4 * k) Hin), <- Hh.
        destruct (flagsVerdict_cases hdr) as [[_ Hz] | [Hbad _]]; [exact Hz|].
        rewrite Hbad in Hverdict. discriminate.
    + intros (content & off & -> & Hal & Hin & Hvalid & Hfirst & Hflags).
      rewrite (parseHeader_found content off Hal Hin Hvalid Hfirst). cbn [snd].
      unfold flagsVerdict.
      now rewrite (headerAt_seen_Flags content off Hin), Hflags.
  - intros Hnone. unfold Probe. now rewrite Hnone.
Qed.

Lemma Probe_nil_witness :
  @Probe Fixture.demoHost "kernel" = None
  /\ @Probe Fixture.demoHost "missing" = Some (ErrOpen "missing").
Proof.
  destruct (@Probe_nil Fixture.demoHost "kernel") as [[_ Hnil] _].
  destruct (@Probe_nil Fixture.demoHost "missing") as [_ Hopen].
  split; [|exact (Hopen eq_refl)].
  apply Hnil. exists (validWords flagHeaderMemoryInfo), 0%nat.
  split; [reflexivity|]. split; [reflexivity|].
  split; [vm_compute; lia|]. split; [vm_compute; reflexivity|].
  split; [intros o _ Ho; lia | vm_compute; reflexivity].
Defined.

(* ===================================================================== *)
(** * Further properties of the info block *)
(* ===================================================================== *)

Section InfoTwoPass.

Lemma Ok_inj {A} (a b : A) : Ok a = Ok b -> a = b.
Proof. intros H. now injection H. Qed.

Lemma copy_length dst src : List.length (copy dst src) = List.length dst.
Proof.
  unfold copy. rewrite length_app, length_firstn, length_skipn. lia.
Qed.

(** The buffer [marshal] pads: the encoded [Info] and the two strings. *)
Lemma marshal_eq iw base :
  exists info,
    List.length (Info.binaryWrite info) = 108%nat
    /\ (forall k, ~ (16 <= k < 20)%nat -> ~ (64 <= k < 68)%nat ->
                  nth k (Info.binaryWrite info) x00
                  = nth k (Info.binaryWrite (Info_ iw)) x00)
    /\ marshal iw base
       = Ok (copy (repeat x00 (Z.to_nat (roundUp4 (108 + slen (CmdLine iw)
                                                  + slen (BootLoaderName iw) + 2))))
                  (Info.binaryWrite info
                   ++ (bytesOf (CmdLine iw) ++ [x00])
                   ++ bytesOf (BootLoaderName iw) ++ [x00])).
Proof.
  unfold marshal.
  set (info := Info.set_BootLoaderName _ _).
  exists info. split; [apply binaryWrite_length|]. split.
  - intros k H1 H2. subst info.
    generalize (u32 (u32 (sizeofInfo + u32 base) + u32 (u32 (slen (CmdLine iw)) + 1))).
    generalize (u32 (sizeofInfo + u32 base)). intros u v.
    destruct (Info_ iw) as [? ? ? ? ? ? ? [[[? ?] ?] ?] ? ? ? ? ? ? ? ? ? ? ? ? ? ? ? ? ? ? ?
                            [[[[[? ?] ?] ?] ?] ?]].
    unfold Info.binaryWrite, Info.set_BootLoaderName, Info.set_CmdLine, PutUint32, PutUint16.
    cbn -[Z_to_byte Z.shiftr].
    do 108 (destruct k as [|k]; [first [reflexivity | exfalso; lia] |]).
    reflexivity.
  - match goal with
    | |- context [roundUp4 (len ?buf)] =>
        replace (len buf)
          with (108 + slen (CmdLine iw) + slen (BootLoaderName iw) + 2)
    end.
    + now rewrite <- !app_assoc.
    + unfold len, slen.
      rewrite !length_app, binaryWrite_length, !bytesOf_length. cbn [List.length]. lia.
Qed.

End InfoTwoPass.

(** X4.  The marshalled info block has the same length for every base: the
    size of [Info] plus the two strings and their zero bytes, rounded up to
    a multiple of 4; the bytes after the second string are zero; and
    [size()] returns that length. *)
Theorem marshal_size (iw : infoWrapper) (base : Z) :
  let content := sizeofInfo + slen (CmdLine iw) + slen (BootLoaderName iw) + 2 in
  exists d,
    marshal iw base = Ok d
    /\ len d = roundUp4 content
    /\ len d mod 4 = 0
    /\ content <= len d < content + 4
    /\ (forall k, content <= Z.of_nat k -> nth k d x00 = x00)
    /\ infoSize iw = Ok (len d).
Proof.
  cbv zeta. rewrite sizeofInfo_eq.
  pose proof (roundUp4_spec (108 + slen (CmdLine iw) + slen (BootLoaderName iw) + 2))
    as [Hround Hmod].
  assert (Hsize : forall b d,
             marshal iw b = Ok d ->
             len d = roundUp4 (108 + slen (CmdLine iw) + slen (BootLoaderName iw) + 2)).
  { intros b d Hd. destruct (marshal_eq iw b) as (info & _ & _ & Heq).
    rewrite Heq in Hd. apply Ok_inj in Hd. subst d. unfold len.
    rewrite copy_length, repeat_length. unfold slen in *. lia. }
  destruct (marshal_eq iw base) as (info & Hlen & _ & Heq).
  eexists. split; [exact Heq|].
  pose proof (Hsize base _ Heq) as Hd.
  split; [exact Hd|]. split; [now rewrite Hd|]. split; [rewrite Hd; exact Hround|].
  split.
  - intros k Hk.
    set (buf := Info.binaryWrite info ++ _) in *.
    assert (Hbuf : Z.of_nat (List.length buf)
                   = 108 + slen (CmdLine iw) + slen (BootLoaderName iw) + 2).
    { unfold buf, slen.
      rewrite !length_app, Hlen, !bytesOf_length. cbn [List.length]. lia. }
    rewrite copy_into_zeros by lia.
    rewrite app_nth2 by lia. apply nth_repeat.
  - unfold infoSize. destruct (marshal_eq iw 0) as (info0 & _ & _ & Heq0).
    rewrite Heq0. cbn [bind]. f_equal.
    rewrite (Hsize 0 _ Heq0). symmetry. exact Hd.
Qed.

Lemma marshal_size_witness :
  exists d,
    marshal (mkInfoWrapper Info.zero "root" "u-root kexec") 0x1000 = Ok d
    /\ len d = 128
    /\ nth 126 d x00 = x00.
Proof.
  destruct (marshal_size (mkInfoWrapper Info.zero "root" "u-root kexec") 0x1000)
    as (d & Hd & Hlen & _ & _ & Hzero & _).
  exists d. split; [exact Hd|]. split; [rewrite Hlen; reflexivity|].
  apply Hzero. vm_compute. discriminate.
Defined.

(** X5.  Marshalling the same info block with two bases gives byte strings
    of the same length that differ at most in the two pointer words, bytes
    16 to 19 ([CmdLine]) and 64 to 67 ([BootLoaderName]); outside them the
    first 108 bytes are the encoding of the [Info] as it was given. *)
Theorem marshal_base_frame (iw : infoWrapper) (base1 base2 : Z) :
  exists d1 d2,
    marshal iw base1 = Ok d1
    /\ marshal iw base2 = Ok d2
    /\ List.length d1 = List.length d2
    /\ forall k, ~ (16 <= k < 20)%nat -> ~ (64 <= k < 68)%nat ->
         nth k d1 x00 = nth k d2 x00
         /\ ((k < 108)%nat -> nth k d1 x00 = nth k (Info.binaryWrite (Info_ iw)) x00).
Proof.
  destruct (marshal_eq iw base1) as (info1 & Hlen1 & Hframe1 & Heq1).
  destruct (marshal_eq iw base2) as (info2 & Hlen2 & Hframe2 & Heq2).
  eexists. eexists. split; [exact Heq1|]. split; [exact Heq2|].
  split; [now rewrite !copy_length|].
  pose proof (roundUp4_spec (108 + slen (CmdLine iw) + slen (BootLoaderName iw) + 2))
    as [Hround _].
  set (n := Z.to_nat _) in *.
  set (tail := (bytesOf (CmdLine iw) ++ [x00]) ++ bytesOf (BootLoaderName iw) ++ [x00]).
  assert (Htail : Z.of_nat (List.length tail)
                  = slen (CmdLine iw) + slen (BootLoaderName iw) + 2).
  { unfold tail, slen. rewrite !length_app, !bytesOf_length. cbn [List.length]. lia. }
  assert (Hnth : forall info k,
             List.length (Info.binaryWrite info) = 108%nat ->
             nth k (copy (repeat x00 n) (Info.binaryWrite info ++ tail)) x00
             = if (k <? 108)%nat then nth k (Info.binaryWrite info) x00
               else nth (k - 108) (tail ++ repeat x00 (n - (108 + List.length tail))) x00).
  { intros info k Hlen.
    rewrite copy_into_zeros by (rewrite length_app, Hlen; unfold n; lia).
    rewrite length_app, Hlen, <- app_assoc.
    destruct (Nat.ltb_spec k 108).
    - now rewrite app_nth1 by lia.
    - rewrite app_nth2 by lia. now rewrite Hlen. }
  intros k H1 H2. rewrite !Hnth by assumption.
  destruct (Nat.ltb_spec k 108).
  - rewrite Hframe1, Hframe2 by assumption. split; reflexivity.
  - split; [reflexivity | lia].
Qed.

Lemma marshal_base_frame_witness :
  exists d1 d2,
    marshal (mkInfoWrapper Info.zero "root" "u-root kexec") 0 = Ok d1
    /\ marshal (mkInfoWrapper Info.zero "root" "u-root kexec") 0x1000 = Ok d2
    /\ nth 108 d1 x00 = nth 108 d2 x00.
Proof.
  destruct (marshal_base_frame (mkInfoWrapper Info.zero "root" "u-root kexec") 0 0x1000)
    as (d1 & d2 & H1 & H2 & _ & Hframe).
  exists d1, d2. split; [exact H1|]. split; [exact H2|].
  apply (Hframe 108%nat); lia.
Defined.

(* ===================================================================== *)
(** * Further properties of the module loader *)
(* ===================================================================== *)

Section ModulesBlock.

Lemma cmdBytes_cons md ms :
  cmdBytes (md :: ms) = (bytesOf (module.cmdLine md) ++ [x00]) ++ cmdBytes ms.
Proof. reflexivity. Qed.

Lemma cmdBytes_cons_len md ms :
  len (cmdBytes (md :: ms)) = slen (module.cmdLine md) + 1 + len (cmdBytes ms).
Proof.
  rewrite cmdBytes_cons. unfold len, slen.
  rewrite !length_app, bytesOf_length. cbn [List.length]. lia.
Qed.

(** The third and fourth words of the [k]-th descriptor. *)
Lemma descBytes_pointer base ms : forall acc k md,
  nth_error ms k = Some md ->
  Uint32At (descBytes base acc ms) (16 * k + 8)
  = u32 (base + (acc + len (cmdBytes (firstn k ms))))
  /\ Uint32At (descBytes base acc ms) (16 * k + 12) = 0.
Proof.
  induction ms as [|md0 ms IH]; intros acc k md Hk.
  - destruct k; discriminate.
  - destruct k as [|k]; cbn [nth_error] in Hk.
    + cbn [descBytes firstn]. unfold ModuleDescriptor.binaryWrite.
      cbn [ModuleDescriptor.Start ModuleDescriptor.End_ ModuleDescriptor.CmdLine
           ModuleDescriptor.Reserved].
      rewrite <- !app_assoc. split.
      * rewrite (app_assoc (PutUint32 _) (PutUint32 _)).
        change (16 * 0 + 8)%nat
          with (List.length (PutUint32 (module.start md0) ++ PutUint32 (module.end_ md0))).
        rewrite Uint32At_PutUint32_in, u32_idem, u32_add_l, u32_add_r.
        f_equal. unfold cmdBytes, len. cbn. lia.
      * rewrite (app_assoc (PutUint32 _) (PutUint32 _)),
          (app_assoc (_ ++ _) (PutUint32 _)).
        change (16 * 0 + 12)%nat
          with (List.length ((PutUint32 (module.start md0) ++ PutUint32 (module.end_ md0))
                             ++ PutUint32 (u32 (u32 base + u32 acc)))).
        rewrite Uint32At_PutUint32_in. reflexivity.
    + cbn [descBytes firstn].
      set (w := ModuleDescriptor.binaryWrite _).
      replace (16 * S k + 8)%nat with (List.length w + (16 * k + 8))%nat
        by (unfold w; rewrite descriptor_length; lia).
      replace (16 * S k + 12)%nat with (List.length w + (16 * k + 12))%nat
        by (unfold w; rewrite descriptor_length; lia).
      rewrite !Uint32At_app_r.
      destruct (IH (acc + (slen (module.cmdLine md0) + 1)) k md Hk) as [Hp Hr].
      split; [|exact Hr]. rewrite Hp, cmdBytes_cons_len. f_equal. lia.
Qed.

(** The command line of the [k]-th module stands in the block after those
    of the modules before it. *)
Lemma cmdBytes_string ms k md rest :
  nth_error ms k = Some md ->
  stringAt (cmdBytes ms ++ rest) (len (cmdBytes (firstn k ms))) (module.cmdLine md).
Proof.
  intros Hk. split; [unfold len; lia|].
  apply nth_error_split in Hk as (l1 & l2 & -> & <-).
  rewrite firstn_app, firstn_all, Nat.sub_diag, app_nil_r.
  unfold len. rewrite Nat2Z.id, cmdBytes_app, cmdBytes_cons, <- !app_assoc.
  rewrite skipn_app_exact by reflexivity.
  rewrite (app_assoc (bytesOf _)). apply firstn_app_exact.
  rewrite length_app, bytesOf_length. reflexivity.
Qed.

End ModulesBlock.

(** X6.  In the marshalled modules block the [k]-th descriptor points at the
    command line of the [k]-th module: its third word is the base plus the
    offset of that string among the command lines (modulo 2^32), its fourth
    word is zero, and the string, closed by a zero byte, stands at that
    offset.  The block is as long as the command lines and their zero bytes
    plus 16 bytes per module, whatever the base. *)
Theorem marshalModules_pointers (ms : list module.t) (base : Z) (k : nat) (md : module.t) :
  nth_error ms k = Some md ->
  let off := len (cmdBytes (firstn k ms)) in
  let desc := (List.length (cmdBytes ms) + 16 * k)%nat in
  exists d,
    marshalModules ms base = Ok d
    /\ len d = len (cmdBytes ms) + sizeofModule * len ms
    /\ Uint32At d (desc + 8) = u32 (base + off)
    /\ Uint32At d (desc + 12) = 0
    /\ stringAt d off (module.cmdLine md)
    /\ (0 <= base -> base + off < 2 ^ 32 ->
        stringAt d (Uint32At d (desc + 8) - base) (module.cmdLine md)).
Proof.
  intros Hk off desc. rewrite marshalModules_layout.
  eexists. split; [reflexivity|].
  destruct (descBytes_pointer base ms 0 k md Hk) as [Hp Hr].
  assert (Hptr : Uint32At (cmdBytes ms ++ descBytes base 0 ms) (desc + 8) = u32 (base + off)).
  { unfold desc. rewrite <- Nat.add_assoc, Uint32At_app_r, Hp. reflexivity. }
  split.
  { unfold len. rewrite length_app, descBytes_length, sizeofModule_eq. lia. }
  split; [exact Hptr|].
  split.
  { unfold desc. rewrite <- Nat.add_assoc, Uint32At_app_r. exact Hr. }
  split; [apply cmdBytes_string, Hk|].
  intros Hbase Hfit. rewrite Hptr.
  assert (Hoff : 0 <= off) by (unfold off, len; lia).
  rewrite u32_small by lia.
  replace (base + off - base) with off by lia.
  apply cmdBytes_string, Hk.
Qed.

Lemma marshalModules_pointers_witness :
  let ms := [module.mk 0x100000 0x10000a "quiet"; module.mk 0x101000 0x101fff "a b"] in
  exists d,
    marshalModules ms 0x200000 = Ok d
    /\ Uint32At d (10 + 16 + 8) = 0x200006
    /\ stringAt d 6 "a b".
Proof.
  cbv zeta.
  destruct (marshalModules_pointers
              [module.mk 0x100000 0x10000a "quiet"; module.mk 0x101000 0x101fff "a b"]
              0x200000 1 (module.mk 0x101000 0x101fff "a b") eq_refl)
    as (d & Hd & _ & Hp & _ & Hs & _).
  exists d. split; [exact Hd|]. split; [exact Hp | exact Hs].
Defined.

Section Tokenizer.

Lemma string_of_list_ascii_app l1 l2 :
  string_of_list_ascii (l1 ++ l2)
  = (string_of_list_ascii l1 ++ string_of_list_ascii l2)%string.
Proof. induction l1 as [|c l1 IH]; cbn; [reflexivity | now rewrite IH]. Qed.







End Tokenizer.



Section ModuleOrder.
Context {host : Host}.

(** The command lines the loop records, in the order of the specs. *)
Lemma addModulesLoop_cmdLines specs : forall m acc mods m',
  addModulesLoop m acc specs = Ok (mods, m') ->
  map module.cmdLine mods
  = map module.cmdLine acc
    ++ map specCmdLine (filter (fun s => negb (emptyFile s)) specs).
Proof.
  induction specs as [|spec specs IH]; intros m acc mods m' H.
  - cbn in H. apply Ok_inj in H. injection H as <- _. cbn. now rewrite app_nil_r.
  - cbn [addModulesLoop] in H. cbn [filter]. unfold emptyFile at 1.
    destruct (Fields spec) as [|name args] eqn:Hf; [discriminate|].
    destruct (addModule m name args) as [[md m1] | e |] eqn:Hadd; [| |discriminate].
    + assert (Hne : readModule name <> Ok []).
      { intros Hempty. apply (addModule_empty m name args) in Hempty. congruence. }
      assert (Hcmd : module.cmdLine md = Join args " ").
      { unfold addModule in Hadd.
        apply bind_Ok in Hadd as (data & _ & Hadd).
        destruct (len data =? 0); [discriminate|].
        apply bind_Ok in Hadd as ([addr mem] & _ & Hadd).
        apply Ok_inj in Hadd. now injection Hadd as <- _. }
      apply IH in H. rewrite H, map_app, <- app_assoc.
      assert (Hb : (match readModule name with Ok [] => true | _ => false end) = false).
      { destruct (readModule name) as [[|b data] | e |]; [now elim Hne | reflexivity ..]. }
      rewrite Hb. cbn [negb map app tl]. unfold specCmdLine. now rewrite Hcmd, Hf.
    + destruct e; try discriminate.
      apply (addModule_empty m name args) in Hadd. rewrite Hadd. cbn [negb].
      now apply (IH m acc mods m').
Qed.

End ModuleOrder.

(** X8.  [addModules] asks [FindSpace] for exactly as many bytes as it then
    installs: the block marshalled with the base [FindSpace] returned has
    the length of the block marshalled with base 0.  The block holds one
    descriptor per spec whose file is not empty, in the order of the specs,
    with the command line of each. *)
Theorem addModules_two_pass {host : Host} (m m' : Multiboot.t) (addr : Z) :
  addModules m = Ok (addr, m') ->
  exists mods m1 base mem1 mem2 d,
    addModulesLoop m [] (Multiboot.modules m) = Ok (mods, m1)
    /\ marshalModules mods base = Ok d
    /\ FindSpace (Multiboot.mem m1) (len d) = inr (base, mem1)
    /\ AddKexecSegment mem1 d = inr (addr, mem2)
    /\ m' = Multiboot.set_mem mem2 m1
    /\ map module.cmdLine mods
       = map specCmdLine (filter (fun s => negb (emptyFile s)) (Multiboot.modules m))
    /\ len d = len (cmdBytes mods) + sizeofModule * len mods.
Proof.
  intros H.
  apply addModules_inv in H as (mods & m1 & base & mem1 & mem2 & Hloop & Hfind & Hadd & ->).
  assert (Hlen : forall b, len (cmdBytes mods ++ descBytes b 0 mods)
                           = len (cmdBytes mods) + sizeofModule * len mods).
  { intros b. unfold len. rewrite length_app, descBytes_length, sizeofModule_eq. lia. }
  exists mods, m1, base, mem1, mem2, (cmdBytes mods ++ descBytes base 0 mods).
  split; [exact Hloop|]. split; [apply marshalModules_layout|].
  split; [rewrite Hlen, <- (Hlen 0); exact Hfind|].
  split; [exact Hadd|]. split; [reflexivity|].
  split; [exact (addModulesLoop_cmdLines _ _ _ _ _ Hloop) | apply Hlen].
Qed.

Lemma addModules_two_pass_witness :
  exists mods m1,
    @addModulesLoop Fixture.demoHost
      (Fixture.demoBoot "" ["initrd a  b"; "empty x"; "initrd"]%string) []
      ["initrd a  b"; "empty x"; "initrd"]%string = Ok (mods, m1)
    /\ map module.cmdLine mods = ["a b"; ""]%string.
Proof.
  pose (m := Fixture.demoBoot "" ["initrd a  b"; "empty x"; "initrd"]%string).
  destruct (@addModules Fixture.demoHost m) as [[addr m'] | e |] eqn:Hadd;
    [| vm_compute in Hadd; discriminate Hadd ..].
  destruct (@addModules_two_pass Fixture.demoHost m m' addr Hadd)
    as (mods & m1 & _ & _ & _ & _ & Hloop & _ & _ & _ & _ & Hcmd & _).
  exists mods, m1. split; [exact Hloop | exact Hcmd].
Defined.
(* ===================================================================== *)
(** * The memory fields of the info block, for every memory map *)
(* ===================================================================== *)

Section Boundaries32.

Lemma end32_range r : 0 <= end32 r < 2 ^ 32.
Proof. apply u32_range. Qed.

Lemma lower32_cons r phys :
  lower32 (r :: phys)
  = if ramFrom (640 * 1024) r then Z.max (end32 r) (lower32 phys) else lower32 phys.
Proof. unfold lower32. cbn [filter]. now destruct (ramFrom _ r). Qed.

Lemma upper32_cons r phys :
  upper32 (r :: phys)
  = if ramFrom 1048576 r then Z.max (end32 r - 1048576) (upper32 phys)
    else upper32 phys.
Proof. unfold upper32. cbn [filter]. now destruct (ramFrom _ r). Qed.

Lemma lower32_range phys : 0 <= lower32 phys < 2 ^ 32.
Proof.
  induction phys as [|r phys IH]; [cbn; lia|].
  rewrite lower32_cons. pose proof (end32_range r).
  destruct (ramFrom _ r); lia.
Qed.

Lemma upper32_range phys : 0 <= upper32 phys < 2 ^ 32 - 1048576.
Proof.
  induction phys as [|r phys IH]; [cbn; lia|].
  rewrite upper32_cons. pose proof (end32_range r).
  destruct (ramFrom _ r); lia.
Qed.

(** The loop of [memoryBoundaries] computes the two maxima of the 32-bit
    range ends; [upper + M1] never wraps. *)
Lemma boundary_loop32 phys : forall lower upper,
  0 <= lower < 2 ^ 32 ->
  0 <= upper < 2 ^ 32 - 1048576 ->
  fold_left boundaryStep phys (lower, upper)
  = (Z.max lower (lower32 phys), Z.max upper (upper32 phys)).
Proof.
  induction phys as [|r phys IH]; intros lower upper Hlo Hup.
  - cbn. f_equal; lia.
  - cbn [fold_left].
    pose proof (lower32_range phys). pose proof (upper32_range phys).
    pose proof (end32_range r) as He.
    rewrite lower32_cons, upper32_cons.
    unfold ramFrom, boundaryStep.
    destruct (kexec.isRAM (kexec.Type_ r)); cbn [negb andb].
    + replace (u32 (u32 (kexec.Start (kexec.Range_ r)) + u32 (kexec.Size (kexec.Range_ r))))
        with (end32 r) by (unfold end32; now rewrite u32_add_l, u32_add_r).
      set (e := end32 r) in *. set (s := kexec.Start (kexec.Range_ r)).
      rewrite (u32_small (upper + 1048576)) by lia.
      destruct (Z.leb_spec s (640 * 1024)), (Z.leb_spec s 1048576),
               (Z.ltb_spec lower e), (Z.ltb_spec (upper + 1048576) e);
        cbn [andb]; try rewrite (u32_small (e - 1048576)) by lia.
      all: rewrite IH; [f_equal; lia | lia | lia].
    + now rewrite IH.
Qed.

Lemma KiB_exact x : 0 <= x < 2 ^ 32 -> min (u32 (Z.shiftr x 10)) 0xFFFFFFFF = x / 1024.
Proof.
  intros Hx. rewrite min_saturates by exact Hx. unfold toKiB.
  pose proof (Z.div_mod x 1024 ltac:(lia)).
  pose proof (Z.mod_pos_bound x 1024 ltac:(lia)). lia.
Qed.

Lemma memoryBoundaries_eq32 m :
  memoryBoundaries m
  = (lower32 (kexec.Phys (Multiboot.mem m)), upper32 (kexec.Phys (Multiboot.mem m))).
Proof.
  unfold memoryBoundaries. rewrite boundary_loop32 by lia.
  pose proof (lower32_range (kexec.Phys (Multiboot.mem m))).
  pose proof (upper32_range (kexec.Phys (Multiboot.mem m))).
  f_equal; lia.
Qed.

End Boundaries32.

(** X9.  For every memory map, [memoryBoundaries] returns the maximum of the
    range ends taken modulo 2^32 over the RAM ranges starting at or below
    640 KiB, and the maximum of those ends less 1 MiB over the RAM ranges
    starting at or below 1 MiB (0 when there is none or the end is below
    1 MiB).  Both are 32-bit values and [upper + 1 MiB] does not wrap, so
    the [min(..., 0xFFFFFFFF)] of [newMultibootInfo] always returns its
    first argument: the info block reports less than 2^22 KiB whatever the
    memory. *)
Theorem memoryBoundaries_mod32 (m : Multiboot.t) :
  let phys := kexec.Phys (Multiboot.mem m) in
  memoryBoundaries m = (lower32 phys, upper32 phys)
  /\ 0 <= lower32 phys < 2 ^ 32
  /\ 0 <= upper32 phys < 2 ^ 32 - 1048576
  /\ min (u32 (Z.shiftr (lower32 phys) 10)) 0xFFFFFFFF = lower32 phys / 1024
  /\ min (u32 (Z.shiftr (upper32 phys) 10)) 0xFFFFFFFF = upper32 phys / 1024
  /\ lower32 phys / 1024 < 2 ^ 22
  /\ upper32 phys / 1024 < 2 ^ 22 - 1024.
Proof.
  cbv zeta.
  pose proof (lower32_range (kexec.Phys (Multiboot.mem m))) as Hl.
  pose proof (upper32_range (kexec.Phys (Multiboot.mem m))) as Hu.
  split; [apply memoryBoundaries_eq32|].
  split; [exact Hl|]. split; [exact Hu|].
  split; [apply KiB_exact; lia|]. split; [apply KiB_exact; lia|].
  split.
  - apply Z.div_lt_upper_bound; lia.
  - apply Z.div_lt_upper_bound; lia.
Qed.

Section MemoryMapBytes.

Lemma PutUint64_split v : PutUint64 v = PutUint32 v ++ PutUint32 (Z.shiftr v 32).
Proof. unfold PutUint64, PutUint32. now rewrite !Z.shiftr_shiftr by lia. Qed.

Lemma Uint64At_app_r pre b i :
  Uint64At (pre ++ b) (List.length pre + i) = Uint64At b i.
Proof. unfold Uint64At. now rewrite <- Nat.add_assoc, !Uint32At_app_r. Qed.

Lemma Uint64At_PutUint64 v rest : Uint64At (PutUint64 v ++ rest) 0 = u64 v.
Proof.
  unfold Uint64At. rewrite PutUint64_split, <- app_assoc.
  pose proof (Uint32At_PutUint32_in [] v (PutUint32 (Z.shiftr v 32) ++ rest)) as H1.
  pose proof (Uint32At_PutUint32_in (PutUint32 v) (Z.shiftr v 32) rest) as H2.
  cbn [app List.length] in H1. change (List.length (PutUint32 v)) with 4%nat in H2.
  cbn [Nat.add]. rewrite H1, H2.
  unfold u32, u64. rewrite Z.shiftr_div_pow2, Z.shiftl_mul_pow2 by lia.
  change (2 ^ 64) with (2 ^ 32 * 2 ^ 32).
  rewrite Z.rem_mul_r by lia. lia.
Qed.

Lemma entry_length e : List.length (MemoryMap.binaryWrite e) = 24%nat.
Proof. reflexivity. Qed.

Lemma sizeofMemoryMap_eq : sizeofMemoryMap = 24.
Proof. reflexivity. Qed.

Lemma marshalMemoryMaps_length es :
  List.length (marshalMemoryMaps es) = (24 * List.length es)%nat.
Proof.
  unfold marshalMemoryMaps. induction es as [|e es IH]; [reflexivity|].
  cbn [flat_map]. rewrite length_app, entry_length, IH. cbn [List.length]. lia.
Qed.

(** The four fields of entry [k], read back from the marshalled map. *)
Lemma marshalMemoryMaps_entry es : forall k e,
  nth_error es k = Some e ->
  Uint32At (marshalMemoryMaps es) (24 * k) = u32 (MemoryMap.Size e)
  /\ Uint64At (marshalMemoryMaps es) (24 * k + 4) = u64 (MemoryMap.BaseAddr e)
  /\ Uint64At (marshalMemoryMaps es) (24 * k + 12) = u64 (MemoryMap.Length e)
  /\ Uint32At (marshalMemoryMaps es) (24 * k + 20) = u32 (MemoryMap.Type_ e).
Proof.
  unfold marshalMemoryMaps.
  induction es as [|e0 es IH]; intros [|k] e Hk; try discriminate.
  - injection Hk as ->. cbn [flat_map]. unfold MemoryMap.binaryWrite.
    rewrite <- !app_assoc. repeat split.
    + apply (Uint32At_PutUint32_in []).
    + change (24 * 0 + 4)%nat with (List.length (PutUint32 (MemoryMap.Size e)) + 0)%nat.
      rewrite Uint64At_app_r. apply Uint64At_PutUint64.
    + rewrite !app_assoc, <- (app_assoc _ (PutUint64 (MemoryMap.Length e))).
      change (24 * 0 + 12)%nat
        with (List.length (PutUint32 (MemoryMap.Size e) ++ PutUint64 (MemoryMap.BaseAddr e))
              + 0)%nat.
      rewrite <- app_assoc, Uint64At_app_r. apply Uint64At_PutUint64.
    + rewrite !app_assoc, <- (app_assoc _ (PutUint32 (MemoryMap.Type_ e))).
      change (24 * 0 + 20)%nat
        with (List.length ((PutUint32 (MemoryMap.Size e) ++ PutUint64 (MemoryMap.BaseAddr e))
                           ++ PutUint64 (MemoryMap.Length e))).
      apply Uint32At_PutUint32_in.
  - cbn [flat_map]. cbn [nth_error] in Hk. specialize (IH k e Hk).
    replace (24 * S k)%nat with (List.length (MemoryMap.binaryWrite e0) + 24 * k)%nat
      by (rewrite entry_length; lia).
    rewrite <- !Nat.add_assoc, !Uint32At_app_r, !Uint64At_app_r. exact IH.
Qed.

End MemoryMapBytes.

(** X10.  The memory map [addMmap] installs has one 24-byte entry per
    physical range, in the order of [mem.Phys]: the size word 20 (the entry
    less the word itself, so entries follow one another), the start and the
    size of the range as 64-bit little-endian values, and the type code (1
    for RAM only, 2 for a type that is not in [rangeTypes]).  The size
    [addMmap] returns is the length of the bytes it installed. *)
Theorem memoryMap_encoding {host : Host} (m : Multiboot.t) :
  let d := marshalMemoryMaps (memoryMap m) in
  len d = 24 * len (kexec.Phys (Multiboot.mem m))
  /\ (forall k r,
        nth_error (kexec.Phys (Multiboot.mem m)) k = Some r ->
        Uint32At d (24 * k) = 20
        /\ Uint64At d (24 * k + 4) = u64 (kexec.Start (kexec.Range_ r))
        /\ Uint64At d (24 * k + 12) = u64 (kexec.Size (kexec.Range_ r))
        /\ Uint32At d (24 * k + 20) = typeCode (kexec.Type_ r)
        /\ (typeCode (kexec.Type_ r) = 1 <-> kexec.isRAM (kexec.Type_ r) = true))
  /\ (forall addr size m',
        addMmap m = Ok (addr, size, m') ->
        AddKexecSegment (Multiboot.mem m) d = inr (addr, Multiboot.mem m')
        /\ size = u64 (len d)
        /\ m' = Multiboot.set_mem (Multiboot.mem m') m).
Proof.
  cbv zeta.
  assert (Hlen : len (marshalMemoryMaps (memoryMap m))
                 = 24 * len (kexec.Phys (Multiboot.mem m))).
  { unfold len. rewrite marshalMemoryMaps_length. unfold memoryMap.
    rewrite length_map. lia. }
  split; [exact Hlen|]. split.
  - intros k r Hk.
    assert (He : nth_error (memoryMap m) k
                 = Some (MemoryMap.mk 20 (u64 (kexec.Start (kexec.Range_ r)))
                                      (u64 (kexec.Size (kexec.Range_ r)))
                                      (typeCode (kexec.Type_ r)))).
    { unfold memoryMap. rewrite nth_error_map, Hk. reflexivity. }
    destruct (marshalMemoryMaps_entry _ _ _ He) as (Hs & Hb & Hl & Ht).
    cbn [MemoryMap.Size MemoryMap.BaseAddr MemoryMap.Length MemoryMap.Type_] in *.
    split; [exact Hs|].
    split; [rewrite Hb; unfold u64; apply Z.mod_mod; lia|].
    split; [rewrite Hl; unfold u64; apply Z.mod_mod; lia|].
    split.
    + rewrite Ht. unfold typeCode. destruct (kexec.Type_ r); reflexivity.
    + unfold typeCode. destruct (kexec.Type_ r); cbn; split; congruence.
  - intros addr size m' H. unfold addMmap in H.
    apply bind_Ok in H as ([a mem] & Hadd & H). apply liftK_Ok in Hadd.
    apply Ok_inj in H. injection H as <- <- <-.
    cbn [Multiboot.mem Multiboot.set_mem].
    split; [exact Hadd|]. split; [|reflexivity].
    rewrite Hlen, sizeofMemoryMap_eq. unfold memoryMap, len. rewrite length_map.
    unfold u64. rewrite Zmult_mod_idemp_l. f_equal. lia.
Qed.

Lemma memoryMap_encoding_witness :
  Uint64At (marshalMemoryMaps (memoryMap (Fixture.demoBoot "" []))) (24 * 2 + 4) = 0x100000
  /\ Uint32At (marshalMemoryMaps (memoryMap (Fixture.demoBoot "" []))) (24 * 1 + 20) = 2.
Proof.
  destruct (@memoryMap_encoding Fixture.demoHost (Fixture.demoBoot "" [])) as (_ & Hentry & _).
  split.
  - destruct (Hentry 2%nat _ eq_refl) as (_ & Hbase & _). exact Hbase.
  - destruct (Hentry 1%nat _ eq_refl) as (_ & _ & _ & Htype & _). exact Htype.
Defined.
(* ===================================================================== *)
(** * The info block and [Load] as a whole *)
(* ===================================================================== *)

Section Outcomes.

Lemma bind_Err {A B} (r : result A) (k : A -> result B) e :
  bind r k = Err e -> r = Err e \/ exists a, r = Ok a /\ k a = Err e.
Proof.
  destruct r as [a | e' |]; cbn; intros H; [right; eauto | | discriminate].
  injection H as ->. now left.
Qed.


Lemma context_Err {A} msg (r : result A) e :
  context msg r = Err e -> exists cause, r = Err cause /\ e = ErrContext msg cause.
Proof. destruct r; cbn; intros H; try discriminate. injection H as <-. eauto. Qed.



End Outcomes.

Section InfoFields.
Context {host : Host}.

Lemma u32_BootLoaderName n :
  u32 (u32 (sizeofInfo + u32 n) + 1) = u32 (109 + n).
Proof.
  rewrite sizeofInfo_eq, u32_add_l, <- Z.add_assoc, (Z.add_comm (u32 n)).
  rewrite Z.add_assoc, u32_add_r. reflexivity.
Qed.

End InfoFields.

(** X11.  The info block [newMultibootInfo] builds, field by field.  The
    flags word is 0x204 (command line, boot loader name), plus 0x41 (memory,
    memory map) iff the kernel header has the memory-info flag, plus 0x8
    (modules) iff the module list is not empty.  Without the memory-info
    flag the four memory fields are 0 although the memory map has been
    installed; with it they are the boundaries in KiB and the address and
    size [addMmap] returned.  [ModsCount] is the length of the module list
    and [ModsAddr] the address [addModules] returned; every field the
    function does not assign is 0. *)
Theorem newMultibootInfo_fields {host : Host} (m m' : Multiboot.t) (iw : infoWrapper) :
  newMultibootInfo m = Ok (iw, m') ->
  let memInfo := negb (Z.land (Flags (Multiboot.header m)) flagHeaderMemoryInfo =? 0) in
  let hasMods := 0 <? len (Multiboot.modules m) in
  exists mmapAddr mmapSize m0 modAddr,
    addMmap m = Ok (mmapAddr, mmapSize, m0)
    /\ (if hasMods then addModules m0 = Ok (modAddr, m') else modAddr = 0 /\ m' = m0)
    /\ iw = mkInfoWrapper
              (Info.mk (0x204 + (if memInfo then 0x41 else 0) + (if hasMods then 0x8 else 0))
                 (if memInfo then lower32 (kexec.Phys (Multiboot.mem m0)) / 1024 else 0)
                 (if memInfo then upper32 (kexec.Phys (Multiboot.mem m0)) / 1024 else 0)
                 0 108
                 (u32 (len (Multiboot.modules m))) (u32 modAddr)
                 (0, 0, 0, 0)
                 (if memInfo then u32 mmapSize else 0)
                 (if memInfo then u32 mmapAddr else 0)
                 0 0 0 (u32 (109 + slen (Multiboot.cmdLine m)))
                 0 0 0 0 0 0 0 0 0 0 0 x00 x00 (x00, x00, x00, x00, x00, x00))
              (Multiboot.cmdLine m) (Multiboot.bootloader m).
Proof.
  cbv zeta. unfold newMultibootInfo. intros H.
  apply bind_Ok in H as ([[mmapAddr mmapSize] m0] & Hmmap & H).
  pose proof (addMmap_sameBoot _ _ _ _ Hmmap) as Hsame.
  cbn beta iota zeta in H.
  rewrite (sameBoot_header _ _ Hsame), (sameBoot_modules _ _ Hsame) in H.
  rewrite memoryBoundaries_eq32 in H.
  pose proof (lower32_range (kexec.Phys (Multiboot.mem m0))) as Hl.
  pose proof (upper32_range (kexec.Phys (Multiboot.mem m0))) as Hu.
  rewrite !KiB_exact in H by lia.
  apply bind_Ok in H as ([info m2] & Hmods & H).
  cbn beta iota zeta in H. apply Ok_inj in H. apply pair_equal_spec in H as [<- <-].
  destruct (0 <? len (Multiboot.modules m)) eqn:Hnonempty.
  - apply bind_Ok in Hmods as ([modAddr m3] & Hadd & Hmods).
    cbn beta iota zeta in Hmods. apply Ok_inj in Hmods.
    apply pair_equal_spec in Hmods as [<- <-].
    pose proof (addModules_sameBoot _ _ _ Hadd) as Hsame3.
    pose proof (sameBoot_trans _ _ _ Hsame Hsame3) as Hsame'.
    exists mmapAddr, mmapSize, m0, modAddr.
    split; [exact Hmmap|]. split; [exact Hadd|].
    rewrite (sameBoot_cmdLine _ _ Hsame'), (sameBoot_bootloader _ _ Hsame'),
            (sameBoot_modules _ _ Hsame3), (sameBoot_modules _ _ Hsame).
    rewrite u32_BootLoaderName, sizeofInfo_eq.
    destruct (Z.land (Flags (Multiboot.header m)) flagHeaderMemoryInfo =? 0);
      reflexivity.
  - apply Ok_inj in Hmods. apply pair_equal_spec in Hmods as [<- <-].
    exists mmapAddr, mmapSize, m0, 0.
    split; [exact Hmmap|]. split; [split; reflexivity|].
    rewrite (sameBoot_cmdLine _ _ Hsame), (sameBoot_bootloader _ _ Hsame).
    rewrite u32_BootLoaderName, sizeofInfo_eq.
    assert (Hlen : len (Multiboot.modules m) = 0).
    { apply Z.ltb_ge in Hnonempty. unfold len in *. lia. }
    rewrite Hlen.
    destruct (Z.land (Flags (Multiboot.header m)) flagHeaderMemoryInfo =? 0);
      reflexivity.
Qed.

Lemma newMultibootInfo_fields_witness :
  exists iw m',
    @newMultibootInfo Fixture.demoHost (Fixture.demoBoot "root=/" ["initrd"]%string)
    = Ok (iw, m')
    /\ Info.Flags (Info_ iw) = 0x24D
    /\ Info.MemLower (Info_ iw) = 639
    /\ Info.MemUpper (Info_ iw) = 130048.
Proof.
  pose (m := Fixture.demoBoot "root=/" ["initrd"]%string).
  destruct (@newMultibootInfo Fixture.demoHost m) as [[iw m'] | e |] eqn:Hnew;
    [| vm_compute in Hnew; discriminate Hnew ..].
  destruct (@newMultibootInfo_fields Fixture.demoHost m m' iw Hnew)
    as (mmapAddr & mmapSize & m0 & modAddr & Hmmap & _ & ->).
  eexists. eexists. split; [exact Hnew|].
  vm_compute in Hmmap. apply Ok_inj in Hmmap. injection Hmmap as _ _ <-.
  split; [|split]; vm_compute; reflexivity.
Defined.

Section InfoSegment.
Context {host : Host}.

Lemma marshal_length iw base d :
  marshal iw base = Ok d ->
  len d = roundUp4 (108 + slen (CmdLine iw) + slen (BootLoaderName iw) + 2).
Proof.
  intros Hd. destruct (marshal_eq iw base) as (info & _ & _ & Heq).
  rewrite Heq in Hd. apply Ok_inj in Hd. subst d. unfold len.
  rewrite copy_length, repeat_length.
  pose proof (roundUp4_spec (108 + slen (CmdLine iw) + slen (BootLoaderName iw) + 2)).
  unfold slen in *. lia.
Qed.

Lemma marshal_fields iw base d :
  marshal iw base = Ok d ->
  Uint32At d offsetCmdLine = u32 (base + sizeofInfo)
  /\ Uint32At d offsetBootLoaderName = u32 (base + sizeofInfo + slen (CmdLine iw) + 1).
Proof.
  intros Hd. destruct (marshal_layout iw base) as (pad & _ & Heq).
  rewrite Heq in Hd. apply Ok_inj in Hd. subst d.
  match goal with
  | |- context [Info.binaryWrite ?i ++ ?rest] =>
      destruct (binaryWrite_fields i rest) as (_ & Hc & Hb)
  end.
  rewrite Hc, Hb.
  cbn [Info.CmdLine Info.BootLoaderName Info.set_BootLoaderName Info.set_CmdLine].
  rewrite !u32_idem. split.
  - rewrite u32_add_r. f_equal. lia.
  - rewrite u32_add_l, u32_add_r.
    replace (sizeofInfo + u32 base + (u32 (slen (CmdLine iw)) + 1))
      with (u32 base + (sizeofInfo + 1 + u32 (slen (CmdLine iw)))) by lia.
    rewrite u32_add_l.
    replace (base + (sizeofInfo + 1 + u32 (slen (CmdLine iw))))
      with (base + sizeofInfo + 1 + u32 (slen (CmdLine iw))) by lia.
    rewrite u32_add_r. f_equal. lia.
Qed.

Lemma addInfo_sameBoot m addr m' : addInfo m = Ok (addr, m') -> sameBoot m m'.
Proof.
  intros H. apply addInfo_inv in H as (iw & m1 & base & mem1 & mem2 & d & Hnew & _ & _ & ->).
  apply newMultibootInfo_inv in Hnew as [Hsame _].
  eapply sameBoot_trans; [exact Hsame | apply sameBoot_set_mem].
Qed.

End InfoSegment.

(** X12.  [addInfo] marshals the info block twice.  The space it asks
    [FindSpace] for is the length of the bytes it then installs, and the two
    pointers in the installed bytes are computed from the address
    [FindSpace] returned: the command line is at that address plus the size
    of [Info], the boot loader name after the command line and its zero
    byte.  The address returned is the one [AddKexecSegment] gave. *)
Theorem addInfo_two_pass {host : Host} (m m' : Multiboot.t) (addr : Z) :
  addInfo m = Ok (addr, m') ->
  exists iw m1 base mem1 mem2 d,
    newMultibootInfo m = Ok (iw, m1)
    /\ marshal iw base = Ok d
    /\ FindSpace (Multiboot.mem m1) (len d) = inr (base, mem1)
    /\ AddKexecSegment mem1 d = inr (addr, mem2)
    /\ m' = Multiboot.set_mem mem2 m1
    /\ len d = roundUp4 (sizeofInfo + slen (Multiboot.cmdLine m)
                         + slen (Multiboot.bootloader m) + 2)
    /\ Uint32At d offsetCmdLine = u32 (base + sizeofInfo)
    /\ Uint32At d offsetBootLoaderName
       = u32 (base + sizeofInfo + slen (Multiboot.cmdLine m) + 1).
Proof.
  unfold addInfo. intros H.
  apply bind_Ok in H as ([iw m1] & Hnew & H). cbn beta iota zeta in H.
  apply bind_Ok in H as (size & Hsize & H).
  apply bind_Ok in H as ([base mem1] & Hfind & H). apply liftK_Ok in Hfind.
  cbn beta iota zeta in H.
  apply bind_Ok in H as (d & Hd & H).
  apply bind_Ok in H as ([addr' mem2] & Hadd & H). apply liftK_Ok in Hadd.
  cbn beta iota zeta in H. apply Ok_inj in H. apply pair_equal_spec in H as [<- <-].
  unfold infoSize in Hsize. apply bind_Ok in Hsize as (d0 & Hd0 & Hsize).
  apply Ok_inj in Hsize. subst size.
  pose proof (marshal_length _ _ _ Hd0) as Hlen0.
  pose proof (marshal_length _ _ _ Hd) as Hlen.
  pose proof (marshal_fields _ _ _ Hd) as [Hc Hb].
  apply newMultibootInfo_inv in Hnew as Hinv. destruct Hinv as (_ & Hcmd & Hname & _).
  rewrite Hcmd in *. rewrite Hname in *.
  exists iw, m1, base, mem1, mem2, d.
  split; [exact Hnew|]. split; [exact Hd|].
  split; [rewrite Hlen, <- Hlen0; exact Hfind|].
  split; [exact Hadd|]. split; [reflexivity|].
  split; [rewrite sizeofInfo_eq; exact Hlen|]. split; [exact Hc | exact Hb].
Qed.

Lemma addInfo_two_pass_witness :
  exists addr m' d,
    @addInfo Fixture.demoHost (Fixture.demoBoot "root=/" ["initrd"]%string) = Ok (addr, m')
    /\ len d = 128
    /\ Uint32At d offsetCmdLine = 0x103000 + 108.
Proof.
  pose (m := Fixture.demoBoot "root=/" ["initrd"]%string).
  destruct (@addInfo Fixture.demoHost m) as [[addr m'] | e |] eqn:Hinfo;
    [| vm_compute in Hinfo; discriminate Hinfo ..].
  destruct (@addInfo_two_pass Fixture.demoHost m m' addr Hinfo)
    as (iw & m1 & base & mem1 & mem2 & d & Hnew & _ & Hfind & _ & _ & Hlen & Hc & _).
  exists addr, m', d. split; [exact Hinfo|].
  split; [rewrite Hlen; reflexivity|].
  rewrite Hc. vm_compute in Hnew. apply Ok_inj in Hnew. injection Hnew as _ <-.
  vm_compute in Hfind. injection Hfind as <- _. reflexivity.
Defined.

Section LoadPhases.
Context {host : Host}.





(** The outcome of [Load], phase by phase. *)
Lemma Load_phases m :
  match ReadFile (Multiboot.file m) with
  | None => Load m = Err (ErrOpen (Multiboot.file m))
  | Some kernel =>
      match elfEntry kernel with
      | None => Load m = Err (ErrContext "Error getting kernel entry point" ErrElf)
      | Some entry =>
          match parseHeader kernel with
          | (_, Some e) => Load m = Err (ErrContext "Error parsing headers" e)
          | (hdr, None) =>
              let m1 := Multiboot.set_header hdr
                          (Multiboot.set_KernelEntry (u64 entry) m) in
              match LoadElfSegments (Multiboot.mem m) kernel with
              | inl e => Load m = Err (ErrContext "Error loading ELF segments" (ErrKexec e))
              | inr mem1 =>
                  match ParseMemoryMap mem1 with
                  | inl e => Load m = Err (ErrContext "Error parsing memory map" (ErrKexec e))
                  | inr mem2 =>
                      match addInfo (Multiboot.set_mem mem2 m1) with
                      | Panic => Load m = Panic
                      | Err e => Load m = Err (ErrContext "Error preparing Multiboot Info" e)
                      | Ok (addr, m2) =>
                          Load m = context "Error adding trampoline"
                                     (addTrampoline (Multiboot.set_InfoAddr addr m2))
                      end
                  end
              end
          end
      end
  end.
Proof.
  unfold Load, getEntryPoint.
  destruct (ReadFile (Multiboot.file m)) as [kernel|]; [|reflexivity].
  destruct (elfEntry kernel) as [entry|]; [|reflexivity].
  cbn [context bind].
  destruct (parseHeader kernel) as [hdr [e|]]; [reflexivity|].
  cbn [context bind]. cbn [Multiboot.mem Multiboot.set_header Multiboot.set_KernelEntry].
  destruct (LoadElfSegments (Multiboot.mem m) kernel) as [e | mem1]; [reflexivity|].
  cbn [liftK context bind]. cbn [Multiboot.mem Multiboot.set_mem].
  destruct (ParseMemoryMap mem1) as [e | mem2]; [reflexivity|].
  cbn [liftK context bind].
  match goal with
  | |- match addInfo ?x with _ => _ end => set (mi := x)
  end.
  match goal with
  | |- context [bind (context _ (addInfo ?y))] => change y with mi
  end.
  destruct (addInfo mi) as [[addr m2] | e |]; cbn [context bind]; [|reflexivity ..].
  destruct (addTrampoline (Multiboot.set_InfoAddr addr m2)); reflexivity.
Qed.

End LoadPhases.

(** X13.  What a successful [Load] has done.  The kernel file was read, has
    an ELF entry point and a Multiboot header that [Probe] accepts; the
    header and the entry point are recorded; the info block was installed
    at [InfoAddr] after the ELF segments and the memory map were loaded;
    the trampoline was patched with [InfoAddr] and the kernel entry point,
    installed as the last segment, and its address is [EntryPoint].  The
    file name, module list, command line, boot loader name and trampoline
    path are as [New] set them. *)
Theorem Load_success {host : Host} (m mf : Multiboot.t) :
  Load m = Ok mf ->
  exists kernel entry mem1 mem2 m2 d mem3,
    ReadFile (Multiboot.file m) = Some kernel
    /\ elfEntry kernel = Some entry
    /\ parseHeader kernel = (Multiboot.header mf, None)
    /\ Probe (Multiboot.file m) = None
    /\ LoadElfSegments (Multiboot.mem m) kernel = inr mem1
    /\ ParseMemoryMap mem1 = inr mem2
    /\ addInfo (Multiboot.set_mem mem2
                  (Multiboot.set_header (Multiboot.header mf)
                     (Multiboot.set_KernelEntry (u64 entry) m)))
       = Ok (Multiboot.InfoAddr mf, m2)
    /\ setupTrampoline (Multiboot.trampoline m) (Multiboot.InfoAddr mf) (u64 entry) = Ok d
    /\ AddKexecSegment (Multiboot.mem m2) d = inr (Multiboot.EntryPoint mf, mem3)
    /\ mf = Multiboot.mk mem3 (Multiboot.file m) (Multiboot.modules m)
              (Multiboot.cmdLine m) (Multiboot.bootloader m) (Multiboot.trampoline m)
              (Multiboot.header mf) (Multiboot.InfoAddr mf) (Multiboot.EntryPoint mf)
              (u64 entry)
    /\ Segments mf = kexec.Segments mem3.
Proof.
  intros H. pose proof (Load_phases m) as Hp. unfold Probe.
  destruct (ReadFile (Multiboot.file m)) as [kernel|]; [|congruence].
  destruct (elfEntry kernel) as [entry|] eqn:Hentry; [|congruence].
  destruct (parseHeader kernel) as [hdr [e|]] eqn:Hparse; [congruence|].
  cbv zeta in Hp.
  destruct (LoadElfSegments (Multiboot.mem m) kernel) as [e | mem1] eqn:Helf;
    [congruence|].
  destruct (ParseMemoryMap mem1) as [e | mem2] eqn:Hmap; [congruence|].
  destruct (addInfo _) as [[addr m2] | e |] eqn:Hinfo; [|congruence ..].
  rewrite H in Hp. symmetry in Hp. apply context_Ok in Hp.
  pose proof (addInfo_sameBoot _ _ _ Hinfo) as Hsame.
  unfold addTrampoline in Hp.
  apply bind_Ok in Hp as (d & Hd & Hp).
  apply bind_Ok in Hp as ([a mem3] & Hseg & Hp). apply liftK_Ok in Hseg.
  cbn beta iota zeta in Hp. apply Ok_inj in Hp. subst mf.
  assert (Hfields : Multiboot.file m2 = Multiboot.file m
                    /\ Multiboot.modules m2 = Multiboot.modules m
                    /\ Multiboot.cmdLine m2 = Multiboot.cmdLine m
                    /\ Multiboot.bootloader m2 = Multiboot.bootloader m
                    /\ Multiboot.trampoline m2 = Multiboot.trampoline m
                    /\ Multiboot.header m2 = hdr
                    /\ Multiboot.KernelEntry m2 = u64 entry).
  { unfold sameBoot in Hsame. rewrite Hsame. cbn. repeat split; reflexivity. }
  destruct Hfields as (Hf & Hmo & Hc & Hb & Ht & Hh & Hk).
  unfold Segments, Multiboot.set_EntryPoint, Multiboot.set_mem, Multiboot.set_InfoAddr
    in Hd |- *.
  cbn [Multiboot.header Multiboot.InfoAddr Multiboot.EntryPoint Multiboot.mem
       Multiboot.trampoline Multiboot.KernelEntry Multiboot.file Multiboot.modules
       Multiboot.cmdLine Multiboot.bootloader] in Hd |- *.
  rewrite Ht, Hk in Hd. rewrite Hf, Hmo, Hc, Hb, Ht, Hh, Hk.
  change (Multiboot.mem (Multiboot.set_InfoAddr addr m2)) with (Multiboot.mem m2) in Hseg.
  exists kernel, entry, mem1, mem2, m2, d, mem3.
  split; [reflexivity|]. split; [exact Hentry|]. split; [exact Hparse|].
  split; [reflexivity|]. split; [exact Helf|]. split; [exact Hmap|].
  split; [exact Hinfo|]. split; [exact Hd|].
  split; [exact Hseg|]. split; reflexivity.
Qed.

Lemma Load_success_witness :
  exists mf,
    @Load Fixture.demoHost (New "kernel" "root=/" "trampoline" ["initrd"]%string) = Ok mf
    /\ @Probe Fixture.demoHost "kernel" = None
    /\ Multiboot.modules mf = ["initrd"]%string.
Proof.
  pose (m := New "kernel" "root=/" "trampoline" ["initrd"]%string).
  destruct (@Load Fixture.demoHost m) as [mf | e |] eqn:Hload;
    [| vm_compute in Hload; discriminate Hload ..].
  destruct (@Load_success Fixture.demoHost m mf Hload)
    as (kernel & entry & mem1 & mem2 & m2 & d & mem3 & _ & _ & _ & Hprobe & _ & _ & _
        & _ & _ & Hmf & _).
  exists mf. split; [exact Hload|]. split; [exact Hprobe|].
  rewrite Hmf. reflexivity.
Defined.

(** X14.  The errors of [Load] before anything is allocated.  A file that
    cannot be opened gives the error of [os.Open], as for [Probe].  A file
    that is not an ELF file gives the entry-point error whatever its
    Multiboot header.  For an ELF file, [Load] fails with the header
    message exactly when [Probe] fails, and with the error of [Probe]
    (the seek back to the start of the opened file is taken to succeed). *)
Theorem Load_early_errors {host : Host} (m : Multiboot.t) :
  (ReadFile (Multiboot.file m) = None ->
     Load m = Err (ErrOpen (Multiboot.file m))
     /\ Probe (Multiboot.file m) = Some (ErrOpen (Multiboot.file m)))
  /\ (forall kernel,
        ReadFile (Multiboot.file m) = Some kernel ->
        elfEntry kernel = None ->
        Load m = Err (ErrContext "Error getting kernel entry point" ErrElf))
  /\ (forall kernel entry e,
        ReadFile (Multiboot.file m) = Some kernel ->
        elfEntry kernel = Some entry ->
        (Load m = Err (ErrContext "Error parsing headers" e)
         <-> Probe (Multiboot.file m) = Some e)).
Proof.
  pose proof (Load_phases m) as Hp. unfold Probe. split; [|split].
  - intros Hfile. rewrite Hfile in *. split; [exact Hp | reflexivity].
  - intros kernel Hfile Hentry. now rewrite Hfile, Hentry in Hp.
  - intros kernel entry e Hfile Hentry. rewrite Hfile, Hentry in Hp. rewrite Hfile.
    destruct (parseHeader kernel) as [hdr [e0|]]; cbn [snd].
    + rewrite Hp. split; intros H; [injection H as <- | injection H as <-]; reflexivity.
    + split; [|discriminate]. intros H. exfalso. cbv zeta in Hp.
      destruct (LoadElfSegments _ _); [congruence|].
      destruct (ParseMemoryMap _); [congruence|].
      destruct (addInfo _) as [[addr m2] | e1 |]; [|congruence ..].
      rewrite H in Hp. symmetry in Hp.
      apply context_Err in Hp as (cause & _ & Hp). discriminate.
Qed.

Lemma Load_early_errors_witness :
  @Load Fixture.demoHost (New "missing" "" "trampoline" []) = Err (ErrOpen "missing")
  /\ @Load Fixture.demoHost (New "initrd" "" "trampoline" [])
     = Err (ErrContext "Error parsing headers" io_ErrUnexpectedEOF).
Proof.
  split.
  - destruct (@Load_early_errors Fixture.demoHost (New "missing" "" "trampoline" []))
      as (Hopen & _ & _).
    exact (proj1 (Hopen eq_refl)).
  - destruct (@Load_early_errors Fixture.demoHost (New "initrd" "" "trampoline" []))
      as (_ & _ & Hhdr).
    apply (Hhdr (bytesOf "initrd-data") 0x100000 io_ErrUnexpectedEOF eq_refl eq_refl).
    reflexivity.
Defined.


